(** * orange-widget-base: the attribute/control binding engine of
      [orangewidget/gui.py] and the report section builder of
      [orangewidget/report/report.py]

    The development embeds the parts of the two Python modules that carry
    state-machine behaviour: the report section builder ([Report]), the
    [deferred] decorator and [auto_commit] ([Commit]), the [Disabler] call-back
    ([Disable]) and the control binding built by [connectControl]
    ([Binding]).  Objects live in explicit stores, Python exceptions are an
    outcome that keeps the store, and every re-entrant call chain is run by an
    interpreter indexed by a call-depth budget.

    It goes on with the text helpers of report.py ([Text]: [clip_string],
    [clipped_list], [plural], [plural_w], [render_items], over a model of
    [str.format]) and with the smaller classes of gui.py: the check box that
    shows a state of its own while disabled, the line edit that calls back
    when the focus leaves, [DelayedNotification], the commit rule of
    [SpinBoxMixin], [ControlGetter] ([Getter]), the call fronts and
    call-backs of combo boxes, radio buttons and labelled sliders
    ([Selectors]), the attributes [now] and [deferred] of a decorated
    commit ([DeferredAttrs]), the disabler that [checkBox] attaches
    ([CheckBoxDisabler]) and the item that [comboBox] selects first
    ([ComboBox]). *)

From stdpp Require Import gmap strings list fin_maps pretty.
From Stdlib Require Import ZArith Ascii String.

Local Open Scope string_scope.
Local Open Scope Z_scope.
Local Open Scope list_scope.

(** ** Python exceptions and outcomes *)

Inductive Exn :=
| RuntimeError (msg : string)
| ValueError (msg : string)
| AttributeError (msg : string)
| IndexError
| TypeError
| RecursionError
| UserError (tag : nat).

(** A call either returns or raises; the store survives in both cases since
    every mutation made before a [raise] stays visible. *)
Inductive Outcome (S : Type) :=
| Normal (s : S)
| Raised (e : Exn) (s : S).
Arguments Normal {S} s.
Arguments Raised {S} e s.

Definition state_of {S} (o : Outcome S) : S :=
  match o with Normal s => s | Raised _ s => s end.

Definition returns {S} (o : Outcome S) : bool :=
  match o with Normal _ => true | Raised _ _ => false end.

Definition bind {S} (o : Outcome S) (k : S -> Outcome S) : Outcome S :=
  match o with Normal s => k s | Raised e s => Raised e s end.

(** [try: body finally: fin] where [fin] cannot raise. *)
Definition try_finally {S} (body : Outcome S) (fin : S -> S) : Outcome S :=
  match body with
  | Normal s => Normal (fin s)
  | Raised e s => Raised e (fin s)
  end.

Notation "'do' x <- c1 ; c2" := (bind c1 (fun x => c2))
  (at level 10, x name, c1 at level 100, c2 at level 200).

(** The two characters that Rocq string literals cannot hold directly. *)
Definition dq : string := String (ascii_of_nat 34) EmptyString.
Definition nl : string := String (ascii_of_nat 10) EmptyString.

(** Plain Python values (None, bool, int and str). *)
Inductive Prim :=
| PNone
| PBool (b : bool)
| PInt (z : Z)
| PStr (s : string).

(** Python truthiness ([if x:]). *)
Definition prim_truthy (p : Prim) : bool :=
  match p with
  | PNone => false
  | PBool b => b
  | PInt z => negb (z =? 0)
  | PStr s => negb (String.eqb s EmptyString)
  end.

(** ** report.py: the report section builder *)

Module Report.

(** The two attributes of the [Report] mixin that [create_report_html]
    touches. *)
Record Report := mkReport { name : string; report_html : string }.

Definition set_html (h : string) (r : Report) : Report :=
  {| name := name r; report_html := h |}.

(** [self.report_html += s] *)
Definition iadd_html (s : string) (r : Report) : Report :=
  set_html (report_html r +:+ s) r.

(** [get_html_section(name)]; [datetime] is what [time.strftime] returned
    at the call. *)
Definition get_html_section (datetime name : string) : string :=
  "<h1>" +:+ name +:+ " <span class='timestamp'>" +:+ datetime +:+ "</h1>".

Definition get_html_subsection (name : string) : string :=
  "<h2>" +:+ name +:+ "</h2>".

(** [Report._fix_args] *)
Definition _fix_args (name : string) (items : option string)
  : string * string :=
  match items with
  | None => (EmptyString, name)
  | Some items => (name, items)
  end.

Definition report_name (n : string) (r : Report) : Report :=
  if decide (n = EmptyString) then r else iadd_html (get_html_subsection n) r.

Definition report_paragraph (n : string) (text : option string)
    (r : Report) : Report :=
  let '(n, text) := _fix_args n text in
  iadd_html ("<p>" +:+ text +:+ "</p>") (report_name n r).

Definition report_caption (text : string) (r : Report) : Report :=
  iadd_html ("<p class='caption'>" +:+ text +:+ "</p>") r.

Definition report_raw (n : string) (html : option string)
    (r : Report) : Report :=
  let '(n, html) := _fix_args n html in
  iadd_html html (report_name n r).

Definition section_open : string :=
  "<section class=" +:+ dq +:+ "section" +:+ dq +:+ ">".
Definition content_open : string :=
  "<div class=" +:+ dq +:+ "content" +:+ dq +:+ ">" +:+ nl.
Definition section_close : string :=
  "</div></section>" +:+ nl +:+ nl.

Section CreateReport.
(** [send_report] is the widget's own method; [datetime] is the clock
    reading taken inside [get_html_section]. *)
Variable send_report : Report -> Report.
Variable datetime : string.

(** The store in which [send_report] is called. *)
Definition before_send (r : Report) : Report :=
  iadd_html content_open
    (iadd_html (get_html_section datetime (name r))
       (set_html section_open r)).

Definition create_report_html (r : Report) : Report :=
  iadd_html section_close (send_report (before_send r)).
End CreateReport.

(** A [send_report] that reports a named paragraph and a caption. *)
Definition sample_send_report (r : Report) : Report :=
  report_caption "Figure 1" (report_paragraph "Data" (Some "150 rows") r).

End Report.

(** ** gui.py: the [deferred] decorator and [auto_commit] *)

Module Commit.

(** What the body of a user-written method or callback does, as far as this
    module can observe it: visible work, raising, calling the inherited
    method ([super().commit()]) and assigning a master attribute. *)
Inductive Action :=
| Work (tag : nat)
| Throw (e : Exn)
| Super
| SetAttr (name : string) (v : Prim).

Definition Body := list Action.

(** The [commit] object handed to [auto_commit].
    - [Decorated name chain]: the [Deferred] object of a method decorated
      with [gui.deferred]; [chain] lists the decorated functions of that name
      along the MRO, the instance's own class first.
    - [BoundMethod name chain]: an undecorated bound method and the
      undecorated methods it overrides.
    - [Function name body]: a plain function object, written with [lambda]
      or with [def]; [types.LambdaType] is [types.FunctionType], so
      [isinstance(commit, LambdaType)] holds exactly for these. *)
Inductive CommitObj :=
| Decorated (name : string) (chain : list Body)
| BoundMethod (name : string) (chain : list Body)
| Function (name : string) (body : Body).

(** The variables that the closures of one [auto_commit] call share. *)
Record Setup := mkSetup {
  value : string;
  label : string;
  auto_label : string;
  commit : CommitObj;
  commit_name : string;
  callback : option Body
}.

Inductive Value :=
| VPrim (p : Prim)
| VCommit (c : CommitObj)
| VConditional (s : Setup)
| VDoCommit (s : Setup)
| VUser (b : Body).

Definition truthy (v : Value) : bool :=
  match v with VPrim p => prim_truthy p | _ => true end.

(** [DeferredData]; [setdefault] creates it with these defaults on the first
    access, so the store holds it from the start. *)
Record DeferredData := mkData {
  now : option Value;
  deferred : option Value;
  dirty : bool;
  commit_depth : Z
}.

Definition DeferredData_init : DeferredData := mkData None None false 0.

Inductive Event :=
| EWork (tag : nat)
| EWarn (msg : string).

Record World := mkWorld {
  attrs : gmap string Value;   (* the master's instance attributes *)
  data : DeferredData;         (* master.__dict__["__<name>_data"] *)
  closure_dirty : bool;        (* the [nonlocal dirty] of auto_commit *)
  btn_text : string;
  btn_enabled : bool;
  cursor : nat;                (* depth of the override-cursor stack *)
  lambda_counter : nat;        (* how many names LAMBDA_NAME has produced *)
  trace : list Event
}.

Definition with_attrs (f : gmap string Value -> gmap string Value) (w : World) :=
  mkWorld (f (attrs w)) (data w) (closure_dirty w) (btn_text w) (btn_enabled w)
    (cursor w) (lambda_counter w) (trace w).
Definition with_data (f : DeferredData -> DeferredData) (w : World) :=
  mkWorld (attrs w) (f (data w)) (closure_dirty w) (btn_text w) (btn_enabled w)
    (cursor w) (lambda_counter w) (trace w).
Definition with_closure_dirty (b : bool) (w : World) :=
  mkWorld (attrs w) (data w) b (btn_text w) (btn_enabled w)
    (cursor w) (lambda_counter w) (trace w).
Definition with_btn (text : string) (enabled : bool) (w : World) :=
  mkWorld (attrs w) (data w) (closure_dirty w) text enabled
    (cursor w) (lambda_counter w) (trace w).
Definition with_cursor (f : nat -> nat) (w : World) :=
  mkWorld (attrs w) (data w) (closure_dirty w) (btn_text w) (btn_enabled w)
    (f (cursor w)) (lambda_counter w) (trace w).
Definition with_lambda_counter (n : nat) (w : World) :=
  mkWorld (attrs w) (data w) (closure_dirty w) (btn_text w) (btn_enabled w)
    (cursor w) n (trace w).
Definition log (e : Event) (w : World) :=
  mkWorld (attrs w) (data w) (closure_dirty w) (btn_text w) (btn_enabled w)
    (cursor w) (lambda_counter w) (trace w ++ [e]).

Definition depth (w : World) : Z := commit_depth (data w).

Definition add_depth (k : Z) (w : World) : World :=
  with_data (fun d => mkData (now d) (deferred d) (dirty d) (commit_depth d + k)) w.

(** Running a user body; [super] is what [super().<name>()] does. *)
Fixpoint run_body (super : World -> Outcome World) (b : Body) (w : World)
  : Outcome World :=
  match b with
  | [] => Normal w
  | Work tag :: rest => run_body super rest (log (EWork tag) w)
  | Throw e :: _ => Raised e w
  | Super :: rest => do w' <- super w; run_body super rest w'
  | SetAttr n v :: rest =>
      run_body super rest (with_attrs (insert n (VPrim v)) w)
  end.

Definition no_super (w : World) : Outcome World :=
  Raised (AttributeError "'super' object has no such attribute") w.

Definition deferred_message (name : string) : string :=
  "This function is deferred; explicitly call " +:+ name +:+ ".deferred or "
  +:+ name +:+ ".now".

(** [Deferred.call] of the decorated method [name] whose functions along the
    MRO are [chain]; [super] is [Deferred.__call__] of the inherited method,
    which a [super().<name>()] in the function reaches.  The function is
    [instance.__dict__.get(name, func)]. *)
Fixpoint Deferred_call (name : string) (chain : list Body) (w : World)
  : Outcome World :=
  match chain with
  | [] => no_super w
  | func :: supers =>
      let super w' :=
        if decide (depth w' = 0)
        then Raised (RuntimeError (deferred_message name)) w'
        else Deferred_call name supers w' in
      let w1 := add_depth 1 w in
      try_finally
        (match attrs w1 !! name with
         | None => run_body super func w1
         | Some (VUser b) => run_body no_super b w1
         | Some _ => Raised TypeError w1
         end)
        (add_depth (-1))
  end.

(** [Deferred.__call__]: what [self.<name>()] runs. *)
Definition Deferred__call__ (name : string) (chain : list Body) (w : World)
  : Outcome World :=
  if decide (depth w = 0)
  then Raised (RuntimeError (deferred_message name)) w
  else Deferred_call name chain w.

(** [DeferrerProperty.__set__]: what [instance.<name> = value] runs. *)
Definition DeferrerProperty__set__ (name : string) (v : Value) (w : World)
  : Outcome World :=
  Raised (ValueError ("decorated " +:+ name +:+ " can't be mocked; mock '"
                      +:+ name +:+ ".now' and/or '" +:+ name +:+ ".deferred'."))
         w.

(** An undecorated method with the methods it overrides. *)
Fixpoint run_method (chain : list Body) (w : World) : Outcome World :=
  match chain with
  | [] => no_super w
  | func :: supers => run_body (run_method supers) func w
  end.

(** *** [auto_commit] *)

Definition decorated (s : Setup) : bool :=
  match commit s with Decorated _ _ => true | _ => false end.

Definition is_dirty (s : Setup) (w : World) : bool :=
  if decorated s then dirty (data w) else closure_dirty w.

Definition set_dirty (s : Setup) (state : bool) (w : World) : World :=
  if decorated s
  then with_data (fun d => mkData (now d) (deferred d) state (commit_depth d)) w
  else with_closure_dirty state w.

(** [commit.call()] for a decorated commit, [commit()] otherwise. *)
Definition run_commit (s : Setup) (w : World) : Outcome World :=
  match commit s with
  | Decorated n chain => Deferred_call n chain w
  | BoundMethod _ chain => run_method chain w
  | Function _ body => run_body no_super body w
  end.

Definition do_commit (s : Setup) (w : World) : Outcome World :=
  try_finally
    (do w' <- run_commit s (with_cursor S w); Normal (set_dirty s false w'))
    (with_cursor Nat.pred).

Definition getattr_error (n : string) : Exn :=
  AttributeError ("object has no attribute '" +:+ n +:+ "'").

Definition conditional_commit (s : Setup) (w : World) : Outcome World :=
  match attrs w !! value s with
  | None => Raised (getattr_error (value s)) w
  | Some v => if truthy v then do_commit s w else Normal (set_dirty s true w)
  end.

Definition run_callback (s : Setup) (w : World) : Outcome World :=
  match callback s with
  | Some cb => run_body no_super cb w
  | None => Normal w
  end.

Definition checkbox_toggled (s : Setup) (w : World) : Outcome World :=
  match attrs w !! value s with
  | None => Raised (getattr_error (value s)) w
  | Some v =>
      do w' <- (if truthy v
                then let w1 := with_btn (auto_label s) false w in
                     if is_dirty s w1 then do_commit s w1 else Normal w1
                else Normal (with_btn (label s) true w));
      run_callback s w'
  end.

(** [str.title] on ASCII text. *)
Definition is_lower (c : ascii) : bool :=
  (97 <=? nat_of_ascii c)%nat && (nat_of_ascii c <=? 122)%nat.
Definition is_upper (c : ascii) : bool :=
  (65 <=? nat_of_ascii c)%nat && (nat_of_ascii c <=? 90)%nat.
Definition to_upper (c : ascii) : ascii := ascii_of_nat (nat_of_ascii c - 32).
Definition to_lower (c : ascii) : ascii := ascii_of_nat (nat_of_ascii c + 32).

Fixpoint title_from (prev_cased : bool) (s : string) : string :=
  match s with
  | EmptyString => EmptyString
  | String c r =>
      if is_lower c
      then String (if prev_cased then c else to_upper c) (title_from true r)
      else if is_upper c
      then String (if prev_cased then to_lower c else c) (title_from true r)
      else String c (title_from false r)
  end.

Definition title (s : string) : string := title_from false s.

(** A class of the master's MRO: its name and, for the names its own body
    defines, whether the attribute carries a true [decorated] attribute. *)
Inductive ClassAttr := DecoratedAttr | PlainAttr.

Record Class := mkClass {
  cls_name : string;
  cls_dict : gmap string ClassAttr
}.

(** [getattr(supertype, name, None)] where [mro] is the MRO of [supertype]. *)
Fixpoint class_getattr (mro : list Class) (name : string) : option ClassAttr :=
  match mro with
  | [] => None
  | c :: rest =>
      match cls_dict c !! name with
      | Some a => Some a
      | None => class_getattr rest name
      end
  end.

Definition is_decorated_attr (a : option ClassAttr) : bool :=
  match a with Some DecoratedAttr => true | _ => false end.

(** The loop over [type(master).mro()[1:]]: the first supertype through which
    a decorated [name] is inherited. *)
Fixpoint decorated_supertype (supers : list Class) (name : string)
  : option Class :=
  match supers with
  | [] => None
  | c :: rest =>
      if is_decorated_attr (class_getattr (c :: rest) name)
      then Some c
      else decorated_supertype rest name
  end.

Record Params := mkParams {
  p_value : string;
  p_label : string;
  p_auto_label : option string;
  p_checkbox_label : option string;
  p_commit : CommitObj;           (* [commit or getattr(master, 'commit')] *)
  p_callback : option Body;
  p_type_name : string;           (* [type(master).__name__] *)
  p_mro : list Class              (* [type(master).mro()] *)
}.

Definition str_truthy (o : option string) : bool :=
  match o with Some s => negb (String.eqb s EmptyString) | None => false end.

Definition resolve_auto_label (p : Params) : string :=
  match p_auto_label p with
  | Some a =>
      if String.eqb a EmptyString
      then (if str_truthy (p_checkbox_label p) then p_label p
            else title (p_label p) +:+ " Automatically")
      else a
  | None =>
      if str_truthy (p_checkbox_label p) then p_label p
      else title (p_label p) +:+ " Automatically"
  end.

(** [isinstance(commit, LambdaType)] *)
Definition is_function (c : CommitObj) : bool :=
  match c with Function _ _ => true | _ => false end.

(** A function object that a [lambda] expression created: its [__name__]
    is ["<lambda>"]. *)
Definition is_lambda (c : CommitObj) : bool :=
  match c with
  | Function n _ => String.eqb n "<lambda>"
  | _ => false
  end.

Definition dunder_name (c : CommitObj) : string :=
  match c with Decorated n _ | BoundMethod n _ | Function n _ => n end.

(** [next(LAMBDA_NAME)] *)
Definition lambda_name (w : World) : string :=
  "_lambda_" +:+ pretty (S (lambda_counter w)).

Definition resolve_commit_name (p : Params) (w : World) : string * World :=
  if is_function (p_commit p)
  then (lambda_name w, with_lambda_counter (S (lambda_counter w)) w)
  else (dunder_name (p_commit p), w).

Definition setup_of (p : Params) (w : World) : Setup :=
  mkSetup (p_value p) (p_label p) (resolve_auto_label p) (p_commit p)
    (fst (resolve_commit_name p w)) (p_callback p).

Definition override_message (p : Params) (cname : string) (super : Class)
  : string :=
  p_type_name p +:+ "." +:+ cname +:+ " must be"
  +:+ "decorated with gui.deferred because it overrides"
  +:+ "a decorated " +:+ cls_name super +:+ ".".

Definition decorate_warning (p : Params) (cname : string) : string :=
  "decorate " +:+ p_type_name p +:+ "." +:+ cname +:+ " "
  +:+ "with @gui.deferred and then explicitly call "
  +:+ cname +:+ ".now or " +:+ cname +:+ ".deferred.".

(** [setattr(master, name, v)] at the end of [auto_commit].  A decorated
    method is a [DeferrerProperty] of the class, a data descriptor: when the
    attribute that the master's class has under [name] is one, the
    assignment runs its [__set__], which raises; otherwise the value is
    stored on the instance. *)
Definition master_setattr (p : Params) (name : string) (v : Value) (w : World)
  : Outcome World :=
  if is_decorated_attr (class_getattr (p_mro p) name)
  then DeferrerProperty__set__ name v w
  else Normal (with_attrs (insert name v) w).

(** The last part of [auto_commit]: publishing the two entry points. *)
Definition publish (p : Params) (s : Setup) (w : World) : Outcome World :=
  if decorated s
  then Normal (with_data (fun d =>
         mkData (Some (VDoCommit s)) (Some (VConditional s)) (dirty d)
                (commit_depth d)) w)
  else
    do w' <- (if is_function (commit s) then Normal w
              else match decorated_supertype (tail (p_mro p)) (commit_name s) with
                   | Some super =>
                       Raised (RuntimeError
                                 (override_message p (commit_name s) super)) w
                   | None => Normal (log (EWarn (decorate_warning p (commit_name s))) w)
                   end);
    do w'' <- master_setattr p ("unconditional_" +:+ commit_name s)
                (VCommit (commit s)) w';
    master_setattr p (commit_name s) (VConditional s) w''.

(** [auto_commit]; the layout code is left out, the check box and the button
    appear through the handler [checkbox_toggled] and the button's text and
    enabled flag.  No call-back is registered under the two names that
    [publish] assigns, so [OWComponent.__setattr__] has nothing to call
    after the store. *)
Definition auto_commit (p : Params) (w : World) : Outcome World :=
  let s := setup_of p w in
  let w1 := snd (resolve_commit_name p w) in
  let w2 := set_dirty s false w1 in
  let w3 := with_btn (label s) true w2 in
  do w4 <- checkbox_toggled s w3;
  publish p s w4.

(** [master.<name>()] for an attribute that holds a callable. *)
Definition call_attr (n : string) (w : World) : Outcome World :=
  match attrs w !! n with
  | Some (VConditional s) => conditional_commit s w
  | Some (VDoCommit s) => do_commit s w
  | Some (VCommit c) =>
      match c with
      | Decorated n chain => Deferred__call__ n chain w
      | BoundMethod _ chain => run_method chain w
      | Function _ body => run_body no_super body w
      end
  | Some (VUser b) => run_body no_super b w
  | Some (VPrim _) => Raised TypeError w
  | None => Raised (getattr_error n) w
  end.

End Commit.

(** ** gui.py: [Disabler] *)

Module Disable.

(** An element of [widget.disables]: a widget, a tuple [(k, widget)] whose
    first item is an int, or a tuple whose first item is the widget. *)
Inductive Entry :=
| Plain (w : nat)
| TupleInt (k : Z) (w : nat)
| TupleWidget (w : nat).

Definition DISABLER : Z := 1.
Definition HIDER : Z := 2.

Record Disabler := mkDisabler {
  widget : nat;
  valueName : string;
  propagateState : bool;
  type : Z
}.

(** A Qt widget: [isEnabled()], visibility, and the two attributes that
    [checkBox] adds to a check box. *)
Record Widget := mkWidget {
  enabled : bool;
  visible : bool;
  disables : list Entry;
  makeConsistent : option Disabler
}.

(** [master] keeps, for a value name, what [getdeepattr(master, name)]
    returns; [getdeepattr] lives in [orangewidget.utils], outside the two
    modules embedded here. *)
Record World := mkWorld {
  widgets : gmap nat Widget;
  master : gmap string Prim
}.

Definition setDisabled (i : nat) (b : bool) (w : World) : World :=
  mkWorld (alter (fun x => mkWidget (negb b) (visible x) (disables x)
                             (makeConsistent x)) i (widgets w))
          (master w).

(** [hide()] for [false], [show()] for [true]. *)
Definition setVisible (i : nat) (b : bool) (w : World) : World :=
  mkWorld (alter (fun x => mkWidget (enabled x) b (disables x)
                             (makeConsistent x)) i (widgets w))
          (master w).

(** The two branches on [self.type]. *)
Definition apply_type (ty : Z) (i : nat) (disabled : bool) (w : World) : World :=
  if decide (ty = DISABLER) then setDisabled i disabled w
  else if decide (ty = HIDER) then setVisible i (negb disabled) w
  else w.

Section Loop.
(** [recurse d] is the call [w[i].makeConsistent()] of a nested disabler. *)
Variable recurse : Disabler -> World -> option (Outcome World).
Variable ty : Z.

(** The [for w in self.widget.disables] loop; [disabled] is the local
    variable of that name, which the loop body may reassign. *)
Fixpoint loop (entries : list Entry) (disabled : bool) (w : World)
  : option (Outcome World) :=
  match entries with
  | [] => Some (Normal w)
  | Plain i :: rest => loop rest disabled (apply_type ty i disabled w)
  | TupleInt k i :: rest =>
      let disabled := if decide (k = -1) then negb disabled else disabled in
      let w1 := apply_type ty i disabled w in
      match widgets w1 !! i ≫= makeConsistent with
      | Some d =>
          match recurse d w1 with
          | Some (Normal w2) => loop rest disabled w2
          | other => other
          end
      | None => loop rest disabled w1
      end
  | TupleWidget i :: rest =>
      let w1 := apply_type ty i disabled w in
      match widgets w1 !! i ≫= makeConsistent with
      | Some d =>
          match recurse d w1 with
          | Some (Normal w2) => loop rest disabled w2
          | other => other
          end
      | None => loop rest disabled w1
      end
  end.
End Loop.

(** [Disabler.__call__]; [value] is the optional positional argument, and
    the result is [None] when the call depth exceeds [fuel]. *)
Fixpoint Disabler_call (fuel : nat) (d : Disabler) (value : option Prim)
    (w : World) : option (Outcome World) :=
  match fuel with
  | O => None
  | S fuel' =>
      match widgets w !! widget d with
      | None => Some (Raised (AttributeError "widget") w)
      | Some cb =>
          let currState := enabled cb in
          let run disabled :=
            loop (fun d' w' => Disabler_call fuel' d' None w') (type d)
                 (disables cb) disabled w in
          if currState || negb (propagateState d)
          then match value with
               | Some v => run (negb (prim_truthy v))
               | None =>
                   match master w !! valueName d with
                   | Some v => run (negb (prim_truthy v))
                   | None => Some (Raised (AttributeError (valueName d)) w)
                   end
               end
          else run true
      end
  end.

Definition is_enabled (w : World) (i : nat) : option bool :=
  enabled <$> widgets w !! i.

End Disable.

(** ** gui.py: [OWComponent], [connectControl], call-backs and call fronts *)

Module Binding.

(** An attribute value: a plain value or a reference to another object of
    the store (a sub-component such as [obj.graph]). *)
Inductive Value :=
| Val (p : Prim)
| Ref (o : nat).

Definition VNone : Value := Val PNone.

Definition truthy (v : Value) : bool :=
  match v with Val p => prim_truthy p | Ref _ => true end.

Definition is_None (v : Value) : bool :=
  match v with Val PNone => true | _ => false end.

(** The callables that meet in a binding. *)
Inductive Callable :=
| CFront (f : nat)     (* a [ControlledCallFront] *)
| CBack (b : nat)      (* a [ValueCallback] *)
| CFunc (g : nat)      (* a [FunctionCallback] *)
| CUser (u : nat).     (* any other callable *)

(** The conversion function [fvcb] of a value call-back. *)
Inductive Func :=
| F_int
| F_float
| F_other (n : nat).

(** [self.func in (int, float)] *)
Definition is_int_or_float (f : Func) : bool :=
  match f with F_int | F_float => true | F_other _ => false end.

(** What lies outside gui.py: the result of calling a conversion function,
    whether a control emits its signal when its shown value goes from [old]
    to [new] (and with which argument), and whether a user function
    raises. *)
Record Host := mkHost {
  host_call : Func -> Value -> Exn + Value;
  emits : Value -> Value -> option Value;
  user_raises : nat -> option Exn
}.

Record Component := mkComponent {
  attrs : gmap string Value;
  controlled_attributes : option (gmap string (list Callable));
  callbackDeposit : option (list Callable)
}.

(** A master is an [OWComponent] or a [dict]. *)
Inductive Obj :=
| Comp (c : Component)
| DictObj (items : gmap string Value).

Record ControlledCallback := mkCallback {
  cb_widget : nat;
  attribute : string;
  func : option Func;
  cb_disabled : Z;
  cb_opposite : option nat     (* [getattr(self, "opposite", None)] *)
}.

Record FunctionCallback := mkFunctionCallback {
  fc_master : nat;
  fc_func : list nat;           (* one function, or the list of functions *)
  fc_disabled : Z
}.

Inductive FrontKind :=
| KBase         (* ControlledCallFront *)
| KSpin         (* CallFrontSpin, CallFrontDoubleSpin, CallFrontHSlider *)
| KCheckBox     (* CallFrontCheckBox *)
| KButton       (* CallFrontButton *)
| KLineEdit.    (* CallFrontLineEdit *)

Record ControlledCallFront := mkFront {
  control : nat;
  cf_disabled : Z;
  cf_opposite : option (list Callable);
  kind : FrontKind
}.

(** A control: the value it shows and the slots connected to its signal, in
    connection order. *)
Record Control := mkControl {
  shown : Value;
  slots : list Callable
}.

(** The trace records which parts of a binding ran: a call front's action,
    a call-back's assignment, a user function. *)
Inductive Event :=
| EAction (f : nat) (v : Value)
| ESet (b : nat) (v : Value)
| EUser (u : nat) (arg : option Value).

Record World := mkWorld {
  objs : gmap nat Obj;
  cbacks : gmap nat ControlledCallback;
  funcs : gmap nat FunctionCallback;
  fronts : gmap nat ControlledCallFront;
  controls : gmap nat Control;
  next_id : nat;
  trace : list Event
}.

Definition with_objs (f : gmap nat Obj -> gmap nat Obj) (w : World) :=
  mkWorld (f (objs w)) (cbacks w) (funcs w) (fronts w) (controls w)
    (next_id w) (trace w).
Definition with_cbacks
    (f : gmap nat ControlledCallback -> gmap nat ControlledCallback)
    (w : World) :=
  mkWorld (objs w) (f (cbacks w)) (funcs w) (fronts w) (controls w)
    (next_id w) (trace w).
Definition with_funcs
    (f : gmap nat FunctionCallback -> gmap nat FunctionCallback) (w : World) :=
  mkWorld (objs w) (cbacks w) (f (funcs w)) (fronts w) (controls w)
    (next_id w) (trace w).
Definition with_fronts
    (f : gmap nat ControlledCallFront -> gmap nat ControlledCallFront)
    (w : World) :=
  mkWorld (objs w) (cbacks w) (funcs w) (f (fronts w)) (controls w)
    (next_id w) (trace w).
Definition with_controls (f : gmap nat Control -> gmap nat Control)
    (w : World) :=
  mkWorld (objs w) (cbacks w) (funcs w) (fronts w) (f (controls w))
    (next_id w) (trace w).
Definition log (e : Event) (w : World) :=
  mkWorld (objs w) (cbacks w) (funcs w) (fronts w) (controls w)
    (next_id w) (trace w ++ [e]).
Definition alloc (w : World) : nat * World :=
  (next_id w,
   mkWorld (objs w) (cbacks w) (funcs w) (fronts w) (controls w)
     (S (next_id w)) (trace w)).

(** [op.disabled += k] *)
Definition add_disabled (k : Z) (c : Callable) (w : World) : World :=
  match c with
  | CBack b =>
      with_cbacks (alter (fun x => mkCallback (cb_widget x) (attribute x)
                                     (func x) (cb_disabled x + k)
                                     (cb_opposite x)) b) w
  | CFunc g =>
      with_funcs (alter (fun x => mkFunctionCallback (fc_master x) (fc_func x)
                                    (fc_disabled x + k)) g) w
  | CFront f =>
      with_fronts (alter (fun x => mkFront (control x) (cf_disabled x + k)
                                     (cf_opposite x) (kind x)) f) w
  | CUser _ => w
  end.

(** [for op in opposite: op.disabled += k] *)
Definition add_disabled_all (k : Z) (ops : list Callable) (w : World) : World :=
  foldl (fun w op => add_disabled k op w) w ops.

(** *** What a call front's [action] asks of its control *)

Inductive ActionResult :=
| ASkip
| ARaise (e : Exn)
| ASet (x : Value).

(** [Qt.Unchecked], [Qt.PartiallyChecked], [Qt.Checked] *)
Definition Unchecked : Z := 0.
Definition PartiallyChecked : Z := 1.
Definition Checked : Z := 2.

(** [[Qt.Unchecked, Qt.Checked, Qt.PartiallyChecked][i]] *)
Definition check_state (i : Z) : option Z :=
  let j := if i <? 0 then i + 3 else i in
  if j =? 0 then Some Unchecked
  else if j =? 1 then Some Checked
  else if j =? 2 then Some PartiallyChecked
  else None.

(** [str(value)] *)
Definition py_str (v : Value) : string :=
  match v with
  | Val PNone => "None"
  | Val (PBool true) => "True"
  | Val (PBool false) => "False"
  | Val (PInt z) => pretty z
  | Val (PStr s) => s
  | Ref o => "<object " +:+ pretty o +:+ ">"
  end.

Definition action_of (k : FrontKind) (v : Value) : ActionResult :=
  match k with
  | KBase => ASkip
  | KSpin => if is_None v then ASkip else ASet v
  | KCheckBox =>
      match v with
      | Val PNone => ASkip
      | Val (PBool b) =>
          ASet (Val (PInt (if b then Checked else Unchecked)))
      | Val (PInt i) =>
          match check_state i with
          | Some st => ASet (Val (PInt st))
          | None => ARaise IndexError
          end
      | _ => ARaise TypeError
      end
  | KButton => if is_None v then ASkip else ASet (Val (PBool (truthy v)))
  | KLineEdit => ASet (Val (PStr (py_str v)))
  end.

(** [name.split(".", 1)] when ["." in name]. *)
Fixpoint split_dot (name : string) : option (string * string) :=
  match name with
  | EmptyString => None
  | String c rest =>
      if Ascii.eqb c "."%char then Some (EmptyString, rest)
      else match split_dot rest with
           | Some (head, tail) => Some (String c head, tail)
           | None => None
           end
  end.

(** [isinstance(value, str) and value in "+-"] *)
Definition in_plus_minus (v : Value) : bool :=
  match v with
  | Val (PStr s) =>
      match String.index 0 s "+-" with Some _ => true | None => false end
  | _ => false
  end.

Definition no_attribute (n : string) : Exn :=
  AttributeError ("object has no attribute '" +:+ n +:+ "'").

(** *** The interpreter

    Call fronts, call-backs, the control's signal and the component's
    [__setattr__] call one another.  [call fuel] bounds the depth of that
    chain and answers [None] when the bound is hit; the functions before it
    take the calls of the next depth as the parameter [callf]. *)

Definition Run := option (Outcome World).

Definition try_finally_run (body : Run) (fin : World -> World) : Run :=
  (fun o => try_finally o fin) <$> body.

Section Interp.
Variable h : Host.
Variable callf : Callable -> Value -> World -> Run.

(** [for c in cs: c(v)] *)
Fixpoint call_all (cs : list Callable) (v : Value) (w : World) : Run :=
  match cs with
  | [] => Some (Normal w)
  | c :: rest =>
      match callf c v w with
      | Some (Normal w') => call_all rest v w'
      | other => other
      end
  end.

Definition user_call (u : nat) (arg : option Value) (w : World)
  : Outcome World :=
  let w' := log (EUser u arg) w in
  match user_raises h u with
  | Some e => Raised e w'
  | None => Normal w'
  end.

(** [for func in self.func: func(...)], the functions being called with
    keyword arguments only *)
Fixpoint call_users (us : list nat) (w : World) : Outcome World :=
  match us with
  | [] => Normal w
  | u :: rest => do w' <- user_call u None w; call_users rest w'
  end.

(** The setter of the control ([setValue], [setCheckState], [setChecked],
    [setText]) followed by the signal it may emit; the slots run in
    connection order, and an exception of a slot is taken to reach the
    caller of the setter. *)
Definition control_set (c : nat) (x : Value) (w : World) : Run :=
  match controls w !! c with
  | None => Some (Raised (no_attribute "control") w)
  | Some ctl =>
      let w1 := with_controls (insert c (mkControl x (slots ctl))) w in
      match emits h (shown ctl) x with
      | Some arg => call_all (slots ctl) arg w1
      | None => Some (Normal w1)
      end
  end.

Definition run_action (f : nat) (fr : ControlledCallFront) (v : Value)
    (w : World) : Run :=
  let w1 := log (EAction f v) w in
  match action_of (kind fr) v with
  | ASkip => Some (Normal w1)
  | ARaise e => Some (Raised e w1)
  | ASet x => control_set (control fr) x w1
  end.

(** [ControlledCallFront.__call__] *)
Definition ControlledCallFront__call__ (f : nat) (v : Value) (w : World)
  : Run :=
  match fronts w !! f with
  | None => Some (Raised (no_attribute "__call__") w)
  | Some fr =>
      if decide (cf_disabled fr = 0)
      then match cf_opposite fr with
           | Some (op :: ops) =>
               try_finally_run
                 (run_action f fr v (add_disabled_all 1 (op :: ops) w))
                 (add_disabled_all (-1) (op :: ops))
           | _ => run_action f fr v w
           end
      else Some (Normal w)
  end.

(** [super().__setattr__(name, value)] on the component [c] stored at
    [o]. *)
Definition store_attr (o : nat) (c : Component) (name : string) (v : Value)
    (w : World) : World :=
  with_objs (insert o (Comp (mkComponent (<[name := v]> (attrs c))
                               (controlled_attributes c) (callbackDeposit c))))
    w.

(** [OWComponent.__setattr__]; [n] bounds the number of dots still to be
    followed and is never exhausted when it starts at the length of the
    name. *)
Fixpoint OWComponent__setattr__from (n : nat) (o : nat) (name : string)
    (v : Value) (w : World) : Run :=
  match objs w !! o with
  | Some (Comp c) =>
      match split_dot name with
      | Some (head, rest) =>
          match attrs c !! head with
          | Some (Ref sub) =>
              match n with
              | O => Some (Raised RecursionError w)
              | S n' => OWComponent__setattr__from n' sub rest v w
              end
          | _ => Some (Raised (no_attribute head) w)
          end
      | None =>
          let w1 := store_attr o c name v w in
          match controlled_attributes c with
          | Some reg => call_all (default [] (reg !! name)) v w1
          | None => Some (Normal w1)
          end
      end
  | _ => Some (Raised (no_attribute name) w)
  end.

Definition OWComponent__setattr__ (o : nat) (name : string) (v : Value)
    (w : World) : Run :=
  OWComponent__setattr__from (String.length name) o name v w.

(** The conversion at the head of [acyclic_setattr]. *)
Definition convert (fn : option Func) (v : Value) : Exn + Value :=
  match fn with
  | Some fn =>
      if is_int_or_float fn && (negb (truthy v) || in_plus_minus v)
      then host_call h fn (Val (PInt 0))
      else host_call h fn v
  | None => inr v
  end.

(** [ControlledCallback.acyclic_setattr], with [disable_opposite] written
    out: the generator yields only under [if opposite], so without an
    opposite the [with] statement raises before the assignment. *)
Definition acyclic_setattr (b : nat) (v : Value) (w : World) : Run :=
  match cbacks w !! b with
  | None => Some (Raised (no_attribute "acyclic_setattr") w)
  | Some cb =>
      if decide (cb_disabled cb = 0)
      then match convert (func cb) v with
           | inl e => Some (Raised e w)
           | inr v' =>
               match cb_opposite cb with
               | None =>
                   Some (Raised (RuntimeError "generator didn't yield") w)
               | Some f =>
                   let w1 := log (ESet b v') (add_disabled 1 (CFront f) w) in
                   try_finally_run
                     (match objs w1 !! cb_widget cb with
                      | Some (DictObj items) =>
                          Some (Normal
                            (with_objs (insert (cb_widget cb)
                               (DictObj (<[attribute cb := v']> items))) w1))
                      | _ => OWComponent__setattr__ (cb_widget cb)
                               (attribute cb) v' w1
                      end)
                     (add_disabled (-1) (CFront f))
               end
           end
      else Some (Normal w)
  end.

(** [ValueCallback.__call__] *)
Definition ValueCallback__call__ (b : nat) (v : Value) (w : World) : Run :=
  if is_None v then Some (Normal w) else acyclic_setattr b v w.

(** [FunctionCallback.__call__] *)
Definition FunctionCallback__call__ (g : nat) (w : World) : Run :=
  match funcs w !! g with
  | None => Some (Raised (no_attribute "__call__") w)
  | Some fc =>
      if decide (fc_disabled fc = 0)
      then Some (call_users (fc_func fc) w)
      else Some (Normal w)
  end.

Definition call_step (c : Callable) (v : Value) (w : World) : Run :=
  match c with
  | CFront f => ControlledCallFront__call__ f v w
  | CBack b => ValueCallback__call__ b v w
  | CFunc g => FunctionCallback__call__ g w
  | CUser u => Some (user_call u (Some v) w)
  end.
End Interp.

Fixpoint call (h : Host) (fuel : nat) (c : Callable) (v : Value) (w : World)
  : Run :=
  match fuel with
  | O => None
  | S n => call_step h (call h n) c v w
  end.

(** [setattr(obj, name, v)] from outside the binding, e.g. by the widget's
    own code. *)
Definition setattr (h : Host) (fuel : nat) (o : nat) (name : string)
    (v : Value) (w : World) : Run :=
  OWComponent__setattr__ (call h fuel) o name v w.

(** The user operates the control: it shows [x] and emits its signal with
    the argument [arg]. *)
Definition user_edit (h : Host) (fuel : nat) (c : nat) (x arg : Value)
    (w : World) : Run :=
  match controls w !! c with
  | None => Some (Raised (no_attribute "control") w)
  | Some ctl =>
      call_all (call h fuel) (slots ctl) arg
        (with_controls (insert c (mkControl x (slots ctl))) w)
  end.

(** *** Constructors and [connectControl] *)

Definition set_deposit (d : list Callable) (c : Component) : Component :=
  mkComponent (attrs c) (controlled_attributes c) (Some d).

(** [ControlledCallback.__init__]; returns the new call-back.  The
    assignment [widget.callbackDeposit = []] meets no registered
    call-back. *)
Definition ControlledCallback__init__ (widget : nat) (attribute : string)
    (f : option Func) (w : World) : nat * World :=
  let '(b, w1) := alloc w in
  let w2 := with_cbacks (insert b (mkCallback widget attribute f 0 None)) w1 in
  match objs w2 !! widget with
  | Some (Comp c) =>
      (b, with_objs (insert widget
            (Comp (set_deposit (default [] (callbackDeposit c) ++ [CBack b]) c)))
            w2)
  | _ => (b, w2)
  end.

(** [FunctionCallback.__init__]; returns the new call-back. *)
Definition FunctionCallback__init__ (master : nat) (f : list nat) (w : World)
  : nat * World :=
  let '(g, w1) := alloc w in
  let w2 := with_funcs (insert g (mkFunctionCallback master f 0)) w1 in
  match objs w2 !! master with
  | Some (Comp c) =>
      match callbackDeposit c with
      | Some d =>
          (g, with_objs (insert master (Comp (set_deposit (d ++ [CFunc g]) c)))
                w2)
      | None => (g, w2)
      end
  | _ => (g, w2)
  end.

(** [OWComponent.connect_control]; [n] as in [OWComponent__setattr__from]. *)
Fixpoint connect_control_from (n : nat) (o : nat) (name : string)
    (fn : Callable) (w : World) : Outcome World :=
  match objs w !! o with
  | Some (Comp c) =>
      match split_dot name with
      | Some (head, rest) =>
          match attrs c !! head with
          | Some (Ref sub) =>
              match n with
              | O => Raised RecursionError w
              | S n' => connect_control_from n' sub rest fn w
              end
          | _ => Raised (no_attribute head) w
          end
      | None =>
          match controlled_attributes c with
          | Some reg =>
              Normal (with_objs (insert o
                (Comp (mkComponent (attrs c)
                         (Some (<[name := default [] (reg !! name) ++ [fn]]> reg))
                         (callbackDeposit c)))) w)
          | None => Raised (no_attribute "controlled_attributes") w
          end
      end
  | _ => Raised (no_attribute "connect_control") w
  end.

Definition connect_control (o : nat) (name : string) (fn : Callable)
    (w : World) : Outcome World :=
  connect_control_from (String.length name) o name fn w.

(** [signal.connect(slot)] *)
Definition signal_connect (signal : option nat) (slot : Callable) (w : World)
  : World :=
  match signal with
  | Some c =>
      with_controls (alter (fun x => mkControl (shown x) (slots x ++ [slot])) c) w
  | None => w
  end.

Definition set_cb_opposite (b : nat) (f : option nat) (w : World) : World :=
  with_cbacks (alter (fun x => mkCallback (cb_widget x) (attribute x) (func x)
                                 (cb_disabled x) f) b) w.

Definition set_cf_opposite (f : nat) (ops : list Callable) (w : World) : World :=
  with_fronts (alter (fun x => mkFront (control x) (cf_disabled x) (Some ops)
                                 (kind x)) f) w.

Definition nonempty (s : string) : bool := negb (String.eqb s EmptyString).

(** What [connectControl] returns: [(cfront, cback, cfunc)]. *)
Definition Triple : Type := option nat * option nat * option nat.

(** [connectControl(master, value, f, signal, cfront, cback, cfunc, fvcb)].
    [f] is the list of call-back functions, empty for [None]; an explicit
    [cback] is a call-back of the [ControlledCallback] family. *)
Definition connectControl (master : nat) (value : string) (f : list nat)
    (signal : option nat) (cfront : option nat) (cback : option nat)
    (cfunc : option nat) (fvcb : option Func) (w : World)
  : Exn * World + Triple * World :=
  let '(cback, w) :=
    match cback with
    | Some b => (Some b, w)
    | None =>
        if nonempty value
        then let '(b, w') := ControlledCallback__init__ master value fvcb w in
             (Some b, w')
        else (None, w)
    end in
  let registered :=
    match cback with
    | Some b =>
        let w := set_cb_opposite b cfront (signal_connect signal (CBack b) w) in
        match cfront with
        | Some fr =>
            if nonempty value then connect_control master value (CFront fr) w
            else Normal w
        | None => Normal w
        end
    | None => Normal w
    end in
  match registered with
  | Raised e w => inl (e, w)
  | Normal w =>
      let '(cfunc, w) :=
        match cfunc with
        | Some g => (Some g, w)
        | None =>
            match f with
            | [] => (None, w)
            | _ => let '(g, w') := FunctionCallback__init__ master f w in
                   (Some g, w')
            end
        end in
      match cfunc with
      | Some g =>
          let w := signal_connect signal (CFunc g) w in
          match cfront with
          | Some fr =>
              inr ((cfront, cback, cfunc),
                   set_cf_opposite fr
                     (match cback with Some b => [CBack b] | None => [] end
                      ++ [CFunc g]) w)
          | None => inl (no_attribute "opposite", w)
          end
      | None => inr ((cfront, cback, cfunc), w)
      end
  end.

(** A new control showing [initial] and a call front of kind [k] for it. *)
Definition new_control (k : FrontKind) (initial : Value) (w : World)
  : nat * nat * World :=
  let '(c, w) := alloc w in
  let w := with_controls (insert c (mkControl initial [])) w in
  let '(fr, w) := alloc w in
  (c, fr, with_fronts (insert fr (mkFront c 0 None k)) w).

(** [checkBox]: the [FunctionCallback] is built for the argument [cfunc],
    before [connectControl] runs.  [initial] is what
    [getdeepattr(master, value)] returned; the [Disabler] that [checkBox]
    connects afterwards is the subject of [Disable]. *)
Definition checkBox (master : nat) (value : string) (callback : list nat)
    (initial : Value) (w : World) : Exn * World + Triple * World :=
  let '(c, fr, w) := new_control KCheckBox initial w in
  let '(cfunc, w) :=
    match callback with
    | [] => (None, w)
    | _ => let '(g, w') := FunctionCallback__init__ master callback w in
           (Some g, w')
    end in
  connectControl master value [] (Some c) (Some fr) None cfunc None w.

Definition deposit_of (w : World) (o : nat) : option (list Callable) :=
  match objs w !! o with
  | Some (Comp c) => callbackDeposit c
  | _ => None
  end.

Definition getattr (w : World) (o : nat) (name : string) : option Value :=
  match objs w !! o with
  | Some (Comp c) => attrs c !! name
  | Some (DictObj items) => items !! name
  | None => None
  end.

Definition registered (w : World) (o : nat) (name : string) : list Callable :=
  match objs w !! o with
  | Some (Comp c) =>
      match controlled_attributes c with
      | Some reg => default [] (reg !! name)
      | None => []
      end
  | _ => []
  end.

(** [c.disabled], for the three kinds of object that carry the counter. *)
Definition disabled_of (w : World) (c : Callable) : option Z :=
  match c with
  | CFront f => cf_disabled <$> fronts w !! f
  | CBack b => cb_disabled <$> cbacks w !! b
  | CFunc g => fc_disabled <$> funcs w !! g
  | CUser _ => None
  end.

Definition shown_of (w : World) (c : nat) : option Value :=
  shown <$> controls w !! c.

(** *** A host for examples: [int] on the values modelled here, a control
    that emits its new value whenever the shown value changes, and user
    functions that return. *)

Definition is_digit (c : ascii) : bool :=
  (48 <=? nat_of_ascii c)%nat && (nat_of_ascii c <=? 57)%nat.

Fixpoint digits_value (acc : Z) (s : string) : option Z :=
  match s with
  | EmptyString => Some acc
  | String c rest =>
      if is_digit c
      then digits_value (10 * acc + Z.of_nat (nat_of_ascii c - 48)) rest
      else None
  end.

(** [int(s)] for an optional sign followed by decimal digits. *)
Definition parse_int (s : string) : option Z :=
  match s with
  | EmptyString => None
  | String c rest =>
      if Ascii.eqb c "+"%char
      then (if String.eqb rest EmptyString then None else digits_value 0 rest)
      else if Ascii.eqb c "-"%char
      then (if String.eqb rest EmptyString then None
            else Z.opp <$> digits_value 0 rest)
      else digits_value 0 s
  end.

Definition py_int (v : Value) : Exn + Value :=
  match v with
  | Val (PInt z) => inr (Val (PInt z))
  | Val (PBool b) => inr (Val (PInt (if b then 1 else 0)))
  | Val (PStr s) =>
      match parse_int s with
      | Some z => inr (Val (PInt z))
      | None => inl (ValueError ("invalid literal for int(): " +:+ s))
      end
  | _ => inl TypeError
  end.

Definition value_eqb (a b : Value) : bool :=
  match a, b with
  | Val PNone, Val PNone => true
  | Val (PBool x), Val (PBool y) => Bool.eqb x y
  | Val (PInt x), Val (PInt y) => x =? y
  | Val (PStr x), Val (PStr y) => String.eqb x y
  | Ref x, Ref y => Nat.eqb x y
  | _, _ => false
  end.

Definition sample_host : Host :=
  mkHost (fun fn v => match fn with F_int => py_int v | _ => inl TypeError end)
         (fun old new => if value_eqb old new then None else Some new)
         (fun _ => None).

End Binding.

(** ** Python's [==] and [list.index] on plain values *)

Module Py.

(** [a == b]; [True == 1] and [False == 0] hold. *)
Definition prim_eq (a b : Prim) : bool :=
  match a, b with
  | PNone, PNone => true
  | PBool x, PBool y => Bool.eqb x y
  | PInt x, PInt y => x =? y
  | PBool x, PInt y | PInt y, PBool x => (if x then 1 else 0) =? y
  | PStr x, PStr y => String.eqb x y
  | _, _ => false
  end.

(** The exceptions of the helpers below, by class; the messages are left
    out. *)
Inductive Err :=
| ValueErr
| IndexErr
| KeyErr (key : string).

(** [items.index(x)], with [eqb item x] for [item == x]; [None] stands for
    the [ValueError]. *)
Fixpoint index {A} (eqb : A -> A -> bool) (x : A) (items : list A)
  : option nat :=
  match items with
  | [] => None
  | item :: rest =>
      if eqb item x then Some 0%nat else S <$> index eqb x rest
  end.

End Py.

(** ** report.py: the text helpers *)

Module Text.

(** *** The [str] operations that the helpers use *)

(** [s[:k]] for a bound [k] that is not negative. *)
Fixpoint take_str (k : nat) (s : string) : string :=
  match k, s with
  | S k', String c r => String c (take_str k' r)
  | _, _ => EmptyString
  end.

(** [s[:k]]; a negative bound counts from the end of [s]. *)
Definition slice_to (s : string) (k : Z) : string :=
  if k <? 0 then take_str (Z.to_nat (Z.of_nat (String.length s) + k)) s
  else take_str (Z.to_nat k) s.

(** The offset of the last occurrence of [sep] in [s]. *)
Fixpoint rfind_last (s sep : string) : option nat :=
  match s with
  | EmptyString => if String.prefix sep EmptyString then Some 0%nat else None
  | String c r =>
      match rfind_last r sep with
      | Some i => Some (S i)
      | None => if String.prefix sep (String c r) then Some 0%nat else None
      end
  end.

(** [s.rfind(sep)] *)
Definition rfind (s sep : string) : Z :=
  match rfind_last s sep with Some i => Z.of_nat i | None => -1 end.

(** [sep.join(items)] *)
Fixpoint join (sep : string) (items : list string) : string :=
  match items with
  | [] => EmptyString
  | x :: rest =>
      match rest with
      | [] => x
      | _ => x +:+ sep +:+ join sep rest
      end
  end.

(** [str.lower] and [str.capitalize] on ASCII text. *)
Fixpoint lower (s : string) : string :=
  match s with
  | EmptyString => EmptyString
  | String c r =>
      String (if Commit.is_upper c then Commit.to_lower c else c) (lower r)
  end.

Definition capitalize (s : string) : string :=
  match s with
  | EmptyString => EmptyString
  | String c r =>
      String (if Commit.is_lower c then Commit.to_upper c else c) (lower r)
  end.

(** *** [str.format]

    The result of a call: a string, an exception, or [Unsupported] for a format string with a replacement field
    that has a conversion, a format specification, an attribute or an index
    ([{x!r}], [{x:5}], [{x.y}], [{x[0]}]), which this development does not
    interpret. *)
Inductive Result :=
| Ok (s : string)
| Raise (e : Py.Err)
| Unsupported.

Definition prepend (p : string) (r : Result) : Result :=
  match r with
  | Ok s => Ok (p +:+ s)
  | other => other
  end.

(** How the fields seen so far were numbered: not at all, automatically
    ([{}]) up to [next], or by hand ([{0}]). *)
Inductive Numbering :=
| Unnumbered
| Automatic (next : nat)
| Manual.

(** The characters that start a part of a replacement field which is not
    interpreted here, or nest a field. *)
Definition is_special (c : ascii) : bool :=
  existsb (Ascii.eqb c) ["{"%char; "!"%char; ":"%char; "."%char; "["%char; "]"%char].

(** The value of the field named [name]; the arguments are taken as
    already converted by [str]. *)
Definition lookup_field (args : list string) (kwargs : list (string * string))
    (num : Numbering) (name : string) : Py.Err + string * Numbering :=
  let positional (i : nat) (num' : Numbering) :=
    match args !! i with
    | Some text => inr (text, num')
    | None => inl Py.IndexErr
    end in
  if String.eqb name EmptyString
  then match num with
       | Manual => inl Py.ValueErr
       | Unnumbered => positional 0%nat (Automatic 1)
       | Automatic i => positional i (Automatic (S i))
       end
  else match Binding.digits_value 0 name with
       | Some i =>
           match num with
           | Automatic _ => inl Py.ValueErr
           | _ => positional (Z.to_nat i) Manual
           end
       | None =>
           match list_find (fun kv => String.eqb (fst kv) name) kwargs with
           | Some (_, (_, text)) => inr (text, num)
           | None => inl (Py.KeyErr name)
           end
       end.

(** [str.format] with the positional arguments [args] and the keyword
    arguments [kwargs], read from left to right; [field] holds the
    name read so far while inside a replacement field. *)
Fixpoint format_go (args : list string) (kwargs : list (string * string))
    (num : Numbering) (field : option string) (s : string) : Result :=
  match s with
  | EmptyString =>
      match field with
      | None => Ok EmptyString
      | Some _ => Raise Py.ValueErr
      end
  | String c r =>
      match field with
      | Some name =>
          if Ascii.eqb c "}"%char
          then match lookup_field args kwargs num name with
               | inl e => Raise e
               | inr (text, num') =>
                   prepend text (format_go args kwargs num' None r)
               end
          else if is_special c then Unsupported
          else format_go args kwargs num (Some (name +:+ String c EmptyString)) r
      | None =>
          if Ascii.eqb c "{"%char
          then match r with
               | String c' r' =>
                   if Ascii.eqb c' "{"%char
                   then prepend "{" (format_go args kwargs num None r')
                   else format_go args kwargs num (Some EmptyString) r
               | EmptyString => Raise Py.ValueErr
               end
          else if Ascii.eqb c "}"%char
          then match r with
               | String c' r' =>
                   if Ascii.eqb c' "}"%char
                   then prepend "}" (format_go args kwargs num None r')
                   else Raise Py.ValueErr
               | EmptyString => Raise Py.ValueErr
               end
          else prepend (String c EmptyString) (format_go args kwargs num None r)
      end
  end.

Definition format (s : string) (args : list string)
    (kwargs : list (string * string)) : Result :=
  format_go args kwargs Unnumbered None s.

(** *** [plural] and [plural_w]

    [plural] hands the number to [str.format] as an [int]; it enters here
    as [str(number)], which is what a replacement field without conversion
    or format specification writes for it. *)

Definition plural (s : string) (number : Z) (suffix : string) : Result :=
  format s [] [("number", pretty number);
               ("s", if negb (number mod 100 =? 1) then suffix else EmptyString)].

Definition numbers : list string :=
  ["zero"; "one"; "two"; "three"; "four"; "five"; "six"; "seven";
   "nine"; "ten"].

(** [t[i]] on a tuple. *)
Definition tuple_item (t : list string) (i : Z) : option string :=
  let j := if i <? 0 then i + Z.of_nat (List.length t) else i in
  if j <? 0 then None else t !! Z.to_nat j.

(** The local [number_str] of [plural_w], before capitalization. *)
Definition number_str (number : Z) : Py.Err + string :=
  if number <? Z.of_nat (List.length numbers)
  then match tuple_item numbers number with
       | Some word => inr word
       | None => inl Py.IndexErr
       end
  else inr (pretty number).

Definition plural_w (s : string) (number : Z) (suffix : string)
    (capitalize_ : bool) : Result :=
  match number_str number with
  | inl e => Raise e
  | inr word =>
      let word := if capitalize_ then capitalize word else word in
      format s [] [("number", word);
                   ("s", if negb (number mod 100 =? 1) then suffix
                         else EmptyString)]
  end.

(** [bool_str]; [v] is any value. *)
Definition bool_str (v : Prim) : string :=
  if prim_truthy v then "Yes" else "No".

(** *** [clip_string] and [clipped_list] *)

Definition clip_string (s : string) (limit : Z) (sep : option string)
  : string :=
  if Z.of_nat (String.length s) <? limit then s
  else
    let s := slice_to s (limit - 3) in
    match sep with
    | None => s
    | Some sep =>
        let sep_pos := rfind s sep in
        if sep_pos =? -1 then s
        else slice_to s (sep_pos + Z.of_nat (String.length sep)) +:+ "..."
    end.

(** [clipped_list] for a list of strings; [itertools.islice] refuses a
    negative stop. *)
Definition clipped_list (items : list string) (limit : Z)
    (less_lookups : bool) (total_min : Z) (total : string) : Result :=
  let joined :=
    if less_lookups
    then (if (limit + 2) / 3 <? 0 then None
          else Some (join ", " (take (Z.to_nat ((limit + 2) / 3)) items)))
    else Some (join ", " items) in
  match joined with
  | None => Raise Py.ValueErr
  | Some s =>
      let s := clip_string s limit (Some ", ") in
      if negb (String.eqb total EmptyString)
         && (total_min <=? Z.of_nat (List.length items))
      then prepend (s +:+ " ")
             (format total [pretty (Z.of_nat (List.length items))] [])
      else Ok s
  end.

(** *** [render_items] and [render_items_vert]

    [items] is the sequence of pairs, or the [items()] of the dictionary. *)

Definition str (p : Prim) : string := Binding.py_str (Binding.Val p).

(** [value is not None and value is not False] *)
Definition reported (kv : Prim * Prim) : bool :=
  match snd kv with
  | PNone | PBool false => false
  | _ => true
  end.

Definition item_line (kv : Prim * Prim) : string :=
  "<b>" +:+ str (fst kv) +:+ ":</b> " +:+ str (snd kv) +:+ "</br>".

Definition render_items (items : list (Prim * Prim)) : string :=
  "<ul>" +:+ join EmptyString (item_line <$> filter (fun kv => reported kv = true) items)
  +:+ "</ul>".

Definition item_vert (kv : Prim * Prim) : string :=
  "<b>" +:+ str (fst kv) +:+ "</b>: " +:+ str (snd kv).

Definition render_items_vert (items : list (Prim * Prim)) : string :=
  join ", " (item_vert <$> filter (fun kv => reported kv = true) items).

Definition colored_square (r g b : Z) : string :=
  "<span class=" +:+ dq +:+ "legend-square" +:+ dq +:+ " "
  +:+ "style=" +:+ dq +:+ "background-color: rgb(" +:+ pretty r +:+ ", "
  +:+ pretty g +:+ ", " +:+ pretty b +:+ ")" +:+ dq +:+ "></span>".

(** *** The report methods built on them *)

(** [Report.report_items(name, items)]; [n = None] is the call with the
    items alone, for which [_fix_args] supplies the empty name. *)
Definition report_items (n : option string) (items : list (Prim * Prim))
    (r : Report.Report) : Report.Report :=
  Report.iadd_html (render_items items)
    (Report.report_name (default EmptyString n) r).

(** A call of one of the report methods, as a [send_report] makes them. *)
Inductive Call :=
| CallName (name : string)
| CallItems (name : option string) (items : list (Prim * Prim))
| CallParagraph (name : string) (text : option string)
| CallCaption (text : string)
| CallRaw (name : string) (html : option string).

Definition run_call (c : Call) (r : Report.Report) : Report.Report :=
  match c with
  | CallName n => Report.report_name n r
  | CallItems n items => report_items n items r
  | CallParagraph n text => Report.report_paragraph n text r
  | CallCaption text => Report.report_caption text r
  | CallRaw n html => Report.report_raw n html r
  end.

(** A [send_report] that makes the calls [calls] in turn. *)
Definition send_report_of (calls : list Call) (r : Report.Report)
  : Report.Report :=
  foldl (fun r c => run_call c r) r calls.

End Text.

(** ** gui.py: [CheckBoxWithDisabledState]

    The Qt side of the box is its enabled flag, the check state that
    [QCheckBox] holds and shows, and whether the box is tri-state. *)
Module CheckBoxWithDisabledState.

Record CheckBox := mkCheckBox {
  isEnabled : bool;
  checkState : Z;
  tristate : bool;
  disabledState : Z;
  trueState : Z
}.

(** [__init__]: a new [QCheckBox] is unchecked and two-state. *)
Definition __init__ (enabled : bool) (disabledState : Z) : CheckBox :=
  mkCheckBox enabled Binding.Unchecked false disabledState Binding.Unchecked.

(** [QCheckBox.setCheckState], which the class reaches as
    [super().setCheckState(state)]: Qt shows the state, and a box that is
    given [Qt.PartiallyChecked] becomes tri-state. *)
Definition QCheckBox_setCheckState (state : Z) (c : CheckBox) : CheckBox :=
  mkCheckBox (isEnabled c) state
    (tristate c || (state =? Binding.PartiallyChecked))
    (disabledState c) (trueState c).

Definition _updateChecked (c : CheckBox) : CheckBox :=
  QCheckBox_setCheckState
    (if isEnabled c then trueState c else disabledState c) c.

Definition setCheckState (state : Z) (c : CheckBox) : CheckBox :=
  _updateChecked
    (mkCheckBox (isEnabled c) (checkState c) (tristate c) (disabledState c)
       state).

Definition _storeTrueState (state : Prim) (c : CheckBox) : CheckBox :=
  mkCheckBox (isEnabled c) (checkState c) (tristate c) (disabledState c)
    (if prim_truthy state then Binding.Checked else Binding.Unchecked).

Definition setChecked (state : Prim) (c : CheckBox) : CheckBox :=
  _updateChecked (_storeTrueState state c).

(** [setEnabled(b)]: Qt delivers [EnabledChange] to [changeEvent] when the
    flag changes. *)
Definition setEnabled (b : bool) (c : CheckBox) : CheckBox :=
  if Bool.eqb b (isEnabled c) then c
  else _updateChecked
         (mkCheckBox b (checkState c) (tristate c) (disabledState c)
            (trueState c)).

(** [QCheckBox.nextCheckState]: a two-state box goes to the other of
    [Unchecked] and [Checked], a tri-state box to the next of [Unchecked],
    [PartiallyChecked], [Checked]. *)
Definition nextCheckState (c : CheckBox) : Z :=
  if tristate c then (checkState c + 1) mod 3
  else if checkState c =? Binding.Unchecked then Binding.Checked
       else Binding.Unchecked.

(** The user clicks an enabled box: Qt shows the next check state and emits
    [clicked(checked)], where [checked] tells whether the new state is
    other than [Unchecked]; [checkBox] connects the signal to
    [_storeTrueState]. *)
Definition click (c : CheckBox) : CheckBox :=
  if isEnabled c
  then let state := nextCheckState c in
       _storeTrueState (PBool (negb (state =? Binding.Unchecked)))
         (QCheckBox_setCheckState state c)
  else c.

Inductive Op :=
| SetCheckState (state : Z)
| SetChecked (state : Prim)
| SetEnabled (b : bool)
| Click.

Definition step (c : CheckBox) (op : Op) : CheckBox :=
  match op with
  | SetCheckState state => setCheckState state c
  | SetChecked state => setChecked state c
  | SetEnabled b => setEnabled b c
  | Click => click c
  end.

End CheckBoxWithDisabledState.

(** ** gui.py: [LineEditWFocusOut]

    [cback], [callback] and [focusInCallback] tell whether the attribute of
    that name holds a callable; a call is recorded in [calls]. *)

Module LineEditWFocusOut.

Inductive Call :=
| SelectAll
| Cback (text : string)
| Callback
| FocusInCallback.

Record LineEdit := mkLineEdit {
  text : string;
  changed : bool;              (* [self.__changed] *)
  cback : bool;
  callback : bool;
  focusInCallback : bool;
  calls : list Call
}.

Definition called (c : Call) (e : LineEdit) : LineEdit :=
  mkLineEdit (text e) (changed e) (cback e) (callback e) (focusInCallback e)
    (calls e ++ [c]).

Definition set_changed (b : bool) (e : LineEdit) : LineEdit :=
  mkLineEdit (text e) b (cback e) (callback e) (focusInCallback e) (calls e).

Definition set_text (t : string) (e : LineEdit) : LineEdit :=
  mkLineEdit t (changed e) (cback e) (callback e) (focusInCallback e)
    (calls e).

Definition __callback_if_changed (e : LineEdit) : LineEdit :=
  if changed e
  then let e := set_changed false e in
       let e := if cback e then called (Cback (text e)) e else e in
       if callback e then called Callback e else e
  else e.

(** The user types: Qt shows the new text and emits [textEdited]. *)
Definition textEdited (t : string) (e : LineEdit) : LineEdit :=
  set_changed true (set_text t e).

Definition returnPressedHandler (e : LineEdit) : LineEdit :=
  __callback_if_changed (called SelectAll e).

Definition setText (t : string) (e : LineEdit) : LineEdit :=
  set_text t (set_changed false e).

Definition focusOutEvent (e : LineEdit) : LineEdit :=
  __callback_if_changed e.

Definition focusInEvent (e : LineEdit) : LineEdit :=
  let e := set_changed false e in
  if focusInCallback e then called FocusInCallback e else e.

Inductive Event :=
| TextEdited (t : string)
| ReturnPressed
| SetText (t : string)
| FocusOut
| FocusIn.

Definition step (e : LineEdit) (ev : Event) : LineEdit :=
  match ev with
  | TextEdited t => textEdited t e
  | ReturnPressed => returnPressedHandler e
  | SetText t => setText t e
  | FocusOut => focusOutEvent e
  | FocusIn => focusInEvent e
  end.

End LineEditWFocusOut.

(** ** gui.py: [DelayedNotification]

    The values passed to [changed] are tuples of plain values, compared by
    Python's [==]. *)

Module DelayedNotification.

Fixpoint tuple_eq (a b : list Prim) : bool :=
  match a, b with
  | [], [] => true
  | x :: a', y :: b' => Py.prim_eq x y && tuple_eq a' b'
  | _, _ => false
  end.

(** [None] or a tuple. *)
Definition value_eq (a b : option (list Prim)) : bool :=
  match a, b with
  | None, None => true
  | Some x, Some y => tuple_eq x y
  | _, _ => false
  end.

(** [emitted] lists the emissions of [notification], each with the value
    of [_last_value] at that moment. *)
Record Notifier := mkNotifier {
  timer_active : bool;
  _did_notify : bool;
  _last_value : option (list Prim);
  _last_notified : option (list Prim);
  emitted : list (option (list Prim))
}.

Definition __init__ : Notifier :=
  mkNotifier false false None None [].

Definition changed (args : list Prim) (n : Notifier) : Notifier :=
  mkNotifier true (_did_notify n) (Some args) (_last_notified n)
    (emitted n).

Definition notify_immediately (n : Notifier) : Notifier :=
  if _did_notify n && value_eq (_last_notified n) (_last_value n)
  then mkNotifier false (_did_notify n) (_last_value n)
         (_last_notified n) (emitted n)
  else mkNotifier false true (_last_value n) (_last_value n)
         (emitted n ++ [_last_value n]).

(** The [timeout] signal of the timer, which fires only while the timer
    runs. *)
Definition timer_timeout (n : Notifier) : Notifier :=
  if timer_active n then notify_immediately n else n.

Inductive Event :=
| Changed (args : list Prim)
| TimerTimeout
| NotifyImmediately.

Definition step (n : Notifier) (ev : Event) : Notifier :=
  match ev with
  | Changed args => changed args n
  | TimerTimeout => timer_timeout n
  | NotifyImmediately => notify_immediately n
  end.

End DelayedNotification.

(** ** gui.py: [SpinBoxMixin], when a value is committed

    [SpinBox], whose [equalityChecker] is [int.__eq__].  [committed] lists
    the values passed to [__commitValue]. *)

Module SpinBoxMixin.

Record SpinBox := mkSpinBox {
  value : Z;
  mouseHeld : bool;
  textEditing : bool;
  preDragValue : Z;
  preEditvalue : Z;
  committed : list Z
}.

Definition __commitValue (v : Z) (s : SpinBox) : SpinBox :=
  mkSpinBox (value s) (mouseHeld s) (textEditing s) (preDragValue s)
    (preEditvalue s) (committed s ++ [v]).

Definition __onEditingFinished (s : SpinBox) : SpinBox :=
  if negb (mouseHeld s) && negb (textEditing s) then s
  else
    (* [initialValue] is assigned in the first [if], the second, or both *)
    let initialValue :=
      if textEditing s then preEditvalue s else preDragValue s in
    let s := mkSpinBox (value s) false false (preDragValue s)
               (preEditvalue s) (committed s) in
    if negb (initialValue =? value s) then __commitValue (value s) s else s.

Definition __onValueChanged (v : Z) (s : SpinBox) : SpinBox :=
  if negb (mouseHeld s) && negb (textEditing s) then __commitValue v s
  else s.

(** The events that reach [eventFilter] of an enabled spin box ([KeyPress]
    stands for a key press or release), and the two signals of [QSpinBox]:
    [valueChanged(v)], emitted when Qt has set the value to [v], and
    [editingFinished]. *)
Inductive Event :=
| MouseButtonPress
| MouseButtonRelease
| KeyPress
| ValueChanged (v : Z)
| EditingFinished.

Definition step (s : SpinBox) (ev : Event) : SpinBox :=
  match ev with
  | MouseButtonPress =>
      mkSpinBox (value s) true (textEditing s) (value s) (preEditvalue s)
        (committed s)
  | MouseButtonRelease => __onEditingFinished s
  | KeyPress =>
      if mouseHeld s then s
      else if negb (textEditing s)
      then mkSpinBox (value s) (mouseHeld s) true (preDragValue s) (value s)
             (committed s)
      else s
  | ValueChanged v =>
      __onValueChanged v
        (mkSpinBox v (mouseHeld s) (textEditing s) (preDragValue s)
           (preEditvalue s) (committed s))
  | EditingFinished => __onEditingFinished s
  end.

End SpinBoxMixin.

(** ** gui.py: [ControlGetter] *)

Module Getter.
Import Binding.

(** What [widget.controls.<name>] evaluates to: the control of a call
    front, the [ControlGetter] of a sub-component, or whatever was assigned
    to the attribute [controls] of the sub-component by hand.  The
    [ControlGetter] that [OWComponent.__init__] puts into [controls], right
    after [controlled_attributes], is not kept among the attributes of the
    store: a component has it once [controlled_attributes] exists. *)
Inductive Got :=
| GotControl (c : nat)
| GotGetter (o : nat)
| GotValue (v : Value).

Definition not_related (name : string) : Exn :=
  AttributeError ("'" +:+ name +:+ "' is not an attribute related to a gui "
                  +:+ "element or component").

(** [getattr(widget, name).controls] *)
Definition controls_of (w : World) (c : Component) (name : string)
  : option Got :=
  match attrs c !! name with
  | Some (Ref sub) =>
      match objs w !! sub with
      | Some (Comp c') =>
          match attrs c' !! "controls" with
          | Some v => Some (GotValue v)
          | None =>
              match controlled_attributes c' with
              | Some _ => Some (GotGetter sub)
              | None => None
              end
          end
      | _ => None
      end
  | _ => None
  end.

(** [ControlGetter.__getattr__], for the getter of the component
    [widget]. *)
Definition ControlGetter__getattr__ (widget : nat) (name : string)
    (w : World) : Exn + Got :=
  match objs w !! widget with
  | Some (Comp c) =>
      match controlled_attributes c with
      | Some reg =>
          match reg !! name with
          | None =>
              match controls_of w c name with
              | Some got => inr got
              | None => inl (not_related name)
              end
          | Some [] => inl IndexError
          | Some (CFront f :: _) =>
              match fronts w !! f with
              | Some fr => inr (GotControl (control fr))
              | None => inl (no_attribute "control")
              end
          | Some (_ :: _) => inl (no_attribute "control")
          end
      | None => inl (no_attribute "controlled_attributes")
      end
  | _ => inl (no_attribute "controlled_attributes")
  end.

End Getter.

(** ** gui.py: the call fronts and call-backs of combo boxes, radio buttons
       and labelled sliders *)

Module Selectors.

(** *** [CallFrontComboBox] and [ValueCallbackCombo]

    What the action does to the combo box: it sets the current index or
    warns. *)
Inductive ComboAction :=
| SetCurrentIndex (i : Z)
| Warn.

Definition action_int (count : nat) (value : Z) : ComboAction :=
  if value <? Z.of_nat count then SetCurrentIndex value else Warn.

(** [value] is [None] or a string; [value or self.emptyString] is looked up
    among the item texts. *)
Definition action_str (items : list string) (emptyString : option string)
    (value : option string) : ComboAction :=
  let key :=
    match value with
    | Some s => if String.eqb s EmptyString then emptyString else Some s
    | None => emptyString
    end in
  match key with
  | Some k =>
      match Py.index String.eqb k items with
      | Some i => SetCurrentIndex (Z.of_nat i)
      | None => Warn
      end
  | None => Warn
  end.

(** [CallFrontComboBox.action]; a [bool] is an [int]. *)
Definition CallFrontComboBox_action (items : list string)
    (emptyString : option string) (value : Prim) : ComboAction :=
  match value with
  | PInt z => action_int (List.length items) z
  | PBool b => action_int (List.length items) (if b then 1 else 0)
  | PNone => action_str items emptyString None
  | PStr s => action_str items emptyString (Some s)
  end.

(** The value that [ValueCallbackCombo.__call__] hands to
    [ValueCallback.__call__] when the signal carries the text [value]. *)
Definition ValueCallbackCombo_value (emptyString : option string)
    (value : string) : string :=
  if decide (emptyString = Some value) then EmptyString else value.

(** *** [CallFrontRadioButtons] and [CallBackRadioButton]

    The buttons of the group are given by their checked flags; the group
    is exclusive, so checking a button unchecks the others. *)
Definition check_only (i : nat) (buttons : list bool) : list bool :=
  imap (fun j _ => Nat.eqb j i) buttons.

(** [CallFrontRadioButtons.action] *)
Definition CallFrontRadioButtons_action (value : Z) (buttons : list bool)
  : Py.Err + list bool :=
  let value :=
    if (value <? 0) || (Z.of_nat (List.length buttons) <=? value) then 0
    else value in
  match buttons !! Z.to_nat value with
  | Some _ => inr (check_only (Z.to_nat value) buttons)
  | None => inl Py.IndexErr
  end.

(** The value that [CallBackRadioButton.__call__] assigns: [arr.index(1)]
    for the list [arr] of the checked flags. *)
Definition CallBackRadioButton_value (buttons : list bool) : Py.Err + Z :=
  match Py.index Bool.eqb true buttons with
  | Some i => inr (Z.of_nat i)
  | None => inl Py.ValueErr
  end.

(** *** [CallFrontLabeledSlider] and [CallBackLabeledSlider] *)

(** The slider value that [CallFrontLabeledSlider.action] sets, [None] when
    the value is [None] and nothing is set. *)
Definition CallFrontLabeledSlider_action (lookup : list Prim) (value : Prim)
  : Py.Err + option Z :=
  match value with
  | PNone => inr None
  | _ =>
      match Py.index Py.prim_eq value lookup with
      | Some i => inr (Some (Z.of_nat i))
      | None => inl Py.ValueErr
      end
  end.

(** The value that [CallBackLabeledSlider.__call__] assigns:
    [self.lookup[self.control.value()]]. *)
Definition CallBackLabeledSlider_value (lookup : list Prim) (slider : Z)
  : Py.Err + Prim :=
  let j := if slider <? 0 then slider + Z.of_nat (List.length lookup)
           else slider in
  if j <? 0 then inl Py.IndexErr
  else match lookup !! Z.to_nat j with
       | Some v => inr v
       | None => inl Py.IndexErr
       end.

End Selectors.

(** ** gui.py: the attributes [now] and [deferred] of a [Deferred] *)

Module DeferredAttrs.
Import Commit.

(** The two keys that [Deferred] keeps in the instance's [DeferredData]. *)
Inductive Key :=
| KNow          (* "now" *)
| KDeferred.    (* "deferred" *)

(** [getattr(data, key)] *)
Definition field (k : Key) (d : DeferredData) : option Value :=
  match k with
  | KNow => now d
  | KDeferred => deferred d
  end.

(** [setattr(data, key, value)]; the value [None] is the empty field. *)
Definition set_field (k : Key) (v : option Value) (d : DeferredData)
  : DeferredData :=
  match k with
  | KNow => mkData v (deferred d) (dirty d) (commit_depth d)
  | KDeferred => mkData (now d) v (dirty d) (commit_depth d)
  end.

(** What [Deferred.__getattribute__] returns for these keys: the value that
    was set, or else a function that looks the value up when it is
    called. *)
Inductive Attr :=
| Stored (v : Value)
| Thunk (k : Key).

Definition Deferred__getattribute__ (k : Key) (w : World) : Attr :=
  match field k (data w) with
  | Some v => Stored v
  | None => Thunk k
  end.

(** [Deferred.__setattr__] and [Deferred.__delattr__] for these keys. *)
Definition Deferred__setattr__ (k : Key) (v : Value) (w : World) : World :=
  with_data (set_field k (match v with
                          | VPrim PNone => None
                          | _ => Some v
                          end)) w.

Definition Deferred__delattr__ (k : Key) (w : World) : World :=
  with_data (set_field k None) w.

(** [v()] for a value of the store. *)
Definition call_value (v : Value) (w : World) : Outcome World :=
  match v with
  | VConditional s => conditional_commit s w
  | VDoCommit s => do_commit s w
  | VCommit (Decorated n chain) => Deferred__call__ n chain w
  | VCommit (BoundMethod _ chain) => run_method chain w
  | VCommit (Function _ body) => run_body no_super body w
  | VUser b => run_body no_super b w
  | VPrim _ => Raised TypeError w
  end.

(** Calling what [__getattribute__] returned; the function
    [lambda: getattr(data, key)()] reads the field when it is called. *)
Definition call_attribute (a : Attr) (w : World) : Outcome World :=
  match a with
  | Stored v => call_value v w
  | Thunk k =>
      match field k (data w) with
      | Some v => call_value v w
      | None => Raised TypeError w
      end
  end.

End DeferredAttrs.

(** ** gui.py: the end of [checkBox], where the disabler is attached *)

Module CheckBoxDisabler.
Import Disable.

(** The argument [disables] of [checkBox]: [None], one widget, or a
    list. *)
Inductive DisablesArg :=
| NoWidgets
| OneWidget (i : nat)
| Listed (entries : list Entry).

(** A single widget is wrapped in a list; then [disables or []]. *)
Definition disables_list (a : DisablesArg) : list Entry :=
  match a with
  | NoWidgets => []
  | OneWidget i => [Plain i]
  | Listed entries => entries
  end.

(** [Disabler(cbox, master, value)] *)
Definition new_disabler (cbox : nat) (value : string) : Disabler :=
  mkDisabler cbox value true DISABLER.

(** The last statements of [checkBox], from [cbox.disables = ...] to
    [cbox.makeConsistent(value)]: the disabler is called with [value],
    the name of the attribute, as its argument. *)
Definition checkBox_disables (fuel : nat) (cbox : nat) (value : string)
    (a : DisablesArg) (w : World) : option (Outcome World) :=
  let d := new_disabler cbox value in
  let w1 :=
    mkWorld (alter (fun x => mkWidget (enabled x) (visible x)
                               (disables_list a) (Some d)) cbox (widgets w))
            (master w) in
  Disabler_call fuel d (Some (PStr value)) w1.

End CheckBoxDisabler.

(** ** gui.py: the item that [comboBox] selects first *)

Module ComboBox.

(** The statements of [comboBox] that lead to [combo.setCurrentIndex(cindex)]
    when no model is given; [items] are strings, and [cindex] is the value
    of the attribute.  [None > combo.count() - 1] is a [TypeError]. *)
Definition comboBox_index (items : list string) (cindex : Prim) : Exn + Z :=
  let clamp (cindex : Z) :=
    if cindex >? Z.of_nat (List.length items) - 1 then 0 else cindex in
  match cindex with
  | PStr s =>
      inr (clamp (match Py.index String.eqb s items with
                  | Some i => Z.of_nat i
                  | None => 0
                  end))
  | PInt z => inr (clamp z)
  | PBool b => inr (clamp (if b then 1 else 0))
  | PNone => inl TypeError
  end.

End ComboBox.

(** * Properties *)

Lemma state_of_try_finally {S} (body : Outcome S) fin :
  state_of (try_finally body fin) = fin (state_of body).
Proof. by destruct body. Qed.

Lemma returns_try_finally {S} (body : Outcome S) fin :
  returns (try_finally body fin) = returns body.
Proof. by destruct body. Qed.

Lemma string_app_assoc (a b c : string) : (a +:+ b) +:+ c = a +:+ (b +:+ c).
Proof.
  induction a as [|ch a IH]; [done|].
  change (String ch ((a +:+ b) +:+ c) = String ch (a +:+ b +:+ c)).
  by rewrite IH.
Qed.

Lemma string_length_app (a b : string) :
  String.length (a +:+ b) = (String.length a + String.length b)%nat.
Proof.
  induction a as [|ch a IH]; [done|].
  change (S (String.length (a +:+ b)) = S (String.length a + String.length b)).
  by rewrite IH.
Qed.

Lemma string_prefixed_ne (a b : string) : a <> EmptyString -> b <> a +:+ b.
Proof.
  intros Ha Hb. apply (f_equal String.length) in Hb.
  rewrite string_length_app in Hb. destruct a; [done | simpl in Hb; lia].
Qed.

Module ReportFacts.
Import Report.

Lemma sample_send_report_appends r :
  report_html (sample_send_report r)
  = report_html r +:+ "<h2>Data</h2><p>150 rows</p><p class='caption'>Figure 1</p>".
Proof.
  unfold sample_send_report, report_caption, report_paragraph, report_name,
    iadd_html; simpl.
  rewrite !string_app_assoc. done.
Qed.

Section CreateReport.
Variable send_report : Report -> Report.
Variable datetime : string.
(** what [send_report] appends, as a function of the store it starts in *)
Variable appended : Report -> string.
Hypothesis send_report_appends : forall r,
  report_html (send_report r) = report_html r +:+ appended r.

(** C7: [create_report_html] discards the old [report_html] and leaves
    exactly the opening section tag, the section header of [self.name],
    the opening content tag, whatever [send_report] appended, and the
    closing tags, in this order. *)
Theorem create_report_html_structure (r : Report) :
  report_html (create_report_html send_report datetime r)
  = section_open +:+ get_html_section datetime (name r)
    +:+ content_open +:+ appended (before_send datetime r)
    +:+ section_close.
Proof.
  unfold create_report_html. simpl.
  rewrite send_report_appends. unfold before_send. simpl.
  rewrite !string_app_assoc. done.
Qed.
End CreateReport.

Lemma create_report_html_structure_witness :
  report_html (create_report_html sample_send_report "Mon Jan 01 24, 10:00:00"
                 (mkReport "Scatter Plot" "stale"))
  = section_open +:+ get_html_section "Mon Jan 01 24, 10:00:00" "Scatter Plot"
    +:+ content_open
    +:+ "<h2>Data</h2><p>150 rows</p><p class='caption'>Figure 1</p>"
    +:+ section_close.
Proof.
  apply (create_report_html_structure sample_send_report
           "Mon Jan 01 24, 10:00:00"
           (fun _ => "<h2>Data</h2><p>150 rows</p><p class='caption'>Figure 1</p>")
           sample_send_report_appends).
Defined.

End ReportFacts.

Module CommitFacts.
Import Commit.

(** *** Frame lemmas: user bodies reach the depth counter only through
    [super], and never reach the button. *)

Lemma run_body_depth super b w :
  (forall w', depth (state_of (super w')) = depth w') ->
  depth (state_of (run_body super b w)) = depth w.
Proof.
  intros Hs. revert w. induction b as [|a b IH]; intros w; simpl; [done|].
  destruct a as [tag|e| |n v]; simpl; try done.
  - by rewrite IH.
  - specialize (Hs w). destruct (super w) as [w'|e w']; simpl in *; [|done].
    by rewrite IH.
  - by rewrite IH.
Qed.

Lemma no_super_depth w : depth (state_of (no_super w)) = depth w.
Proof. done. Qed.

Lemma depth_add_depth k w : depth (add_depth k w) = depth w + k.
Proof. done. Qed.

Lemma Deferred_call_depth name chain w :
  depth (state_of (Deferred_call name chain w)) = depth w.
Proof.
  revert w. induction chain as [|func supers IH]; intros w; simpl; [done|].
  rewrite state_of_try_finally, depth_add_depth.
  assert (forall w', depth (state_of
            (if decide (depth w' = 0)
             then Raised (RuntimeError (deferred_message name)) w'
             else Deferred_call name supers w')) = depth w') as Hsuper.
  { intros w'. case_decide; [done | apply IH]. }
  change (attrs (add_depth 1 w)) with (attrs w).
  destruct (attrs w !! name) as [[p|c|s|s|b]|]; simpl;
    rewrite ?run_body_depth, ?depth_add_depth;
    auto using no_super_depth; lia.
Qed.

Lemma Deferred_call_unfold name func supers w :
  attrs w !! name = None ->
  Deferred_call name (func :: supers) w
  = try_finally (run_body (Deferred__call__ name supers) func (add_depth 1 w))
      (add_depth (-1)).
Proof. intros H. simpl. by rewrite H. Qed.

(** C8: calling the decorated attribute raises [RuntimeError] naming
    [<name>.deferred] and [<name>.now] when no commit of the instance is
    running, and invokes the underlying function when [commit_depth] is
    positive; [Deferred.call] runs the function between an increment and a
    decrement of [commit_depth], so whether the function returns or raises
    the counter is back at its prior value; assigning to the decorated
    attribute raises [ValueError]. *)
Theorem deferred_dispatch (name : string) (chain : list Body) (w : World)
    (v : Value) :
  (depth w = 0 ->
     Deferred__call__ name chain w
     = Raised (RuntimeError
                 ("This function is deferred; explicitly call " +:+ name
                  +:+ ".deferred or " +:+ name +:+ ".now")) w)
  /\ (depth w > 0 ->
      Deferred__call__ name chain w = Deferred_call name chain w)
  /\ (forall func supers,
        chain = func :: supers -> attrs w !! name = None ->
        Deferred_call name chain w
        = try_finally
            (run_body (Deferred__call__ name supers) func (add_depth 1 w))
            (add_depth (-1)))
  /\ depth (state_of (Deferred_call name chain w)) = depth w
  /\ exists msg, DeferrerProperty__set__ name v w = Raised (ValueError msg) w.
Proof.
  repeat split.
  - intros H. unfold Deferred__call__. by case_decide.
  - intros H. unfold Deferred__call__. case_decide; [lia | done].
  - intros func supers -> H. by apply Deferred_call_unfold.
  - apply Deferred_call_depth.
  - eexists. reflexivity.
Qed.

(** A widget class overriding a decorated [commit]: the child's body calls
    [super().commit()] between two pieces of work. *)
Definition sample_chain : list Body := [[Work 1; Super; Work 2]; [Work 3]].

Definition sample_world (d : Z) : World :=
  mkWorld ∅ (mkData None None false d) false "Send" true 0 0 [].

Lemma deferred_dispatch_witness :
  Deferred__call__ "commit" sample_chain (sample_world 0)
  = Raised (RuntimeError
      "This function is deferred; explicitly call commit.deferred or commit.now")
      (sample_world 0)
  /\ Deferred__call__ "commit" sample_chain (sample_world 1)
     = Deferred_call "commit" sample_chain (sample_world 1)
  /\ trace (state_of (Deferred_call "commit" sample_chain (sample_world 0)))
     = [EWork 1; EWork 3; EWork 2].
Proof.
  pose proof (deferred_dispatch "commit" sample_chain (sample_world 0)
                (VPrim PNone)) as (H0 & _ & H2 & _).
  pose proof (deferred_dispatch "commit" sample_chain (sample_world 1)
                (VPrim PNone)) as (_ & H1 & _).
  split; [apply H0; reflexivity|].
  split; [apply H1; reflexivity|].
  rewrite (H2 _ _ eq_refl eq_refl). reflexivity.
Defined.

(** *** [auto_commit]: the two entry points *)

Lemma is_dirty_after_commit s w :
  is_dirty s (with_cursor Nat.pred (set_dirty s false w)) = false.
Proof. unfold is_dirty, set_dirty. by destruct (decorated s). Qed.

Lemma is_dirty_set_dirty s b w : is_dirty s (set_dirty s b w) = b.
Proof. unfold is_dirty, set_dirty. by destruct (decorated s). Qed.

Lemma trace_set_dirty s b w : trace (set_dirty s b w) = trace w.
Proof. unfold set_dirty. by destruct (decorated s). Qed.

Lemma do_commit_returns s w w' :
  run_commit s (with_cursor S w) = Normal w' ->
  do_commit s w = Normal (with_cursor Nat.pred (set_dirty s false w')).
Proof. intros H. unfold do_commit. by rewrite H. Qed.

(** A commit that raises leaves the dirty flag as the commit left it and
    still restores the cursor. *)
Lemma do_commit_raises s w e w' :
  run_commit s (with_cursor S w) = Raised e w' ->
  do_commit s w = Raised e (with_cursor Nat.pred w').
Proof. intros H. unfold do_commit. by rewrite H. Qed.

Lemma publish_decorated p s w w' :
  decorated s = true -> publish p s w = Normal w' ->
  now (data w') = Some (VDoCommit s)
  /\ deferred (data w') = Some (VConditional s).
Proof.
  unfold publish. intros ->. intros [= <-]. done.
Qed.

Lemma auto_commit_inv p w w' :
  auto_commit p w = Normal w' ->
  exists w4,
    checkbox_toggled (setup_of p w)
      (with_btn (p_label p) true
         (set_dirty (setup_of p w) false (snd (resolve_commit_name p w))))
    = Normal w4
    /\ publish p (setup_of p w) w4 = Normal w'.
Proof.
  unfold auto_commit. simpl.
  destruct (checkbox_toggled _ _) as [w4|e w4]; simpl; [eauto | done].
Qed.

(** C4: once [auto_commit] has published the entry points of a decorated
    commit, [commit.deferred] is [conditional_commit] and [commit.now] is
    [do_commit]; [conditional_commit] runs the commit at once and clears the
    dirty flag when [getattr(master, value)] is true, and otherwise only sets
    the dirty flag; [do_commit] runs the commit whatever the flag and clears
    the dirty flag afterwards. *)
Theorem auto_commit_entry_points (s : Setup) (w : World) :
  (forall v w', attrs w !! value s = Some v -> truthy v = true ->
     run_commit s (with_cursor S w) = Normal w' ->
     conditional_commit s w
     = Normal (with_cursor Nat.pred (set_dirty s false w'))
     /\ is_dirty s (with_cursor Nat.pred (set_dirty s false w')) = false)
  /\ (forall v, attrs w !! value s = Some v -> truthy v = false ->
      conditional_commit s w = Normal (set_dirty s true w)
      /\ is_dirty s (set_dirty s true w) = true
      /\ trace (set_dirty s true w) = trace w)
  /\ (forall w', run_commit s (with_cursor S w) = Normal w' ->
      do_commit s w = Normal (with_cursor Nat.pred (set_dirty s false w'))
      /\ is_dirty s (with_cursor Nat.pred (set_dirty s false w')) = false)
  /\ (forall p w0, s = setup_of p w0 -> decorated s = true ->
      auto_commit p w0 = Normal w ->
      now (data w) = Some (VDoCommit s)
      /\ deferred (data w) = Some (VConditional s)).
Proof.
  split; [|split; [|split]].
  - intros v w' Hv Ht Hrun. split; [|apply is_dirty_after_commit].
    unfold conditional_commit. rewrite Hv, Ht. by apply do_commit_returns.
  - intros v Hv Hf. split; [|split].
    + unfold conditional_commit. by rewrite Hv, Hf.
    + apply is_dirty_set_dirty.
    + apply trace_set_dirty.
  - intros w' Hrun. split; [by apply do_commit_returns|].
    apply is_dirty_after_commit.
  - intros p w0 -> Hdec Hrun.
    apply auto_commit_inv in Hrun as (w4 & _ & Hp).
    by apply (publish_decorated _ _ _ _ Hdec Hp).
Qed.

(** A widget with a decorated [commit] and the setting [auto_commit]. *)
Definition sample_params (c : CommitObj) : Params :=
  mkParams "auto_commit" "Send" None None c None "OWSample"
    [mkClass "OWSample" ∅; mkClass "OWBase" ∅].

Definition sample_master (auto : bool) : World :=
  mkWorld {["auto_commit" := VPrim (PBool auto)]}
    DeferredData_init false EmptyString true 0 0 [].

Definition sample_decorated : CommitObj := Decorated "commit" sample_chain.

Definition sample_setup : Setup :=
  setup_of (sample_params sample_decorated) (sample_master false).

Lemma auto_commit_entry_points_witness :
  (conditional_commit sample_setup (sample_master true)
   = Normal (with_cursor Nat.pred (set_dirty sample_setup false
       (state_of (run_commit sample_setup (with_cursor S (sample_master true))))))
   /\ trace (state_of (conditional_commit sample_setup (sample_master true)))
      = [EWork 1; EWork 3; EWork 2])
  /\ conditional_commit sample_setup (sample_master false)
     = Normal (set_dirty sample_setup true (sample_master false))
  /\ do_commit sample_setup (sample_master false)
     = Normal (with_cursor Nat.pred (set_dirty sample_setup false
         (state_of (run_commit sample_setup (with_cursor S (sample_master false))))))
  /\ now (data (state_of (auto_commit (sample_params sample_decorated)
                            (sample_master false))))
     = Some (VDoCommit sample_setup).
Proof.
  pose proof (auto_commit_entry_points sample_setup (sample_master true))
    as (Hon & _).
  pose proof (auto_commit_entry_points sample_setup (sample_master false))
    as (_ & Hoff & Hnow & _).
  pose proof (auto_commit_entry_points sample_setup
                (state_of (auto_commit (sample_params sample_decorated)
                             (sample_master false))))
    as (_ & _ & _ & Hpub).
  split; [split|split; [|split]].
  - apply (Hon (VPrim (PBool true))); reflexivity.
  - reflexivity.
  - apply (Hoff (VPrim (PBool false))); reflexivity.
  - apply Hnow; reflexivity.
  - apply (Hpub (sample_params sample_decorated) (sample_master false));
      reflexivity.
Defined.

(** *** [checkbox_toggled] *)

Section Frame.
Context {A : Type} (f : World -> A).
Hypothesis f_log : forall e w, f (log e w) = f w.
Hypothesis f_attrs : forall g w, f (with_attrs g w) = f w.
Hypothesis f_data : forall g w, f (with_data g w) = f w.

Lemma run_body_frame super b w :
  (forall w', f (state_of (super w')) = f w') ->
  f (state_of (run_body super b w)) = f w.
Proof.
  intros Hs. revert w. induction b as [|a b IH]; intros w; simpl; [done|].
  destruct a as [tag|e| |n v]; simpl; try done.
  - by rewrite IH.
  - specialize (Hs w). destruct (super w) as [w'|e w']; simpl in *; [|done].
    by rewrite IH.
  - by rewrite IH.
Qed.

Lemma run_method_frame chain w : f (state_of (run_method chain w)) = f w.
Proof.
  revert w. induction chain as [|func supers IH]; intros w; simpl; [done|].
  by apply run_body_frame.
Qed.

Lemma Deferred_call_frame name chain w :
  f (state_of (Deferred_call name chain w)) = f w.
Proof.
  revert w. induction chain as [|func supers IH]; intros w; simpl; [done|].
  rewrite state_of_try_finally. unfold add_depth at 1. rewrite f_data.
  change (attrs (add_depth 1 w)) with (attrs w).
  destruct (attrs w !! name) as [[p|c|s|s|b]|]; simpl;
    try (unfold add_depth; by rewrite f_data).
  - rewrite run_body_frame; [unfold add_depth; by rewrite f_data | done].
  - rewrite run_body_frame; [unfold add_depth; by rewrite f_data |].
    intros w'. case_decide; [done | apply IH].
Qed.

Lemma run_callback_frame s w : f (state_of (run_callback s w)) = f w.
Proof.
  unfold run_callback. destruct (callback s); [|done].
  by apply run_body_frame.
Qed.

Hypothesis f_closure : forall b w, f (with_closure_dirty b w) = f w.
Hypothesis f_cursor : forall g w, f (with_cursor g w) = f w.

Lemma run_commit_frame s w : f (state_of (run_commit s w)) = f w.
Proof.
  unfold run_commit. destruct (commit s).
  - apply Deferred_call_frame.
  - apply run_method_frame.
  - by apply run_body_frame.
Qed.

Lemma set_dirty_frame s b w : f (set_dirty s b w) = f w.
Proof. unfold set_dirty. by destruct (decorated s). Qed.

Lemma do_commit_frame s w : f (state_of (do_commit s w)) = f w.
Proof.
  unfold do_commit. rewrite state_of_try_finally, f_cursor.
  pose proof (run_commit_frame s (with_cursor S w)) as H.
  destruct (run_commit s (with_cursor S w)) as [w'|e w']; simpl in *.
  - by rewrite set_dirty_frame, H, f_cursor.
  - by rewrite H, f_cursor.
Qed.
End Frame.

Lemma checkbox_toggled_button s w v :
  attrs w !! value s = Some v ->
  btn_text (state_of (checkbox_toggled s w))
  = (if truthy v then auto_label s else label s)
  /\ btn_enabled (state_of (checkbox_toggled s w)) = negb (truthy v).
Proof.
  intros Hv. unfold checkbox_toggled. rewrite Hv.
  assert (forall (f : World -> bool * string),
            f = (fun w => (btn_enabled w, btn_text w)) ->
            f (state_of
                 (do w' <- (if truthy v
                            then if is_dirty s (with_btn (auto_label s) false w)
                                 then do_commit s (with_btn (auto_label s) false w)
                                 else Normal (with_btn (auto_label s) false w)
                            else Normal (with_btn (label s) true w));
                  run_callback s w'))
            = (negb (truthy v), if truthy v then auto_label s else label s))
    as H.
  { intros f ->. destruct (truthy v); simpl.
    - destruct (is_dirty s _); simpl.
      + pose proof (do_commit_frame (fun w => (btn_enabled w, btn_text w))
                      ltac:(done) ltac:(done) ltac:(done) ltac:(done)
                      ltac:(done) s (with_btn (auto_label s) false w)) as Hc.
        destruct (do_commit s _) as [w'|e w']; simpl in *; [|done].
        rewrite <- Hc.
        apply (run_callback_frame (fun w => (btn_enabled w, btn_text w)));
          done.
      + apply (run_callback_frame (fun w => (btn_enabled w, btn_text w)));
          done.
    - apply (run_callback_frame (fun w => (btn_enabled w, btn_text w)));
        done. }
  specialize (H _ eq_refl). simpl in H. by injection H as -> ->.
Qed.

(** What the handler of the check box does: with [getattr(master, value)]
    true the button is disabled and shows [auto_label], and a set dirty flag
    makes the handler run the original commit and clear the flag; with the
    attribute false the button is enabled and shows [label], and no commit
    runs; in each case the optional callback runs last. *)
Lemma checkbox_toggled_cases (s : Setup) (w : World) (v : Value) :
  attrs w !! value s = Some v ->
  btn_text (state_of (checkbox_toggled s w))
  = (if truthy v then auto_label s else label s)
  /\ btn_enabled (state_of (checkbox_toggled s w)) = negb (truthy v)
  /\ (truthy v = true -> is_dirty s w = true ->
      forall w',
        run_commit s (with_cursor S (with_btn (auto_label s) false w))
        = Normal w' ->
        checkbox_toggled s w
        = run_callback s (with_cursor Nat.pred (set_dirty s false w'))
        /\ is_dirty s (with_cursor Nat.pred (set_dirty s false w')) = false)
  /\ (truthy v = true -> is_dirty s w = false ->
      checkbox_toggled s w = run_callback s (with_btn (auto_label s) false w))
  /\ (truthy v = false ->
      checkbox_toggled s w = run_callback s (with_btn (label s) true w)).
Proof.
  intros Hv.
  destruct (checkbox_toggled_button s w v Hv) as [Htext Hen].
  split; [done|]. split; [done|]. split; [|split].
  - intros Ht Hd w' Hrun. split; [|apply is_dirty_after_commit].
    unfold checkbox_toggled. rewrite Hv, Ht.
    change (is_dirty s (with_btn (auto_label s) false w)) with (is_dirty s w).
    rewrite Hd. by rewrite (do_commit_returns _ _ _ Hrun).
  - intros Ht Hd. unfold checkbox_toggled. rewrite Hv, Ht.
    change (is_dirty s (with_btn (auto_label s) false w)) with (is_dirty s w).
    by rewrite Hd.
  - intros Hf. unfold checkbox_toggled. by rewrite Hv, Hf.
Qed.

Definition sample_callback_setup : Setup :=
  mkSetup "auto_commit" "Send" "Send Automatically" sample_decorated "commit"
    (Some [Work 9]).

Definition sample_dirty (auto : bool) : World :=
  mkWorld {["auto_commit" := VPrim (PBool auto)]}
    (mkData None None true 0) false "Send" true 0 0 [].

(** *** [auto_commit] with an undecorated commit *)

Lemma class_getattr_decorated mro n :
  class_getattr mro n = Some DecoratedAttr ->
  exists c, c ∈ mro /\ cls_dict c !! n = Some DecoratedAttr.
Proof.
  induction mro as [|c rest IH]; simpl; [done|].
  destruct (cls_dict c !! n) as [a|] eqn:E.
  - intros [= ->]. exists c. split; [left | done].
  - intros H. destruct (IH H) as (c' & Hin & Hc'). exists c'.
    split; [by right | done].
Qed.

(** The loop over the supertypes finds nothing exactly when no class after
    the first defines a decorated attribute of that name. *)
Lemma decorated_supertype_None supers n :
  decorated_supertype supers n = None
  <-> forall c, c ∈ supers -> cls_dict c !! n <> Some DecoratedAttr.
Proof.
  induction supers as [|c rest IH]; simpl.
  - split; [|done]. intros _ c Hc. by apply elem_of_nil in Hc.
  - destruct (cls_dict c !! n) as [[|]|] eqn:E; simpl.
    + split; [done|]. intros H. by destruct (H c (list_elem_of_here _ _)).
    + rewrite IH. split.
      * intros H c' [->|Hin]%elem_of_cons; [by rewrite E | by apply H].
      * intros H c' Hin. apply H. by right.
    + destruct (is_decorated_attr (class_getattr rest n)) eqn:Hd.
      * split; [done|]. intros H.
        destruct (class_getattr rest n) as [[|]|] eqn:Hg; try done.
        apply class_getattr_decorated in Hg as (c' & Hin & Hc').
        destruct (H c'); [by right | done].
      * rewrite IH. split.
        -- intros H c' [->|Hin]%elem_of_cons; [by rewrite E | by apply H].
        -- intros H c' Hin. apply H. by right.
Qed.

Lemma decorated_supertype_Some supers n c :
  c ∈ supers -> cls_dict c !! n = Some DecoratedAttr ->
  is_Some (decorated_supertype supers n).
Proof.
  intros Hin Hc.
  destruct (decorated_supertype supers n) eqn:E; [by eexists|].
  exfalso. by apply (proj1 (decorated_supertype_None supers n) E c Hin).
Qed.

Lemma commit_name_setup_of p w :
  commit_name (setup_of p w)
  = if is_function (p_commit p) then lambda_name w
    else dunder_name (p_commit p).
Proof.
  unfold setup_of, resolve_commit_name. simpl. by destruct (is_function _).
Qed.

Lemma master_setattr_ok p name v w :
  is_decorated_attr (class_getattr (p_mro p) name) = false ->
  master_setattr p name v w = Normal (with_attrs (insert name v) w).
Proof. unfold master_setattr. by intros ->. Qed.

Lemma master_setattr_blocked p name v w :
  is_decorated_attr (class_getattr (p_mro p) name) = true ->
  exists msg, master_setattr p name v w = Raised (ValueError msg) w.
Proof. unfold master_setattr. intros ->. by eexists. Qed.

(** The override check that precedes the two assignments. *)
Definition override_check (p : Params) (s : Setup) (w : World)
  : Outcome World :=
  if is_function (commit s) then Normal w
  else match decorated_supertype (tail (p_mro p)) (commit_name s) with
       | Some super =>
           Raised (RuntimeError (override_message p (commit_name s) super)) w
       | None => Normal (log (EWarn (decorate_warning p (commit_name s))) w)
       end.

Lemma publish_unfold p s w :
  decorated s = false ->
  publish p s w
  = (do w' <- override_check p s w;
     do w'' <- master_setattr p ("unconditional_" +:+ commit_name s)
                 (VCommit (commit s)) w';
     master_setattr p (commit_name s) (VConditional s) w'').
Proof. unfold publish, override_check. by intros ->. Qed.

Lemma override_check_passes p s w :
  (is_function (commit s) = true
   \/ forall c, c ∈ tail (p_mro p) ->
        cls_dict c !! commit_name s <> Some DecoratedAttr) ->
  exists w1, override_check p s w = Normal w1 /\ attrs w1 = attrs w.
Proof.
  intros Hok. unfold override_check.
  destruct (is_function (commit s)); [by eexists|].
  destruct Hok as [|Hok]; [done|].
  apply decorated_supertype_None in Hok. rewrite Hok. by eexists.
Qed.

Lemma publish_undecorated p s w :
  decorated s = false ->
  (is_function (commit s) = true
   \/ forall c, c ∈ tail (p_mro p) ->
        cls_dict c !! commit_name s <> Some DecoratedAttr) ->
  is_decorated_attr
    (class_getattr (p_mro p) ("unconditional_" +:+ commit_name s)) = false ->
  is_decorated_attr (class_getattr (p_mro p) (commit_name s)) = false ->
  exists w',
    publish p s w = Normal w'
    /\ attrs w' !! ("unconditional_" +:+ commit_name s)
       = Some (VCommit (commit s))
    /\ attrs w' !! commit_name s = Some (VConditional s).
Proof.
  intros Hd Hok Hu Hn. rewrite publish_unfold by done.
  destruct (override_check_passes p s w Hok) as (w1 & -> & _).
  cbn [bind]. rewrite master_setattr_ok by done.
  cbn [bind]. rewrite master_setattr_ok by done.
  eexists. split; [reflexivity|]. simpl. split.
  - rewrite lookup_insert_ne by (by apply string_prefixed_ne).
    by rewrite lookup_insert_eq.
  - by rewrite lookup_insert_eq.
Qed.

Lemma publish_overriding p s w c :
  decorated s = false -> is_function (commit s) = false ->
  c ∈ tail (p_mro p) -> cls_dict c !! commit_name s = Some DecoratedAttr ->
  exists super,
    publish p s w
    = Raised (RuntimeError (override_message p (commit_name s) super)) w.
Proof.
  intros Hd Hf Hin Hc. rewrite publish_unfold by done.
  unfold override_check. rewrite Hf.
  destruct (decorated_supertype_Some _ _ _ Hin Hc) as [super ->].
  by exists super.
Qed.

(** A class attribute that is a decorated method stops the assignment. *)
Lemma publish_blocked p s w :
  decorated s = false ->
  (is_function (commit s) = true
   \/ forall c, c ∈ tail (p_mro p) ->
        cls_dict c !! commit_name s <> Some DecoratedAttr) ->
  is_decorated_attr
    (class_getattr (p_mro p) ("unconditional_" +:+ commit_name s)) = true
  \/ is_decorated_attr (class_getattr (p_mro p) (commit_name s)) = true ->
  exists msg w',
    publish p s w = Raised (ValueError msg) w'
    /\ attrs w' !! commit_name s = attrs w !! commit_name s.
Proof.
  intros Hd Hok Hblocked. rewrite publish_unfold by done.
  destruct (override_check_passes p s w Hok) as (w1 & -> & Hattrs).
  cbn [bind].
  destruct (is_decorated_attr
              (class_getattr (p_mro p) ("unconditional_" +:+ commit_name s)))
    eqn:Hu.
  - destruct (master_setattr_blocked p _ (VCommit (commit s)) w1 Hu)
      as [msg ->].
    exists msg, w1. by rewrite Hattrs.
  - destruct Hblocked as [|Hn]; [done|].
    rewrite master_setattr_ok by done. cbn [bind].
    destruct (master_setattr_blocked p _ (VConditional s)
                (with_attrs (insert ("unconditional_" +:+ commit_name s)
                               (VCommit (commit s))) w1) Hn) as [msg ->].
    eexists msg, _. split; [reflexivity|]. simpl.
    rewrite lookup_insert_ne by (intros H; symmetry in H; revert H;
                                 by apply string_prefixed_ne).
    by rewrite Hattrs.
Qed.

Lemma is_lambda_is_function c : is_lambda c = true -> is_function c = true.
Proof. by destruct c. Qed.

(** C10, as the code has it by design.  The commit is undecorated, and
    either a lambda or no plain function object at all (a bound method).
    [commit_name] is the next generated name [_lambda_<i>] for the lambda
    and the commit's [__name__] otherwise.  When the commit is no plain
    function object and a class after the first in the master's MRO defines
    a decorated attribute of that name, [auto_commit] raises [RuntimeError]
    and rebinds nothing.  Otherwise the two assignments follow: if the
    attribute that the master's class has under ['unconditional_' +
    commit_name] or under [commit_name] is a decorated method, the
    assignment runs [DeferrerProperty.__set__] and [auto_commit] raises
    [ValueError], with [commit_name] not rebound; if neither is, the
    original commit is stored under the first name and the conditional
    commit under the second, so that a later [master.<commit_name>()] is
    the conditional commit. *)
Theorem auto_commit_rebinds (p : Params) (w : World) :
  decorated (setup_of p w) = false ->
  let s := setup_of p w in
  let n := commit_name s in
  let w3 := with_btn (p_label p) true
              (set_dirty s false (snd (resolve_commit_name p w))) in
  let in_scope :=
    is_lambda (p_commit p) = true
    \/ (is_function (p_commit p) = false
        /\ forall c, c ∈ tail (p_mro p) ->
             cls_dict c !! n <> Some DecoratedAttr) in
  let blocked name := is_decorated_attr (class_getattr (p_mro p) name) in
  (is_lambda (p_commit p) = true ->
   n = "_lambda_" +:+ pretty (S (lambda_counter w)))
  /\ (is_function (p_commit p) = false -> n = dunder_name (p_commit p))
  /\ (forall w4,
        checkbox_toggled s w3 = Normal w4 -> in_scope ->
        blocked ("unconditional_" +:+ n) = false -> blocked n = false ->
        exists w',
          auto_commit p w = Normal w'
          /\ attrs w' !! ("unconditional_" +:+ n) = Some (VCommit (p_commit p))
          /\ attrs w' !! n = Some (VConditional s)
          /\ call_attr n w' = conditional_commit s w')
  /\ (forall w4 c,
        checkbox_toggled s w3 = Normal w4 ->
        is_function (p_commit p) = false ->
        c ∈ tail (p_mro p) -> cls_dict c !! n = Some DecoratedAttr ->
        exists msg, auto_commit p w = Raised (RuntimeError msg) w4)
  /\ (forall w4,
        checkbox_toggled s w3 = Normal w4 -> in_scope ->
        blocked ("unconditional_" +:+ n) = true \/ blocked n = true ->
        exists msg w',
          auto_commit p w = Raised (ValueError msg) w'
          /\ attrs w' !! n = attrs w4 !! n).
Proof.
  intros Hd. cbv zeta.
  assert (Hscope :
    is_lambda (p_commit p) = true
    \/ (is_function (p_commit p) = false
        /\ forall c, c ∈ tail (p_mro p) ->
             cls_dict c !! commit_name (setup_of p w) <> Some DecoratedAttr) ->
    is_function (commit (setup_of p w)) = true
    \/ forall c, c ∈ tail (p_mro p) ->
         cls_dict c !! commit_name (setup_of p w) <> Some DecoratedAttr).
  { intros [Hl|[_ Hc]]; [left; by apply is_lambda_is_function | by right]. }
  split; [|split; [|split; [|split]]].
  - intros Hl. rewrite commit_name_setup_of.
    by rewrite (is_lambda_is_function _ Hl).
  - intros Hf. rewrite commit_name_setup_of. by rewrite Hf.
  - intros w4 Ht Hin Hbu Hbn.
    destruct (publish_undecorated p (setup_of p w) w4 Hd (Hscope Hin) Hbu Hbn)
      as (w' & Hp & Hu & Hc).
    exists w'. unfold auto_commit. cbv zeta.
    change (p_label p) with (label (setup_of p w)) in Ht. rewrite Ht.
    unfold bind. repeat split; try done.
    unfold call_attr. by rewrite Hc.
  - intros w4 c Ht Hf Hin Hc.
    destruct (publish_overriding p (setup_of p w) w4 c Hd Hf Hin Hc)
      as (super & Hp).
    eexists. unfold auto_commit. cbv zeta.
    change (p_label p) with (label (setup_of p w)) in Ht. rewrite Ht.
    unfold bind. exact Hp.
  - intros w4 Ht Hin Hb.
    destruct (publish_blocked p (setup_of p w) w4 Hd (Hscope Hin) Hb)
      as (msg & w' & Hp & Hattrs).
    exists msg, w'. unfold auto_commit. cbv zeta.
    change (p_label p) with (label (setup_of p w)) in Ht. rewrite Ht.
    unfold bind. by split.
Qed.

(** An undecorated bound method [apply]; an undecorated bound method
    [commit]; a lambda; and a plain function that a [def commit(): ...]
    statement created. *)
Definition sample_bound : CommitObj := BoundMethod "apply" [[Work 5]].
Definition overriding_bound : CommitObj := BoundMethod "commit" [[Work 6]].
Definition sample_lambda : CommitObj := Function "<lambda>" [Work 8].
Definition def_function : CommitObj := Function "commit" [Work 7].

(** A widget class whose base decorates [commit], and one that decorates
    [commit] itself over a base with a plain [commit]. *)
Definition decorating_base (c : CommitObj) : Params :=
  mkParams "auto_commit" "Send" None None c None "OWChild"
    [mkClass "OWChild" ∅;
     mkClass "OWParent" {["commit" := DecoratedAttr]}].

Definition decorating_itself (c : CommitObj) : Params :=
  mkParams "auto_commit" "Send" None None c None "OWChild"
    [mkClass "OWChild" {["commit" := DecoratedAttr]};
     mkClass "OWParent" {["commit" := PlainAttr]}].

Lemma auto_commit_rebinds_witness :
  (exists w',
     auto_commit (decorating_base sample_bound) (sample_master false)
     = Normal w'
     /\ attrs w' !! "unconditional_apply" = Some (VCommit sample_bound)
     /\ attrs w' !! "apply"
        = Some (VConditional (setup_of (decorating_base sample_bound)
                                (sample_master false)))
     /\ call_attr "apply" w'
        = conditional_commit (setup_of (decorating_base sample_bound)
                                (sample_master false)) w')
  /\ (exists msg,
        auto_commit (decorating_base overriding_bound) (sample_master false)
        = Raised (RuntimeError msg)
            (with_btn "Send" true (sample_master false)))
  /\ (exists w',
        auto_commit (decorating_base sample_lambda) (sample_master false)
        = Normal w'
        /\ attrs w' !! "unconditional__lambda_1"
           = Some (VCommit sample_lambda))
  /\ (exists msg w',
        auto_commit (decorating_itself overriding_bound) (sample_master false)
        = Raised (ValueError msg) w'
        /\ attrs w' !! "commit" = None).
Proof.
  pose proof (auto_commit_rebinds (decorating_base sample_bound)
                (sample_master false) eq_refl) as (_ & _ & Hok & _).
  pose proof (auto_commit_rebinds (decorating_base overriding_bound)
                (sample_master false) eq_refl) as (_ & _ & _ & Hraise & _).
  pose proof (auto_commit_rebinds (decorating_base sample_lambda)
                (sample_master false) eq_refl) as (_ & _ & Hlam & _).
  pose proof (auto_commit_rebinds (decorating_itself overriding_bound)
                (sample_master false) eq_refl) as (_ & _ & _ & _ & Hblock).
  cbv zeta in *.
  split; [|split; [|split]].
  - apply (Hok (with_btn "Send" true (sample_master false)));
      [reflexivity| |reflexivity|reflexivity].
    right. split; [reflexivity|]. intros c Hc. simpl in Hc.
    apply list_elem_of_singleton in Hc as ->. simpl.
    by rewrite lookup_singleton_ne.
  - apply (Hraise (with_btn "Send" true (sample_master false))
             (mkClass "OWParent" {["commit" := DecoratedAttr]}));
      [reflexivity | reflexivity | simpl; apply list_elem_of_here
      | reflexivity].
  - destruct (Hlam (with_lambda_counter 1
                      (with_btn "Send" true (sample_master false))))
      as (w' & Hrun & Hu & _);
      [reflexivity|by left|reflexivity|reflexivity|].
    exists w'. split; [exact Hrun | exact Hu].
  - destruct (Hblock (with_btn "Send" true (sample_master false)))
      as (msg & w' & Hrun & Hattrs); [reflexivity| |by right|].
    + right. split; [reflexivity|]. intros c Hc. simpl in Hc.
      apply list_elem_of_singleton in Hc as ->. simpl.
      rewrite lookup_singleton_eq. discriminate.
    + exists msg, w'. split; [exact Hrun|].
      etransitivity; [exact Hattrs | reflexivity].
Defined.

(** The claim as stated fails for a bound method [commit] handed to
    [auto_commit] on a widget whose own class decorates [commit]: no class
    after the first in the MRO defines a decorated [commit], so the claim
    has [commit] rebound; but the assignment meets the decorated method of
    the class, whose [__set__] raises [ValueError], and [commit] is not
    rebound. *)
Lemma auto_commit_own_decorated_counterexample :
  decorated (setup_of (decorating_itself overriding_bound)
               (sample_master false)) = false
  /\ (forall c, c ∈ tail (p_mro (decorating_itself overriding_bound)) ->
        cls_dict c !! "commit" <> Some DecoratedAttr)
  /\ exists msg,
       auto_commit (decorating_itself overriding_bound) (sample_master false)
       = Raised (ValueError msg)
           (with_attrs (insert "unconditional_commit"
                          (VCommit overriding_bound))
              (log (EWarn (decorate_warning
                             (decorating_itself overriding_bound) "commit"))
                 (with_btn "Send" true (sample_master false))))
       /\ attrs (state_of (auto_commit (decorating_itself overriding_bound)
                             (sample_master false))) !! "commit" = None.
Proof.
  split; [reflexivity|]. split.
  - intros c Hc. simpl in Hc. apply list_elem_of_singleton in Hc as ->.
    simpl. rewrite lookup_singleton_eq. discriminate.
  - eexists. split; [vm_compute; reflexivity | reflexivity].
Qed.

(** A plain function created by [def] is a [LambdaType] too: it is given a
    generated name, and the check against a decorated method of its own
    name in a base class is skipped. *)
Lemma def_function_named_like_lambda :
  dunder_name def_function = "commit"
  /\ mkClass "OWParent" {["commit" := DecoratedAttr]}
     ∈ tail (p_mro (decorating_base def_function))
  /\ returns (auto_commit (decorating_base def_function) (sample_master false))
     = true
  /\ attrs (state_of (auto_commit (decorating_base def_function)
                        (sample_master false))) !! "commit" = None
  /\ attrs (state_of (auto_commit (decorating_base def_function)
                        (sample_master false))) !! "_lambda_1"
     = Some (VConditional (setup_of (decorating_base def_function)
                             (sample_master false))).
Proof.
  split; [reflexivity|]. split; [simpl; apply list_elem_of_here|].
  split; [reflexivity|]. split; reflexivity.
Qed.

End CommitFacts.

Module DisableFacts.
Import Disable.

#[local] Instance Entry_eq_dec : EqDecision Entry.
Proof. solve_decision. Defined.

Lemma is_enabled_setDisabled i b w :
  is_Some (widgets w !! i) -> is_enabled (setDisabled i b w) i = Some (negb b).
Proof.
  intros [x Hx]. unfold is_enabled, setDisabled. simpl.
  by rewrite lookup_alter_eq, Hx.
Qed.

Lemma widgets_setDisabled_ne i j b w :
  i <> j -> widgets (setDisabled i b w) !! j = widgets w !! j.
Proof. intros H. unfold setDisabled. simpl. by rewrite lookup_alter_ne. Qed.

Lemma is_Some_setDisabled i j b w :
  is_Some (widgets (setDisabled i b w) !! j) <-> is_Some (widgets w !! j).
Proof.
  unfold setDisabled. simpl. destruct (decide (i = j)) as [->|Hne].
  - rewrite lookup_alter_eq. by rewrite fmap_is_Some.
  - by rewrite lookup_alter_ne.
Qed.

(** The part of the consistency rule that the loop does enforce: over a
    list of plain widgets every widget ends up disabled exactly when the
    local [disabled] says so, and no other widget changes. *)
Lemma loop_plain recurse entries disabled w :
  Forall (fun e => exists i, e = Plain i) entries ->
  exists w',
    loop recurse DISABLER entries disabled w = Some (Normal w')
    /\ (forall i, Plain i ∈ entries -> is_Some (widgets w !! i) ->
          is_enabled w' i = Some (negb disabled))
    /\ (forall i, Plain i ∉ entries -> widgets w' !! i = widgets w !! i).
Proof.
  intros Hall. revert w.
  induction Hall as [|e rest [i ->] _ IH]; intros w.
  - exists w. split; [done|]. split; [|done].
    intros i Hi. by apply elem_of_nil in Hi.
  - simpl. unfold apply_type. rewrite decide_True by done.
    destruct (IH (setDisabled i disabled w)) as (w' & Hrun & Hin & Hout).
    exists w'. split; [done|]. split.
    + intros j Hj Hsome.
      destruct (decide (Plain j ∈ rest)) as [Hr|Hr].
      * apply Hin; [done|]. by apply is_Some_setDisabled.
      * apply elem_of_cons in Hj as [[= ->]|Hj]; [|done].
        unfold is_enabled. rewrite (Hout _ Hr).
        by apply is_enabled_setDisabled.
    + intros j Hj. apply not_elem_of_cons in Hj as [Hne Hr].
      rewrite (Hout _ Hr). apply widgets_setDisabled_ne. congruence.
Qed.

(** A check box [0] whose [disables] holds an inverted entry for widget [1]
    followed by the plain widget [2]; widget [3] is a nested check box that
    is listed as a plain entry of check box [4] and disables widget [5]. *)
Definition cbox_disabler : Disabler := mkDisabler 0 "flag" true DISABLER.
Definition nested_disabler : Disabler := mkDisabler 3 "inner" true DISABLER.
Definition outer_disabler : Disabler := mkDisabler 4 "flag" true DISABLER.

Definition disabler_world (cbox_enabled : bool) : World :=
  mkWorld
    (<[0%nat := mkWidget cbox_enabled true [TupleInt (-1) 1; Plain 2]
                  (Some cbox_disabler)]>
     (<[1%nat := mkWidget true true [] None]>
     (<[2%nat := mkWidget true true [] None]>
     (<[3%nat := mkWidget true true [Plain 5] (Some nested_disabler)]>
     (<[4%nat := mkWidget true true [Plain 3] (Some outer_disabler)]>
     (<[5%nat := mkWidget true true [] None]> ∅))))))
    (<["flag" := PBool false]> (<["inner" := PBool true]> ∅)).

(** C9 at the failing inputs.  With the check box enabled and the toggle
    argument true, the inverted entry disables widget [1] and the reassigned
    local [disabled] then disables the plain widget [2] as well, although the
    controlling value is true.  With the check box disabled, the inverted
    entry enables widget [1].  And a plain entry that has a [makeConsistent]
    attribute is disabled without that attribute being called: widget [5]
    stays enabled under the disabled nested check box [3]. *)
Theorem Disabler_inversion_leaks :
  (exists w',
     Disabler_call 2 cbox_disabler (Some (PBool true)) (disabler_world true)
     = Some (Normal w')
     /\ is_enabled w' 1 = Some false
     /\ is_enabled w' 2 = Some false)
  /\ (exists w',
        Disabler_call 2 cbox_disabler (Some (PBool true)) (disabler_world false)
        = Some (Normal w')
        /\ is_enabled w' 1 = Some true)
  /\ (exists w',
        Disabler_call 2 outer_disabler None (disabler_world true)
        = Some (Normal w')
        /\ is_enabled w' 3 = Some false
        /\ is_enabled w' 5 = Some true).
Proof.
  split; [|split]; eexists; (split; [vm_compute; reflexivity|]);
    repeat split; vm_compute; reflexivity.
Qed.

End DisableFacts.

Module BindingFacts.
Import Binding.

(** The part of the store that holds the [disabled] counters. *)
Definition mech (w : World) :=
  (cbacks w, funcs w, fronts w).

Lemma add_disabled_all_cons k op ops w :
  add_disabled_all k (op :: ops) w = add_disabled_all k ops (add_disabled k op w).
Proof. done. Qed.

Lemma add_disabled_comm k k' c c' w :
  add_disabled k c (add_disabled k' c' w)
  = add_disabled k' c' (add_disabled k c w).
Proof.
  destruct c as [f|b|g|u], c' as [f'|b'|g'|u']; try reflexivity;
    unfold add_disabled, with_cbacks, with_funcs, with_fronts; simpl; f_equal.
  - destruct (decide (f = f')) as [->|Hne]; [|by apply alter_alter_ne].
    rewrite !alter_alter_eq. apply alter_ext. intros x _. simpl.
    f_equal. lia.
  - destruct (decide (b = b')) as [->|Hne]; [|by apply alter_alter_ne].
    rewrite !alter_alter_eq. apply alter_ext. intros x _. simpl.
    f_equal. lia.
  - destruct (decide (g = g')) as [->|Hne]; [|by apply alter_alter_ne].
    rewrite !alter_alter_eq. apply alter_ext. intros x _. simpl.
    f_equal. lia.
Qed.

Lemma add_disabled_cancel c w : add_disabled (-1) c (add_disabled 1 c w) = w.
Proof.
  destruct w, c as [f|b|g|u];
    unfold add_disabled, with_cbacks, with_funcs, with_fronts; simpl;
    f_equal; rewrite alter_alter_eq; apply alter_id;
    intros [] _; simpl; f_equal; lia.
Qed.

Lemma add_disabled_all_comm k k' c ops w :
  add_disabled k c (add_disabled_all k' ops w)
  = add_disabled_all k' ops (add_disabled k c w).
Proof.
  revert w. induction ops as [|op ops IH]; intros w; [done|].
  rewrite !add_disabled_all_cons, IH. f_equal. apply add_disabled_comm.
Qed.

Lemma add_disabled_all_cancel ops w :
  add_disabled_all (-1) ops (add_disabled_all 1 ops w) = w.
Proof.
  revert w. induction ops as [|op ops IH]; intros w; [done|].
  rewrite !add_disabled_all_cons, <- add_disabled_all_comm, IH.
  apply add_disabled_cancel.
Qed.

Lemma mech_add_disabled k c w w' :
  mech w = mech w' -> mech (add_disabled k c w) = mech (add_disabled k c w').
Proof.
  unfold mech. intros [= H1 H2 H3].
  destruct c; simpl; by rewrite ?H1, ?H2, ?H3.
Qed.

Lemma mech_add_disabled_all k ops w w' :
  mech w = mech w' ->
  mech (add_disabled_all k ops w) = mech (add_disabled_all k ops w').
Proof.
  revert w w'. induction ops as [|op ops IH]; intros w w' H; [done|].
  rewrite !add_disabled_all_cons. by apply IH, mech_add_disabled.
Qed.

Lemma mech_try_finally_run body fin w0 out :
  (forall out', body = Some out' -> mech (state_of out') = mech w0) ->
  try_finally_run body fin = Some out ->
  exists s, mech s = mech w0 /\ state_of out = fin s.
Proof.
  intros Hb. unfold try_finally_run. destruct body as [o|]; [|done].
  intros [= <-]. exists (state_of o). split; [by apply Hb|].
  apply state_of_try_finally.
Qed.

Section Preserve.
Variable h : Host.
Variable callf : Callable -> Value -> World -> Run.
Hypothesis callf_mech : forall c v w out,
  callf c v w = Some out -> mech (state_of out) = mech w.

Lemma call_all_mech cs v w out :
  call_all callf cs v w = Some out -> mech (state_of out) = mech w.
Proof.
  revert w. induction cs as [|c rest IH]; intros w; simpl.
  - by intros [= <-].
  - destruct (callf c v w) as [[w'|e w']|] eqn:E; [| |done].
    + intros H. rewrite (IH _ H). apply (callf_mech _ _ _ _ E).
    + intros [= <-]. apply (callf_mech _ _ _ _ E).
Qed.

Lemma user_call_mech u arg w : mech (state_of (user_call h u arg w)) = mech w.
Proof. unfold user_call. by destruct (user_raises h u). Qed.

Lemma call_users_mech us w : mech (state_of (call_users h us w)) = mech w.
Proof.
  revert w. induction us as [|u rest IH]; intros w; simpl; [done|].
  pose proof (user_call_mech u None w) as Hu.
  destruct (user_call h u None w) as [w'|e w']; simpl in *; [|done].
  by rewrite IH.
Qed.

Lemma control_set_mech c x w out :
  control_set h callf c x w = Some out -> mech (state_of out) = mech w.
Proof.
  unfold control_set. destruct (controls w !! c) as [ctl|]; [|by intros [= <-]].
  destruct (emits h (shown ctl) x) as [arg|]; [|by intros [= <-]].
  intros H. by rewrite (call_all_mech _ _ _ _ H).
Qed.

Lemma run_action_mech f fr v w out :
  run_action h callf f fr v w = Some out -> mech (state_of out) = mech w.
Proof.
  unfold run_action. destruct (action_of (kind fr) v) as [|e|x].
  - by intros [= <-].
  - by intros [= <-].
  - intros H. by rewrite (control_set_mech _ _ _ _ H).
Qed.

Lemma ControlledCallFront__call__mech f v w out :
  ControlledCallFront__call__ h callf f v w = Some out ->
  mech (state_of out) = mech w.
Proof.
  unfold ControlledCallFront__call__.
  destruct (fronts w !! f) as [fr|]; [|by intros [= <-]].
  case_decide; [|by intros [= <-]].
  destruct (cf_opposite fr) as [[|op ops]|]; try apply run_action_mech.
  intros Hrun.
  apply (mech_try_finally_run _ _ (add_disabled_all 1 (op :: ops) w)) in Hrun
    as (s & Hs & ->); [|apply run_action_mech].
  rewrite (mech_add_disabled_all _ _ _ _ Hs).
  by rewrite add_disabled_all_cancel.
Qed.

Lemma store_then_call_mech o c name v w out :
  match controlled_attributes c with
  | Some reg =>
      call_all callf (default [] (reg !! name)) v (store_attr o c name v w)
  | None => Some (Normal (store_attr o c name v w))
  end = Some out ->
  mech (state_of out) = mech w.
Proof.
  destruct (controlled_attributes c) as [reg|].
  - intros Hrun. by rewrite (call_all_mech _ _ _ _ Hrun).
  - by intros [= <-].
Qed.

Lemma OWComponent__setattr__from_mech n o name v w out :
  OWComponent__setattr__from callf n o name v w = Some out ->
  mech (state_of out) = mech w.
Proof.
  revert o name. induction n as [|n IH]; intros o name; simpl.
  - destruct (objs w !! o) as [[c|items]|]; try (by intros [= <-]).
    destruct (split_dot name) as [[head rest]|];
      [|apply store_then_call_mech].
    destruct (attrs c !! head) as [[p|sub]|]; by intros [= <-].
  - destruct (objs w !! o) as [[c|items]|]; try (by intros [= <-]).
    destruct (split_dot name) as [[head rest]|];
      [|apply store_then_call_mech].
    destruct (attrs c !! head) as [[p|sub]|]; try (by intros [= <-]).
    apply IH.
Qed.

Lemma acyclic_setattr_mech b v w out :
  acyclic_setattr h callf b v w = Some out -> mech (state_of out) = mech w.
Proof.
  unfold acyclic_setattr.
  destruct (cbacks w !! b) as [cb|]; [|by intros [= <-]].
  case_decide; [|by intros [= <-]].
  destruct (convert h (func cb) v) as [e|v']; [by intros [= <-]|].
  destruct (cb_opposite cb) as [f|]; [|by intros [= <-]].
  intros Hrun.
  apply (mech_try_finally_run _ _ (add_disabled 1 (CFront f) w)) in Hrun
    as (s & Hs & ->).
  - rewrite (mech_add_disabled _ _ _ _ Hs). by rewrite add_disabled_cancel.
  - intros out'.
    destruct (objs _ !! cb_widget cb) as [[c|items]|].
    + intros H'. unfold OWComponent__setattr__ in H'.
      by rewrite (OWComponent__setattr__from_mech _ _ _ _ _ _ H').
    + by intros [= <-].
    + intros H'. unfold OWComponent__setattr__ in H'.
      by rewrite (OWComponent__setattr__from_mech _ _ _ _ _ _ H').
Qed.

Lemma call_step_mech c v w out :
  call_step h callf c v w = Some out -> mech (state_of out) = mech w.
Proof.
  destruct c as [f|b|g|u]; simpl.
  - apply ControlledCallFront__call__mech.
  - unfold ValueCallback__call__. destruct (is_None v); [by intros [= <-]|].
    apply acyclic_setattr_mech.
  - unfold FunctionCallback__call__.
    destruct (funcs w !! g) as [fc|]; [|by intros [= <-]].
    case_decide; [|by intros [= <-]].
    intros [= <-]. apply call_users_mech.
  - intros [= <-]. apply user_call_mech.
Qed.
End Preserve.

(** Whatever a call does, and whether it returns or raises, the call-backs,
    function call-backs and call fronts are afterwards what they were before:
    every [disabled] counter is back at its value. *)
Lemma call_mech h fuel c v w out :
  call h fuel c v w = Some out -> mech (state_of out) = mech w.
Proof.
  revert c v w out. induction fuel as [|n IH]; intros c v w out; [done|].
  simpl. by apply call_step_mech.
Qed.

(** A call-back, function call-back or call front whose [disabled] counter
    is not zero does nothing. *)
Lemma disabled_back_noop h n b cb v w :
  cbacks w !! b = Some cb -> cb_disabled cb <> 0 ->
  call h (S n) (CBack b) v w = Some (Normal w).
Proof.
  intros Hb Hd. simpl. unfold ValueCallback__call__, acyclic_setattr.
  destruct (is_None v); [done|]. rewrite Hb. by rewrite decide_False.
Qed.

Lemma disabled_func_noop h n g fc v w :
  funcs w !! g = Some fc -> fc_disabled fc <> 0 ->
  call h (S n) (CFunc g) v w = Some (Normal w).
Proof.
  intros Hg Hd. simpl. unfold FunctionCallback__call__. rewrite Hg.
  by rewrite decide_False.
Qed.

Lemma disabled_front_noop h n f fr v w :
  fronts w !! f = Some fr -> cf_disabled fr <> 0 ->
  call h (S n) (CFront f) v w = Some (Normal w).
Proof.
  intros Hf Hd. simpl. unfold ControlledCallFront__call__. rewrite Hf.
  by rewrite decide_False.
Qed.

(** *** One binding

    [Bound w o value c fr b g]: in the store [w] the attribute [value] of
    the component [o] is bound to the control [c] through the call front
    [fr], the value call-back [b] and, when [g] is given, the function
    call-back [g], wired as [connectControl] wires them. *)
Record Bound (w : World) (o : nat) (value : string) (c fr b : nat)
    (g : option nat) : Prop := mkBound {
  bd_nodot : split_dot value = None;
  bd_master : exists comp reg,
    objs w !! o = Some (Comp comp)
    /\ controlled_attributes comp = Some reg
    /\ reg !! value = Some [CFront fr];
  bd_cback : exists cb,
    cbacks w !! b = Some cb
    /\ cb_widget cb = o /\ attribute cb = value /\ cb_opposite cb = Some fr
    /\ 0 <= cb_disabled cb;
  bd_front : exists front,
    fronts w !! fr = Some front
    /\ control front = c
    /\ cf_opposite front
       = match g with Some g => Some [CBack b; CFunc g] | None => None end
    /\ 0 <= cf_disabled front;
  bd_control : exists ctl,
    controls w !! c = Some ctl
    /\ slots ctl = CBack b :: match g with Some g => [CFunc g] | None => [] end;
  bd_cfunc : forall g', g = Some g' ->
    exists fc, funcs w !! g' = Some fc /\ 0 <= fc_disabled fc
}.

Lemma add_disabled_all_log k ops e w :
  add_disabled_all k ops (log e w) = log e (add_disabled_all k ops w).
Proof.
  revert w. induction ops as [|op ops IH]; intros w; [done|].
  rewrite !add_disabled_all_cons, <- IH. f_equal. by destruct op.
Qed.

Lemma add_disabled_all_with_controls k ops f w :
  add_disabled_all k ops (with_controls f w)
  = with_controls f (add_disabled_all k ops w).
Proof.
  revert w. induction ops as [|op ops IH]; intros w; [done|].
  rewrite !add_disabled_all_cons, <- IH. f_equal. by destruct op.
Qed.

Lemma add_disabled_all_with_objs k ops f w :
  add_disabled_all k ops (with_objs f w)
  = with_objs f (add_disabled_all k ops w).
Proof.
  revert w. induction ops as [|op ops IH]; intros w; [done|].
  rewrite !add_disabled_all_cons, <- IH. f_equal. by destruct op.
Qed.

Lemma controls_add_disabled_all k ops w :
  controls (add_disabled_all k ops w) = controls w.
Proof.
  revert w. induction ops as [|op ops IH]; intros w; [done|].
  rewrite add_disabled_all_cons, IH. by destruct op.
Qed.

Lemma objs_add_disabled_all k ops w :
  objs (add_disabled_all k ops w) = objs w.
Proof.
  revert w. induction ops as [|op ops IH]; intros w; [done|].
  rewrite add_disabled_all_cons, IH. by destruct op.
Qed.

(** What a call front leaves behind when nothing answers its control. *)
Definition front_outcome (fr : nat) (k : FrontKind) (c : nat) (ctl : Control)
    (v : Value) (w : World) : Outcome World :=
  match action_of k v with
  | ASkip => Normal (log (EAction fr v) w)
  | ARaise e => Raised e (log (EAction fr v) w)
  | ASet x =>
      Normal (with_controls (insert c (mkControl x (slots ctl)))
                (log (EAction fr v) w))
  end.

(** A binding with a function call-back: while the call front's action
    runs, both call-backs are disabled, so the call leaves nothing but the
    control's new value. *)
Lemma try_finally_run_Some o fin :
  try_finally_run (Some o) fin = Some (try_finally o fin).
Proof. done. Qed.

Lemma front_call_with_cfunc h n w o value c fr b g front ctl v :
  Bound w o value c fr b (Some g) ->
  fronts w !! fr = Some front -> controls w !! c = Some ctl ->
  cf_disabled front = 0 ->
  call h (S (S n)) (CFront fr) v w
  = Some (front_outcome fr (kind front) c ctl v w).
Proof.
  intros [_ _ (cb & Hcb & _ & _ & _ & Hcbd) (front' & Hfr' & Hc & Hop & _)
            (ctl' & Hctl' & Hslots) Hfunc] Hfr Hctl Hd.
  destruct (Hfunc g eq_refl) as (fc & Hfc & Hfcd).
  rewrite Hfr in Hfr'. injection Hfr' as <-.
  rewrite Hctl in Hctl'. injection Hctl' as <-.
  change (call h (S (S n)) (CFront fr) v w)
    with (ControlledCallFront__call__ h (call h (S n)) fr v w).
  unfold ControlledCallFront__call__. rewrite Hfr, Hd, Hop.
  rewrite decide_True by done.
  unfold run_action, front_outcome.
  destruct (action_of (kind front) v) as [|e|x].
  - rewrite try_finally_run_Some. cbn [try_finally].
    by rewrite add_disabled_all_log, add_disabled_all_cancel.
  - rewrite try_finally_run_Some. cbn [try_finally].
    by rewrite add_disabled_all_log, add_disabled_all_cancel.
  - unfold control_set. rewrite Hc.
    change (controls (log (EAction fr v) ?x)) with (controls x).
    rewrite controls_add_disabled_all, Hctl, Hslots.
    set (w2 := with_controls _ _).
    assert (try_finally_run (Some (Normal w2))
              (add_disabled_all (-1) [CBack b; CFunc g])
            = Some (Normal (with_controls (insert c (mkControl x [CBack b; CFunc g]))
                              (log (EAction fr v) w)))) as Hdone.
    { unfold w2. rewrite try_finally_run_Some. cbn [try_finally].
      by rewrite add_disabled_all_with_controls, add_disabled_all_log,
        add_disabled_all_cancel. }
    destruct (emits h (shown ctl) x) as [arg|]; [|exact Hdone].
    rewrite <- Hdone. f_equal.
    cbn [call_all].
    rewrite (disabled_back_noop h n b
               (mkCallback (cb_widget cb) (attribute cb) (func cb)
                  (cb_disabled cb + 1) (cb_opposite cb))).
    + rewrite (disabled_func_noop h n g
                 (mkFunctionCallback (fc_master fc) (fc_func fc)
                    (fc_disabled fc + 1))); [done| |simpl; lia].
      unfold w2. simpl. by rewrite lookup_alter_eq, Hfc.
    + unfold w2. simpl. by rewrite lookup_alter_eq, Hcb.
    + simpl. lia.
Qed.

Lemma setattr_simple callf n o name v w c :
  split_dot name = None -> objs w !! o = Some (Comp c) ->
  OWComponent__setattr__from callf n o name v w
  = match controlled_attributes c with
    | Some reg =>
        call_all callf (default [] (reg !! name)) v (store_attr o c name v w)
    | None => Some (Normal (store_attr o c name v w))
    end.
Proof. intros Hdot Ho. destruct n; simpl; by rewrite Ho, Hdot. Qed.

Lemma add_disabled_as_all k c w :
  add_disabled k c w = add_disabled_all k [c] w.
Proof. done. Qed.

(** A value call-back that is not disabled assigns the converted value
    while its call front is disabled: the call leaves the new attribute
    value and nothing else, the call front's action does not run. *)
Lemma back_call h n w o value c fr b g cb comp v v' :
  Bound w o value c fr b g ->
  cbacks w !! b = Some cb -> objs w !! o = Some (Comp comp) ->
  cb_disabled cb = 0 -> is_None v = false ->
  convert h (func cb) v = inr v' ->
  call h (S (S n)) (CBack b) v w
  = Some (Normal (store_attr o comp value v' (log (ESet b v') w))).
Proof.
  intros [Hdot (comp' & reg & Ho' & Hreg & Hregv)
            (cb' & Hcb' & Hw & Ha & Hop & _)
            (front & Hfr & _ & _ & Hfd) _ _] Hcb Ho Hd Hv Hconv.
  rewrite Ho in Ho'. injection Ho' as <-.
  rewrite Hcb in Hcb'. injection Hcb' as <-.
  change (call h (S (S n)) (CBack b) v w)
    with (ValueCallback__call__ h (call h (S n)) b v w).
  unfold ValueCallback__call__, acyclic_setattr.
  rewrite Hv, Hcb, Hd, Hconv, Hop, Hw, Ha. rewrite decide_True by done.
  set (w1 := log (ESet b v') (add_disabled 1 (CFront fr) w)).
  assert (objs w1 !! o = Some (Comp comp)) as Ho1 by done.
  rewrite Ho1. unfold OWComponent__setattr__.
  rewrite (setattr_simple _ _ _ _ _ _ comp Hdot Ho1), Hreg, Hregv.
  change (default [] (Some [CFront fr])) with [CFront fr]. cbn [call_all].
  rewrite (disabled_front_noop h n fr
             (mkFront (control front) (cf_disabled front + 1)
                (cf_opposite front) (kind front))).
  - rewrite try_finally_run_Some. cbn [try_finally]. unfold w1, store_attr.
    rewrite !add_disabled_as_all, add_disabled_all_with_objs,
      add_disabled_all_log, add_disabled_all_cancel. done.
  - unfold w1. simpl. by rewrite lookup_alter_eq, Hfr.
  - simpl. lia.
Qed.

Lemma Bound_log e w o value c fr b g :
  Bound w o value c fr b g -> Bound (log e w) o value c fr b g.
Proof. intros []. by constructor. Qed.

Lemma Bound_set_shown x ctl w o value c fr b g :
  Bound w o value c fr b g -> controls w !! c = Some ctl ->
  Bound (with_controls (insert c (mkControl x (slots ctl))) w) o value c fr b g.
Proof.
  intros [? ? ? ? (ctl' & Hctl' & Hslots) ?] Hctl. constructor; try done.
  rewrite Hctl in Hctl'. injection Hctl' as <-.
  eexists. split; [apply lookup_insert_eq | done].
Qed.

Lemma Bound_store_attr name v comp w o value c fr b g :
  Bound w o value c fr b g -> objs w !! o = Some (Comp comp) ->
  Bound (store_attr o comp name v w) o value c fr b g.
Proof.
  intros [? (comp' & reg & Ho' & Hreg & Hregv) ? ? ? ?] Ho.
  constructor; try done.
  rewrite Ho in Ho'. injection Ho' as <-.
  eexists _, reg. split; [apply lookup_insert_eq | done].
Qed.

(** What the value call-back does when the control's signal reaches it in
    the store [w]. *)
Definition slot_outcome (h : Host) (o : nat) (comp : Component)
    (value : string) (b : nat) (cb : ControlledCallback) (arg : Value)
    (w : World) : Outcome World :=
  if is_None arg then Normal w
  else if decide (cb_disabled cb = 0)
  then match convert h (func cb) arg with
       | inl e => Raised e w
       | inr v' => Normal (store_attr o comp value v' (log (ESet b v') w))
       end
  else Normal w.

Lemma slot_call h n w o value c fr b g cb comp arg :
  Bound w o value c fr b g ->
  cbacks w !! b = Some cb -> objs w !! o = Some (Comp comp) ->
  call h (S (S n)) (CBack b) arg w
  = Some (slot_outcome h o comp value b cb arg w).
Proof.
  intros HB Hcb Ho. unfold slot_outcome.
  destruct (is_None arg) eqn:Harg.
  { simpl. unfold ValueCallback__call__. by rewrite Harg. }
  case_decide as Hd; [|by apply (disabled_back_noop h (S n) b cb)].
  destruct (convert h (func cb) arg) as [e|v'] eqn:Hconv.
  - simpl. unfold ValueCallback__call__, acyclic_setattr.
    rewrite Harg, Hcb, Hd, Hconv. by rewrite decide_True.
  - by apply (back_call h n w o value c fr b g cb comp arg v').
Qed.

(** A binding without a function call-back: the call front has no
    opposite, so when its control emits, the value call-back runs once,
    with the call front disabled. *)
Lemma front_call_without_cfunc h n w o value c fr b front ctl cb comp v :
  Bound w o value c fr b None ->
  fronts w !! fr = Some front -> controls w !! c = Some ctl ->
  cbacks w !! b = Some cb -> objs w !! o = Some (Comp comp) ->
  cf_disabled front = 0 ->
  call h (S (S (S n))) (CFront fr) v w
  = Some
      match action_of (kind front) v with
      | ASkip => Normal (log (EAction fr v) w)
      | ARaise e => Raised e (log (EAction fr v) w)
      | ASet x =>
          let w2 := with_controls (insert c (mkControl x (slots ctl)))
                      (log (EAction fr v) w) in
          match emits h (shown ctl) x with
          | Some arg => slot_outcome h o comp value b cb arg w2
          | None => Normal w2
          end
      end.
Proof.
  intros HB Hfr Hctl Hcb Ho Hd.
  pose proof HB as [_ _ _ (front' & Hfr' & Hc & Hop & _)
                      (ctl' & Hctl' & Hslots) _].
  rewrite Hfr in Hfr'. injection Hfr' as <-.
  rewrite Hctl in Hctl'. injection Hctl' as <-.
  change (call h (S (S (S n))) (CFront fr) v w)
    with (ControlledCallFront__call__ h (call h (S (S n))) fr v w).
  unfold ControlledCallFront__call__. rewrite Hfr, Hd, Hop.
  rewrite decide_True by done.
  unfold run_action.
  destruct (action_of (kind front) v) as [|e|x]; [done..|].
  unfold control_set. rewrite Hc.
  change (controls (log (EAction fr v) w)) with (controls w).
  rewrite Hctl. cbv zeta.
  destruct (emits h (shown ctl) x) as [arg|]; [|done].
  rewrite Hslots. cbn [call_all].
  rewrite (slot_call h n _ o value c fr b None cb comp arg).
  - rewrite <- Hslots. by destruct (slot_outcome _ _ _ _ _ _ _ _).
  - rewrite <- Hslots. apply Bound_set_shown; [by apply Bound_log | done].
  - done.
  - done.
Qed.

Lemma connect_control_simple n o name fn w c reg :
  split_dot name = None -> objs w !! o = Some (Comp c) ->
  controlled_attributes c = Some reg ->
  connect_control_from n o name fn w
  = Normal (with_objs (insert o
      (Comp (mkComponent (attrs c)
               (Some (<[name := default [] (reg !! name) ++ [fn]]> reg))
               (callbackDeposit c)))) w).
Proof. intros Hdot Ho Hreg. destruct n; simpl; by rewrite Ho, Hdot, Hreg. Qed.

(** [connectControl] establishes the binding. *)
Lemma connectControl_Bound master value f c fr fvcb w0 comp0 reg0 front0 ctl0 :
  split_dot value = None -> nonempty value = true ->
  objs w0 !! master = Some (Comp comp0) ->
  controlled_attributes comp0 = Some reg0 -> reg0 !! value = None ->
  fronts w0 !! fr = Some front0 -> control front0 = c ->
  cf_opposite front0 = None -> 0 <= cf_disabled front0 ->
  controls w0 !! c = Some ctl0 -> slots ctl0 = [] ->
  exists w,
    connectControl master value f (Some c) (Some fr) None None fvcb w0
    = inr ((Some fr, Some (next_id w0),
            match f with [] => None | _ => Some (S (next_id w0)) end), w)
    /\ Bound w master value c fr (next_id w0)
         (match f with [] => None | _ => Some (S (next_id w0)) end)
    /\ (func <$> cbacks w !! next_id w0) = Some fvcb
    /\ registered w master value = [CFront fr].
Proof.
  intros Hdot Hne Ho Hreg Hregv Hfr Hc Hop Hfd Hctl Hslots.
  unfold connectControl. rewrite Hne.
  unfold ControlledCallback__init__, alloc. simpl.
  rewrite Ho. simpl.
  unfold connect_control.
  erewrite connect_control_simple;
    [|exact Hdot|simpl; apply lookup_insert_eq|exact Hreg].
  rewrite Hregv. simpl.
  destruct f as [|u us].
  - eexists. split; [reflexivity|]. split; [|split].
    + constructor; simpl.
      * done.
      * eexists _, _. rewrite lookup_insert_eq. split; [done|]. simpl.
        split; [done|]. by rewrite lookup_insert_eq.
      * eexists. rewrite lookup_alter_eq, lookup_insert_eq. simpl.
        split; [done|]. done.
      * exists front0. done.
      * eexists. rewrite lookup_alter_eq, Hctl. simpl. split; [done|].
        by rewrite Hslots.
      * done.
    + simpl. by rewrite lookup_alter_eq, lookup_insert_eq.
    + unfold registered. simpl. rewrite lookup_insert_eq. simpl.
      by rewrite lookup_insert_eq.
  - unfold FunctionCallback__init__, alloc. simpl.
    rewrite lookup_insert_eq. simpl.
    eexists. split; [reflexivity|]. split; [|split].
    + constructor; simpl.
      * done.
      * eexists _, _. rewrite lookup_insert_eq. split; [done|]. simpl.
        split; [done|]. by rewrite lookup_insert_eq.
      * eexists. rewrite lookup_alter_eq, lookup_insert_eq. simpl.
        split; [done|]. done.
      * eexists. rewrite lookup_alter_eq, Hfr. simpl. split; [done|].
        done.
      * eexists. rewrite lookup_alter_eq, lookup_alter_eq, Hctl. simpl.
        split; [done|]. by rewrite Hslots.
      * intros g' [= <-]. eexists. rewrite lookup_insert_eq. done.
    + simpl. by rewrite lookup_alter_eq, lookup_insert_eq.
    + unfold registered. simpl. rewrite lookup_insert_eq. simpl.
      by rewrite lookup_insert_eq.
Qed.

Lemma disabled_of_mech w w' c :
  mech w = mech w' -> disabled_of w c = disabled_of w' c.
Proof. unfold mech. intros [= H1 H2 H3]. destruct c; simpl; congruence. Qed.

Lemma disabled_noop h n c v w d :
  disabled_of w c = Some d -> d <> 0 -> call h (S n) c v w = Some (Normal w).
Proof.
  destruct c as [f|b|g|u]; simpl disabled_of; [| | |done].
  - destruct (fronts w !! f) as [fr|] eqn:E; [|done]. intros [= <-] Hd.
    by apply (disabled_front_noop h n f fr).
  - destruct (cbacks w !! b) as [cb|] eqn:E; [|done]. intros [= <-] Hd.
    by apply (disabled_back_noop h n b cb).
  - destruct (funcs w !! g) as [fc|] eqn:E; [|done]. intros [= <-] Hd.
    by apply (disabled_func_noop h n g fc).
Qed.

(** C1, as the code has it.  Whatever a call does, every [disabled] counter
    is afterwards what it was, also when the call raised; a callable whose
    counter is not zero does nothing.  [connectControl], given a call front
    and a value name without a dot and left to create the call-backs, wires
    a binding for an attribute and a control not connected before; in it a
    value call-back assigns the attribute with its call front disabled, so
    the call front's action does not run again.  With a call-back
    function the call front has [(cback, cfunc)] as opposite and keeps both
    disabled while its action runs, so its update of the control reaches
    neither; without one the call front has no opposite, and when its
    control emits, the value call-back runs once, with the call front
    disabled.  Each of these calls ends within three nested calls. *)
Theorem binding_avoids_feedback (h : Host) :
  (forall fuel c v w out,
     call h fuel c v w = Some out ->
     forall c', disabled_of (state_of out) c' = disabled_of w c')
  /\ (forall n c v w d,
        disabled_of w c = Some d -> d <> 0 ->
        call h (S n) c v w = Some (Normal w))
  /\ (forall master value f c fr fvcb w0 comp0 reg0 front0 ctl0,
        split_dot value = None -> nonempty value = true ->
        objs w0 !! master = Some (Comp comp0) ->
        controlled_attributes comp0 = Some reg0 -> reg0 !! value = None ->
        fronts w0 !! fr = Some front0 -> control front0 = c ->
        cf_opposite front0 = None -> 0 <= cf_disabled front0 ->
        controls w0 !! c = Some ctl0 -> slots ctl0 = [] ->
        exists w,
          connectControl master value f (Some c) (Some fr) None None fvcb w0
          = inr ((Some fr, Some (next_id w0),
                  match f with [] => None | _ => Some (S (next_id w0)) end), w)
          /\ Bound w master value c fr (next_id w0)
               (match f with [] => None | _ => Some (S (next_id w0)) end))
  /\ (forall n w o value c fr b g cb comp v,
        Bound w o value c fr b g ->
        cbacks w !! b = Some cb -> objs w !! o = Some (Comp comp) ->
        call h (S (S n)) (CBack b) v w
        = Some (if is_None v then Normal w
                else if decide (cb_disabled cb = 0)
                then match convert h (func cb) v with
                     | inl e => Raised e w
                     | inr v' =>
                         Normal (store_attr o comp value v'
                                   (log (ESet b v') w))
                     end
                else Normal w))
  /\ (forall n g fc v w,
        funcs w !! g = Some fc -> fc_disabled fc = 0 ->
        call h (S n) (CFunc g) v w = Some (call_users h (fc_func fc) w))
  /\ (forall n w o value c fr b g front ctl v,
        Bound w o value c fr b (Some g) ->
        fronts w !! fr = Some front -> controls w !! c = Some ctl ->
        cf_disabled front = 0 ->
        call h (S (S n)) (CFront fr) v w
        = Some (front_outcome fr (kind front) c ctl v w))
  /\ (forall n w o value c fr b front ctl cb comp v,
        Bound w o value c fr b None ->
        fronts w !! fr = Some front -> controls w !! c = Some ctl ->
        cbacks w !! b = Some cb -> objs w !! o = Some (Comp comp) ->
        cf_disabled front = 0 ->
        call h (S (S (S n))) (CFront fr) v w
        = Some
            match action_of (kind front) v with
            | ASkip => Normal (log (EAction fr v) w)
            | ARaise e => Raised e (log (EAction fr v) w)
            | ASet x =>
                let w2 := with_controls (insert c (mkControl x (slots ctl)))
                            (log (EAction fr v) w) in
                match emits h (shown ctl) x with
                | Some arg => slot_outcome h o comp value b cb arg w2
                | None => Normal w2
                end
            end).
Proof.
  split; [|split; [|split; [|split; [|split; [|split]]]]].
  - intros fuel c v w out Hrun c'.
    apply disabled_of_mech. by apply (call_mech h fuel c v).
  - apply disabled_noop.
  - intros master value f c fr fvcb w0 comp0 reg0 front0 ctl0
      Hdot Hne Ho Hreg Hregv Hfr Hc Hop Hfd Hctl Hslots.
    destruct (connectControl_Bound master value f c fr fvcb w0 comp0 reg0
                front0 ctl0 Hdot Hne Ho Hreg Hregv Hfr Hc Hop Hfd Hctl Hslots)
      as (w & Hrun & HB & _).
    by exists w.
  - intros n w o value c fr b g cb comp v. apply slot_call.
  - intros n g fc v w Hg Hd. simpl. unfold FunctionCallback__call__.
    rewrite Hg. by rewrite decide_True.
  - apply front_call_with_cfunc.
  - apply front_call_without_cfunc.
Qed.

(** A component with the attribute [x], and a slider with its call front,
    before [connectControl] runs. *)
Definition sample_component : Component :=
  mkComponent {["x" := Val (PInt 1)]} (Some ∅) None.

Definition unbound_world : World :=
  mkWorld {[0%nat := Comp sample_component]} ∅ ∅
    {[2%nat := mkFront 1 0 None KSpin]}
    {[1%nat := mkControl (Val (PInt 1)) []]} 3 [].

(** The two stores that [connectControl] makes of it, without and with a
    call-back function. *)
Definition bound_world : World :=
  mkWorld
    {[0%nat := Comp (mkComponent {["x" := Val (PInt 1)]}
                       (Some {["x" := [CFront 2]]}) (Some [CBack 3]))]}
    {[3%nat := mkCallback 0 "x" None 0 (Some 2%nat)]}
    ∅
    {[2%nat := mkFront 1 0 None KSpin]}
    {[1%nat := mkControl (Val (PInt 1)) [CBack 3]]} 4 [].

Definition bound_world_cfunc : World :=
  mkWorld
    {[0%nat := Comp (mkComponent {["x" := Val (PInt 1)]}
                       (Some {["x" := [CFront 2]]})
                       (Some [CBack 3; CFunc 4]))]}
    {[3%nat := mkCallback 0 "x" None 0 (Some 2%nat)]}
    {[4%nat := mkFunctionCallback 0 [100%nat] 0]}
    {[2%nat := mkFront 1 0 (Some [CBack 3; CFunc 4]) KSpin]}
    {[1%nat := mkControl (Val (PInt 1)) [CBack 3; CFunc 4]]} 5 [].

Lemma connectControl_unbound_world :
  connectControl 0 "x" [] (Some 1%nat) (Some 2%nat) None None None unbound_world
  = inr ((Some 2%nat, Some 3%nat, None), bound_world)
  /\ connectControl 0 "x" [100%nat] (Some 1%nat) (Some 2%nat) None None None
       unbound_world
     = inr ((Some 2%nat, Some 3%nat, Some 4%nat), bound_world_cfunc).
Proof. split; vm_compute; reflexivity. Qed.

Lemma bound_world_Bound : Bound bound_world 0 "x" 1 2 3 None.
Proof.
  constructor.
  - reflexivity.
  - eexists _, _. split; [reflexivity|]. split; reflexivity.
  - eexists. split; [reflexivity|]. repeat split; done.
  - eexists. split; [reflexivity|]. repeat split; done.
  - eexists. split; reflexivity.
  - done.
Qed.

Lemma bound_world_cfunc_Bound :
  Bound bound_world_cfunc 0 "x" 1 2 3 (Some 4%nat).
Proof.
  constructor.
  - reflexivity.
  - eexists _, _. split; [reflexivity|]. split; reflexivity.
  - eexists. split; [reflexivity|]. repeat split; done.
  - eexists. split; [reflexivity|]. repeat split; done.
  - eexists. split; reflexivity.
  - intros g' [= <-]. eexists. split; [reflexivity | done].
Qed.

(** The store in which the call front of [bound_world_cfunc] is disabled,
    as it is while its value call-back assigns. *)
Definition front_disabled_world : World :=
  add_disabled 1 (CFront 2) bound_world_cfunc.

Lemma binding_avoids_feedback_witness :
  (forall c',
     disabled_of
       (store_attr 0 (mkComponent {["x" := Val (PInt 1)]}
                        (Some {["x" := [CFront 2]]}) (Some [CBack 3]))
          "x" (Val (PInt 7))
          (log (ESet 3 (Val (PInt 7)))
             (with_controls (insert 1%nat (mkControl (Val (PInt 7)) [CBack 3]))
                (log (EAction 2 (Val (PInt 7))) bound_world)))) c'
     = disabled_of bound_world c')
  /\ call sample_host 1 (CFront 2) (Val (PInt 7)) front_disabled_world
     = Some (Normal front_disabled_world)
  /\ (exists w,
        connectControl 0 "x" [100%nat] (Some 1%nat) (Some 2%nat) None None None
          unbound_world
        = inr ((Some 2%nat, Some 3%nat, Some 4%nat), w)
        /\ Bound w 0 "x" 1 2 3 (Some 4%nat))
  /\ call sample_host 2 (CBack 3) (Val (PInt 9)) bound_world_cfunc
     = Some (Normal
         (store_attr 0 (mkComponent {["x" := Val (PInt 1)]}
                          (Some {["x" := [CFront 2]]})
                          (Some [CBack 3; CFunc 4]))
            "x" (Val (PInt 9))
            (log (ESet 3 (Val (PInt 9))) bound_world_cfunc)))
  /\ call sample_host 1 (CFunc 4) (Val (PInt 9)) bound_world_cfunc
     = Some (call_users sample_host [100%nat] bound_world_cfunc)
  /\ call sample_host 2 (CFront 2) (Val (PInt 7)) bound_world_cfunc
     = Some (Normal
         (with_controls
            (insert 1%nat (mkControl (Val (PInt 7)) [CBack 3; CFunc 4]))
            (log (EAction 2 (Val (PInt 7))) bound_world_cfunc)))
  /\ call sample_host 3 (CFront 2) (Val (PInt 7)) bound_world
     = Some (Normal
         (store_attr 0 (mkComponent {["x" := Val (PInt 1)]}
                          (Some {["x" := [CFront 2]]}) (Some [CBack 3]))
            "x" (Val (PInt 7))
            (log (ESet 3 (Val (PInt 7)))
               (with_controls
                  (insert 1%nat (mkControl (Val (PInt 7)) [CBack 3]))
                  (log (EAction 2 (Val (PInt 7))) bound_world))))).
Proof.
  destruct (binding_avoids_feedback sample_host)
    as (Hcount & Hnoop & Hconn & Hback & Hfunc & Hfront & Hbare).
  split; [|split; [|split; [|split; [|split; [|split]]]]].
  - apply (Hcount 3%nat (CFront 2) (Val (PInt 7)) bound_world (Normal _)).
    vm_compute. reflexivity.
  - apply (Hnoop 0%nat (CFront 2) (Val (PInt 7)) front_disabled_world 1);
      [reflexivity | lia].
  - apply (Hconn 0%nat "x" [100%nat] 1%nat 2%nat None unbound_world
             sample_component ∅ (mkFront 1 0 None KSpin)
             (mkControl (Val (PInt 1)) [])); try reflexivity; try done.
  - etransitivity.
    + apply (Hback 0%nat bound_world_cfunc 0%nat "x" 1%nat 2%nat 3%nat
               (Some 4%nat) (mkCallback 0 "x" None 0 (Some 2%nat))
               (mkComponent {["x" := Val (PInt 1)]}
                  (Some {["x" := [CFront 2]]}) (Some [CBack 3; CFunc 4])));
        try reflexivity. apply bound_world_cfunc_Bound.
    + reflexivity.
  - apply (Hfunc 0%nat 4%nat (mkFunctionCallback 0 [100%nat] 0));
      reflexivity.
  - apply (Hfront 0%nat bound_world_cfunc 0%nat "x" 1%nat 2%nat 3%nat 4%nat
             (mkFront 1 0 (Some [CBack 3; CFunc 4]) KSpin)
             (mkControl (Val (PInt 1)) [CBack 3; CFunc 4]));
      try reflexivity. apply bound_world_cfunc_Bound.
  - etransitivity.
    + apply (Hbare 0%nat bound_world 0%nat "x" 1%nat 2%nat 3%nat
               (mkFront 1 0 None KSpin) (mkControl (Val (PInt 1)) [CBack 3])
               (mkCallback 0 "x" None 0 (Some 2%nat))
               (mkComponent {["x" := Val (PInt 1)]}
                  (Some {["x" := [CFront 2]]}) (Some [CBack 3])));
        try reflexivity. apply bound_world_Bound.
    + reflexivity.
Defined.

(** The claim as stated fails for a binding made without a call-back
    function, such as [hSlider] makes when no [callback] is given: the call
    front then has no opposite, and its update of the control runs the value
    call-back's assignment. *)
Lemma front_update_reaches_callback_counterexample :
  connectControl 0 "x" [] (Some 1%nat) (Some 2%nat) None None None unbound_world
  = inr ((Some 2%nat, Some 3%nat, None), bound_world)
  /\ (cf_opposite <$> fronts bound_world !! 2%nat) = Some None
  /\ exists w',
       call sample_host 3 (CFront 2) (Val (PInt 7)) bound_world
       = Some (Normal w')
       /\ trace w' = [EAction 2 (Val (PInt 7)); ESet 3 (Val (PInt 7))].
Proof.
  split; [vm_compute; reflexivity|]. split; [reflexivity|].
  eexists. split; [vm_compute; reflexivity | reflexivity].
Qed.

(** [value in "+-"] holds for the four substrings of ["+-"]. *)
Lemma in_plus_minus_spec v :
  in_plus_minus v = true
  <-> exists s, v = Val (PStr s)
                /\ (s = EmptyString \/ s = "+" \/ s = "-" \/ s = "+-").
Proof.
  split.
  - destruct v as [[| | |s]|]; try discriminate. intros H.
    exists s. split; [done|]. unfold in_plus_minus in H.
    destruct s as [|a [|a2 [|a3 s]]]; [by left|..]; revert H;
      unfold String.index, String.prefix;
      repeat (destruct (ascii_dec _ _) as [?|?]; subst); intros H;
      try discriminate H; auto.
  - intros (s & -> & [->|[->|[->| ->]]]); reflexivity.
Qed.

Lemma getattr_store_attr o comp name v w :
  getattr (store_attr o comp name v w) o name = Some v.
Proof.
  unfold getattr, store_attr. simpl. rewrite lookup_insert_eq. simpl.
  apply lookup_insert_eq.
Qed.

Lemma convert_Some h fn v :
  convert h (Some fn) v
  = if is_int_or_float fn && (negb (truthy v) || in_plus_minus v)
    then host_call h fn (Val (PInt 0))
    else host_call h fn v.
Proof. done. Qed.

(** One of the strings ["+"] and ["-"]. *)
Definition is_sign (v : Value) : bool :=
  match v with
  | Val (PStr s) => String.eqb s "+" || String.eqb s "-"
  | _ => false
  end.

(** Apart from the string ["+-"], the values that [acyclic_setattr]
    converts as [0] are the falsy ones and the two signs. *)
Lemma falsy_or_sign v :
  v <> Val (PStr "+-") ->
  negb (truthy v) || in_plus_minus v = negb (truthy v) || is_sign v.
Proof.
  intros Hv. destruct (in_plus_minus v) eqn:E.
  - apply in_plus_minus_spec in E as (s & -> & [->|[->|[->| ->]]]); done.
  - destruct v as [[|b|z|s]|o]; try done. simpl.
    destruct (String.eqb_spec s "+") as [->|_]; [done|].
    destruct (String.eqb_spec s "-") as [->|_]; [done|].
    done.
Qed.

(** C3, as the code has it by design: the [ValueCallback] that
    [connectControl] creates for a non-empty value name carries [fvcb];
    called with [None] it does nothing; called with another value while its
    [disabled] counter is zero it assigns to the master's attribute the
    value itself when there is no conversion function, and otherwise what
    the conversion function returns for the value, or for [0] when the
    function is [int] or [float] and the value is falsy or one of the
    strings ["+"] and ["-"]; while its counter is not zero it assigns
    nothing.  The conversion is stated for every value but the string
    ["+-"]. *)
Theorem value_callback_sets_attribute (h : Host) :
  (forall master value f c fr fvcb w0 comp0 reg0 front0 ctl0,
     split_dot value = None -> nonempty value = true ->
     objs w0 !! master = Some (Comp comp0) ->
     controlled_attributes comp0 = Some reg0 -> reg0 !! value = None ->
     fronts w0 !! fr = Some front0 -> control front0 = c ->
     cf_opposite front0 = None -> 0 <= cf_disabled front0 ->
     controls w0 !! c = Some ctl0 -> slots ctl0 = [] ->
     exists w g,
       connectControl master value f (Some c) (Some fr) None None fvcb w0
       = inr ((Some fr, Some (next_id w0), g), w)
       /\ Bound w master value c fr (next_id w0) g
       /\ (func <$> cbacks w !! next_id w0) = Some fvcb)
  /\ (forall n b w, call h (S n) (CBack b) (Val PNone) w = Some (Normal w))
  /\ (forall n w o value c fr b g cb comp v v',
        Bound w o value c fr b g ->
        cbacks w !! b = Some cb -> objs w !! o = Some (Comp comp) ->
        cb_disabled cb = 0 -> is_None v = false ->
        convert h (func cb) v = inr v' ->
        exists w',
          call h (S (S n)) (CBack b) v w = Some (Normal w')
          /\ getattr w' o value = Some v'
          /\ trace w' = trace w ++ [ESet b v'])
  /\ (forall n b cb v w,
        cbacks w !! b = Some cb -> cb_disabled cb <> 0 ->
        call h (S n) (CBack b) v w = Some (Normal w))
  /\ (forall v, convert h None v = inr v)
  /\ (forall fn v,
        v <> Val (PStr "+-") ->
        convert h (Some fn) v
        = if is_int_or_float fn && (negb (truthy v) || is_sign v)
          then host_call h fn (Val (PInt 0))
          else host_call h fn v).
Proof.
  split; [|split; [|split; [|split; [|split]]]].
  - intros master value f c fr fvcb w0 comp0 reg0 front0 ctl0
      Hdot Hne Ho Hreg Hregv Hfr Hc Hop Hfd Hctl Hslots.
    destruct (connectControl_Bound master value f c fr fvcb w0 comp0 reg0
                front0 ctl0 Hdot Hne Ho Hreg Hregv Hfr Hc Hop Hfd Hctl Hslots)
      as (w & Hrun & HB & Hfunc & _).
    by exists w, (match f with [] => None | _ => Some (S (next_id w0)) end).
  - done.
  - intros n w o value c fr b g cb comp v v' HB Hcb Ho Hd Hv Hconv.
    eexists. split; [by apply (back_call h n w o value c fr b g cb comp v v')|].
    split; [apply getattr_store_attr | done].
  - intros n b cb v w. apply disabled_back_noop.
  - done.
  - intros fn v Hv. rewrite convert_Some. by rewrite falsy_or_sign.
Qed.

(** The binding of a line edit whose conversion function is [int]. *)
Definition int_world : World :=
  mkWorld
    {[0%nat := Comp (mkComponent {["x" := Val (PInt 1)]}
                       (Some {["x" := [CFront 2]]}) (Some [CBack 3]))]}
    {[3%nat := mkCallback 0 "x" (Some F_int) 0 (Some 2%nat)]}
    ∅
    {[2%nat := mkFront 1 0 None KSpin]}
    {[1%nat := mkControl (Val (PInt 1)) [CBack 3]]} 4 [].

Lemma int_world_Bound : Bound int_world 0 "x" 1 2 3 None.
Proof.
  constructor.
  - reflexivity.
  - eexists _, _. split; [reflexivity|]. split; reflexivity.
  - eexists. split; [reflexivity|]. repeat split; done.
  - eexists. split; [reflexivity|]. repeat split; done.
  - eexists. split; reflexivity.
  - done.
Qed.

Lemma value_callback_sets_attribute_witness :
  (exists w g,
     connectControl 0 "x" [] (Some 1%nat) (Some 2%nat) None None (Some F_int)
       unbound_world
     = inr ((Some 2%nat, Some 3%nat, g), w)
     /\ Bound w 0 "x" 1 2 3 g
     /\ (func <$> cbacks w !! 3%nat) = Some (Some F_int))
  /\ (exists w',
        call sample_host 2 (CBack 3) (Val (PStr "-12")) int_world
        = Some (Normal w')
        /\ getattr w' 0 "x" = Some (Val (PInt (-12)))
        /\ trace w' = trace int_world ++ [ESet 3 (Val (PInt (-12)))])
  /\ call sample_host 1 (CBack 3) (Val (PInt 5))
       (add_disabled 1 (CBack 3) int_world)
     = Some (Normal (add_disabled 1 (CBack 3) int_world))
  /\ convert sample_host (Some F_int) (Val (PStr "-"))
     = host_call sample_host F_int (Val (PInt 0)).
Proof.
  destruct (value_callback_sets_attribute sample_host)
    as (Hconn & _ & Hset & Hoff & _ & Hconv).
  split; [|split; [|split]];
    [| | |by rewrite (Hconv F_int (Val (PStr "-"))) by discriminate].
  - apply (Hconn 0%nat "x" [] 1%nat 2%nat (Some F_int) unbound_world
             sample_component ∅ (mkFront 1 0 None KSpin)
             (mkControl (Val (PInt 1)) [])); try reflexivity; try done.
  - apply (Hset 0%nat int_world 0%nat "x" 1%nat 2%nat 3%nat None
             (mkCallback 0 "x" (Some F_int) 0 (Some 2%nat))
             (mkComponent {["x" := Val (PInt 1)]}
                (Some {["x" := [CFront 2]]}) (Some [CBack 3]))
             (Val (PStr "-12")) (Val (PInt (-12))));
      try reflexivity. apply int_world_Bound.
  - apply (Hoff 0%nat 3%nat (mkCallback 0 "x" (Some F_int) 1 (Some 2%nat)));
      [reflexivity | simpl; lia].
Defined.

(** The claim as stated fails for a call-back whose [disabled] counter is
    not zero, as it is while its call front acts: called with [5], which is
    not [None], it leaves the attribute at [1] where the claim has it set
    to [int(5)]. *)
Lemma value_callback_disabled_counterexample :
  connectControl 0 "x" [] (Some 1%nat) (Some 2%nat) None None (Some F_int)
    unbound_world
  = inr ((Some 2%nat, Some 3%nat, None), int_world)
  /\ is_None (Val (PInt 5)) = false
  /\ host_call sample_host F_int (Val (PInt 5)) = inr (Val (PInt 5))
  /\ call sample_host 2 (CBack 3) (Val (PInt 5))
       (add_disabled 1 (CBack 3) int_world)
     = Some (Normal (add_disabled 1 (CBack 3) int_world))
  /\ getattr (add_disabled 1 (CBack 3) int_world) 0 "x" = Some (Val (PInt 1)).
Proof.
  split; [vm_compute; reflexivity|].
  split; [reflexivity|]. split; [reflexivity|].
  split; [vm_compute; reflexivity | reflexivity].
Qed.

(** [value in "+-"] is a substring test, so the string ["+-"] is converted
    as [0] as well, though it is neither falsy nor a sign and [int] raises
    on it. *)
Lemma both_signs_converted_as_zero :
  truthy (Val (PStr "+-")) = true
  /\ is_sign (Val (PStr "+-")) = false
  /\ host_call sample_host F_int (Val (PStr "+-"))
     = inl (ValueError "invalid literal for int(): +-")
  /\ exists w',
       call sample_host 2 (CBack 3) (Val (PStr "+-")) int_world
       = Some (Normal w')
       /\ getattr w' 0 "x" = Some (Val (PInt 0)).
Proof.
  split; [reflexivity|]. split; [reflexivity|]. split; [reflexivity|].
  eexists; split; [vm_compute; reflexivity | reflexivity].
Qed.

(** *** [OWComponent.connect_control] and [OWComponent.__setattr__] *)

Lemma split_dot_length name head rest :
  split_dot name = Some (head, rest) ->
  String.length name = S (String.length head + String.length rest).
Proof.
  revert head. induction name as [|ch name IH]; intros head; simpl; [done|].
  destruct (Ascii.eqb ch ".").
  - by intros [= <- <-].
  - destruct (split_dot name) as [[head' rest']|]; [|done].
    intros [= <- <-]. simpl. by rewrite (IH head' eq_refl).
Qed.

Lemma split_dot_app head rest :
  split_dot head = None -> split_dot (head +:+ "." +:+ rest) = Some (head, rest).
Proof.
  induction head as [|ch head IH]; [done|].
  change (String ch head +:+ "." +:+ rest)
    with (String ch (head +:+ "." +:+ rest)).
  simpl. destruct (Ascii.eqb ch "."); [done|].
  destruct (split_dot head) as [[h' r']|]; [done|]. intros _.
  by rewrite IH.
Qed.

(** The dot budget does not matter once it covers the name. *)
Lemma connect_control_from_enough n m o name fn w :
  (String.length name <= n)%nat -> (String.length name <= m)%nat ->
  connect_control_from n o name fn w = connect_control_from m o name fn w.
Proof.
  revert m o name. induction n as [|n IH]; intros [|m] o name Hn Hm; simpl;
    try done;
    (destruct (objs w !! o) as [[c|items]|]; [|done..]);
    (destruct (split_dot name) as [[head rest]|] eqn:E; [|done]);
    (destruct (attrs c !! head) as [[p|sub]|]; try done);
    apply split_dot_length in E; try lia.
  apply IH; lia.
Qed.

Lemma OWComponent__setattr__from_enough callf n m o name v w :
  (String.length name <= n)%nat -> (String.length name <= m)%nat ->
  OWComponent__setattr__from callf n o name v w
  = OWComponent__setattr__from callf m o name v w.
Proof.
  revert m o name. induction n as [|n IH]; intros [|m] o name Hn Hm; simpl;
    try done;
    (destruct (objs w !! o) as [[c|items]|]; [|done..]);
    (destruct (split_dot name) as [[head rest]|] eqn:E; [|done]);
    (destruct (attrs c !! head) as [[p|sub]|]; try done);
    apply split_dot_length in E; try lia.
  apply IH; lia.
Qed.

(** A dotted name is handed to the sub-component. *)
Lemma dotted_delegates h fuel o name head rest c sub fn v w :
  split_dot name = Some (head, rest) ->
  objs w !! o = Some (Comp c) -> attrs c !! head = Some (Ref sub) ->
  connect_control o name fn w = connect_control sub rest fn w
  /\ setattr h fuel o name v w = setattr h fuel sub rest v w.
Proof.
  intros E Ho Hsub. pose proof (split_dot_length _ _ _ E) as Hlen.
  unfold connect_control, setattr, OWComponent__setattr__. rewrite Hlen.
  simpl. rewrite Ho, E, Hsub. split.
  - apply connect_control_from_enough; lia.
  - apply OWComponent__setattr__from_enough; lia.
Qed.

(** [connect_control] appends to the list of the name. *)
Lemma connect_control_appends o name fn w c reg :
  split_dot name = None -> objs w !! o = Some (Comp c) ->
  controlled_attributes c = Some reg ->
  exists w',
    connect_control o name fn w = Normal w'
    /\ registered w' o name = registered w o name ++ [fn]
    /\ getattr w' o name = getattr w o name.
Proof.
  intros Hdot Ho Hreg. eexists. split.
  - unfold connect_control. by apply connect_control_simple.
  - unfold registered, getattr. simpl. rewrite lookup_insert_eq, Ho, Hreg.
    simpl. by rewrite lookup_insert_eq.
Qed.

Lemma setattr_registry h fuel o name v w c reg :
  split_dot name = None -> objs w !! o = Some (Comp c) ->
  controlled_attributes c = Some reg ->
  setattr h fuel o name v w
  = call_all (call h fuel) (registered w o name) v (store_attr o c name v w).
Proof.
  intros Hdot Ho Hreg. unfold setattr, OWComponent__setattr__, registered.
  by rewrite (setattr_simple _ _ _ _ _ _ c Hdot Ho), Ho, Hreg.
Qed.

(** The store after the events [es] were logged. *)
Definition log_all (es : list Event) (w : World) : World :=
  foldl (fun w e => log e w) w es.

Lemma trace_log_all es w : trace (log_all es w) = trace w ++ es.
Proof.
  revert w. induction es as [|e es IH]; intros w; simpl.
  - by rewrite app_nil_r.
  - rewrite IH. simpl. by rewrite <- app_assoc.
Qed.

Lemma getattr_log_all es w o name :
  getattr (log_all es w) o name = getattr w o name.
Proof. revert w. induction es as [|e es IH]; intros w; simpl; [done|]. by rewrite IH. Qed.

Lemma call_all_users h n us v w :
  (forall u, u ∈ us -> user_raises h u = None) ->
  call_all (call h (S n)) (CUser <$> us) v w
  = Some (Normal (log_all ((fun u => EUser u (Some v)) <$> us) w)).
Proof.
  revert w. induction us as [|u us IH]; intros w Hret; [done|].
  cbn [fmap list_fmap call_all]. simpl call. unfold user_call.
  rewrite (Hret u) by left. rewrite IH; [done|].
  intros u' Hu'. apply Hret. by right.
Qed.

Lemma shown_of_store_attr o comp name v w c :
  shown_of (store_attr o comp name v w) c = shown_of w c.
Proof. done. Qed.

(** In a binding, assigning the attribute makes the control show what the
    call front's action sets. *)
Lemma setattr_updates_control h n w o value c fr b g front comp v x :
  Bound w o value c fr b g ->
  fronts w !! fr = Some front -> objs w !! o = Some (Comp comp) ->
  cf_disabled front = 0 -> action_of (kind front) v = ASet x ->
  exists out,
    setattr h (S (S (S n))) o value v w = Some out
    /\ shown_of (state_of out) c = Some x.
Proof.
  intros HB Hfr Ho Hd Hact.
  pose proof HB as [Hdot (comp' & reg & Ho' & Hreg & Hregv)
                      (cb & Hcb & _) _ (ctl & Hctl & Hslots) _].
  rewrite Ho in Ho'. injection Ho' as <-.
  rewrite (setattr_registry h _ o value v w comp reg Hdot Ho Hreg).
  unfold registered. rewrite Ho, Hreg, Hregv.
  change (default [] (Some [CFront fr])) with [CFront fr]. cbn [call_all].
  pose proof (Bound_store_attr value v comp w o value c fr b g HB Ho) as HB1.
  destruct g as [g|].
  - rewrite (front_call_with_cfunc h (S n) _ o value c fr b g front ctl v HB1
               Hfr Hctl Hd).
    unfold front_outcome. rewrite Hact. eexists. split; [reflexivity|].
    unfold shown_of. simpl. by rewrite lookup_insert_eq.
  - rewrite (front_call_without_cfunc h n _ o value c fr b front ctl cb
               (mkComponent (<[value := v]> (attrs comp))
                  (controlled_attributes comp) (callbackDeposit comp))
               v HB1 Hfr Hctl Hcb); [|apply lookup_insert_eq|done].
    rewrite Hact. cbv zeta.
    destruct (emits h (shown ctl) x) as [arg|].
    + unfold slot_outcome. destruct (is_None arg).
      { eexists. split; [reflexivity|]. unfold shown_of. simpl.
        by rewrite lookup_insert_eq. }
      case_decide.
      * destruct (convert h (func cb) arg) as [e|v'];
          (eexists; split; [reflexivity|]); unfold shown_of; simpl;
          by rewrite lookup_insert_eq.
      * eexists. split; [reflexivity|]. unfold shown_of. simpl.
        by rewrite lookup_insert_eq.
    + eexists. split; [reflexivity|]. unfold shown_of. simpl.
      by rewrite lookup_insert_eq.
Qed.

(** C2: for a component whose [controlled_attributes] exists and a name
    without a dot, [__setattr__] first stores the value and then calls the
    call-backs registered for the name, in registration order, each with the
    value; [connect_control] registers at the end of that order; for a name
    with a dot both hand the rest of the name to the sub-component named
    before the first dot; and [connectControl] registers the call front
    under the value name, so that assigning the attribute makes the control
    show the value. *)
Theorem attribute_to_control (h : Host) :
  (forall fuel o name v w c reg,
     split_dot name = None -> objs w !! o = Some (Comp c) ->
     controlled_attributes c = Some reg ->
     getattr (store_attr o c name v w) o name = Some v
     /\ setattr h fuel o name v w
        = call_all (call h fuel) (registered w o name) v
            (store_attr o c name v w))
  /\ (forall n o name v w c reg us,
        split_dot name = None -> objs w !! o = Some (Comp c) ->
        controlled_attributes c = Some reg ->
        registered w o name = CUser <$> us ->
        (forall u, u ∈ us -> user_raises h u = None) ->
        exists w',
          setattr h (S n) o name v w = Some (Normal w')
          /\ getattr w' o name = Some v
          /\ trace w' = trace w ++ ((fun u => EUser u (Some v)) <$> us))
  /\ (forall o name fn w c reg,
        split_dot name = None -> objs w !! o = Some (Comp c) ->
        controlled_attributes c = Some reg ->
        exists w',
          connect_control o name fn w = Normal w'
          /\ registered w' o name = registered w o name ++ [fn])
  /\ (forall fuel o name head rest c sub fn v w,
        split_dot name = Some (head, rest) ->
        objs w !! o = Some (Comp c) -> attrs c !! head = Some (Ref sub) ->
        connect_control o name fn w = connect_control sub rest fn w
        /\ setattr h fuel o name v w = setattr h fuel sub rest v w)
  /\ (forall head rest,
        split_dot head = None ->
        split_dot (head +:+ "." +:+ rest) = Some (head, rest))
  /\ (forall master value f c fr fvcb w0 comp0 reg0 front0 ctl0,
        split_dot value = None -> nonempty value = true ->
        objs w0 !! master = Some (Comp comp0) ->
        controlled_attributes comp0 = Some reg0 -> reg0 !! value = None ->
        fronts w0 !! fr = Some front0 -> control front0 = c ->
        cf_opposite front0 = None -> 0 <= cf_disabled front0 ->
        controls w0 !! c = Some ctl0 -> slots ctl0 = [] ->
        exists w g,
          connectControl master value f (Some c) (Some fr) None None fvcb w0
          = inr ((Some fr, Some (next_id w0), g), w)
          /\ Bound w master value c fr (next_id w0) g
          /\ registered w master value = [CFront fr])
  /\ (forall n w o value c fr b g front comp v x,
        Bound w o value c fr b g ->
        fronts w !! fr = Some front -> objs w !! o = Some (Comp comp) ->
        cf_disabled front = 0 -> action_of (kind front) v = ASet x ->
        exists out,
          setattr h (S (S (S n))) o value v w = Some out
          /\ shown_of (state_of out) c = Some x).
Proof.
  split; [|split; [|split; [|split; [|split; [|split]]]]].
  - intros fuel o name v w c reg Hdot Ho Hreg.
    split; [apply getattr_store_attr | by apply (setattr_registry h _ _ _ _ _ c reg)].
  - intros n o name v w c reg us Hdot Ho Hreg Hus Hret.
    rewrite (setattr_registry h _ o name v w c reg Hdot Ho Hreg), Hus.
    rewrite (call_all_users h n us v _ Hret).
    eexists. split; [reflexivity|]. split.
    + rewrite getattr_log_all. apply getattr_store_attr.
    + by rewrite trace_log_all.
  - intros o name fn w c reg Hdot Ho Hreg.
    destruct (connect_control_appends o name fn w c reg Hdot Ho Hreg)
      as (w' & Hrun & Happ & _).
    by exists w'.
  - intros fuel o name head rest c sub fn v w.
    apply dotted_delegates.
  - apply split_dot_app.
  - intros master value f c fr fvcb w0 comp0 reg0 front0 ctl0
      Hdot Hne Ho Hreg Hregv Hfr Hc Hop Hfd Hctl Hslots.
    destruct (connectControl_Bound master value f c fr fvcb w0 comp0 reg0
                front0 ctl0 Hdot Hne Ho Hreg Hregv Hfr Hc Hop Hfd Hctl Hslots)
      as (w & Hrun & HB & _ & Hregd).
    by exists w, (match f with [] => None | _ => Some (S (next_id w0)) end).
  - apply setattr_updates_control.
Qed.

(** A component with two plain call-backs registered for [x] and with the
    sub-component [graph]. *)
Definition registry_world : World :=
  mkWorld
    {[0%nat := Comp (mkComponent {["graph" := Ref 1]}
                       (Some {["x" := [CUser 7; CUser 8]]}) None);
      1%nat := Comp (mkComponent ∅ (Some ∅) None)]}
    ∅ ∅ ∅ ∅ 2 [].

Lemma attribute_to_control_witness :
  (getattr (store_attr 0 sample_component "x" (Val (PInt 7)) unbound_world)
     0 "x" = Some (Val (PInt 7))
   /\ setattr sample_host 0 0 "x" (Val (PInt 7)) unbound_world
      = call_all (call sample_host 0) (registered unbound_world 0 "x")
          (Val (PInt 7))
          (store_attr 0 sample_component "x" (Val (PInt 7)) unbound_world))
  /\ split_dot ("graph" +:+ "." +:+ "attr_x") = Some ("graph", "attr_x")
  /\ (exists w',
     setattr sample_host 1 0 "x" (Val (PInt 5)) registry_world
     = Some (Normal w')
     /\ getattr w' 0 "x" = Some (Val (PInt 5))
     /\ trace w' = [EUser 7 (Some (Val (PInt 5))); EUser 8 (Some (Val (PInt 5)))])
  /\ (exists w',
        connect_control 0 "x" (CUser 9) registry_world = Normal w'
        /\ registered w' 0 "x" = [CUser 7; CUser 8; CUser 9])
  /\ (connect_control 0 "graph.attr_x" (CUser 9) registry_world
      = connect_control 1 "attr_x" (CUser 9) registry_world
      /\ setattr sample_host 1 0 "graph.attr_x" (Val (PInt 5)) registry_world
         = setattr sample_host 1 1 "attr_x" (Val (PInt 5)) registry_world)
  /\ (exists w g,
        connectControl 0 "x" [] (Some 1%nat) (Some 2%nat) None None None
          unbound_world
        = inr ((Some 2%nat, Some 3%nat, g), w)
        /\ Bound w 0 "x" 1 2 3 g
        /\ registered w 0 "x" = [CFront 2])
  /\ (exists out,
        setattr sample_host 3 0 "x" (Val (PInt 7)) bound_world = Some out
        /\ shown_of (state_of out) 1 = Some (Val (PInt 7))).
Proof.
  destruct (attribute_to_control sample_host)
    as (Hstore & Hcalls & Hreg & Hdot & Hsplit & Hconn & Hshow).
  split; [|split; [|split; [|split; [|split; [|split]]]]].
  - apply (Hstore 0%nat 0%nat "x" (Val (PInt 7)) unbound_world
             sample_component ∅); reflexivity.
  - apply (Hsplit "graph" "attr_x"). reflexivity.
  - apply (Hcalls 0%nat 0%nat "x" (Val (PInt 5)) registry_world
             (mkComponent {["graph" := Ref 1]}
                (Some {["x" := [CUser 7; CUser 8]]}) None)
             {["x" := [CUser 7; CUser 8]]} [7%nat; 8%nat]);
      try reflexivity.
  - apply (Hreg 0%nat "x" (CUser 9) registry_world
             (mkComponent {["graph" := Ref 1]}
                (Some {["x" := [CUser 7; CUser 8]]}) None)
             {["x" := [CUser 7; CUser 8]]}); reflexivity.
  - apply (Hdot 1%nat 0%nat "graph.attr_x" "graph" "attr_x"
             (mkComponent {["graph" := Ref 1]}
                (Some {["x" := [CUser 7; CUser 8]]}) None)
             1%nat (CUser 9) (Val (PInt 5)) registry_world); reflexivity.
  - apply (Hconn 0%nat "x" [] 1%nat 2%nat None unbound_world
             sample_component ∅ (mkFront 1 0 None KSpin)
             (mkControl (Val (PInt 1)) [])); try reflexivity; try done.
  - apply (Hshow 0%nat bound_world 0%nat "x" 1%nat 2%nat 3%nat None
             (mkFront 1 0 None KSpin)
             (mkComponent {["x" := Val (PInt 1)]}
                (Some {["x" := [CFront 2]]}) (Some [CBack 3]))
             (Val (PInt 7)) (Val (PInt 7))); try reflexivity.
    apply bound_world_Bound.
Defined.

(** *** The call-back deposit *)

Lemma ControlledCallback__init__deposit widget attr f w c :
  objs w !! widget = Some (Comp c) ->
  deposit_of (snd (ControlledCallback__init__ widget attr f w)) widget
  = Some (default [] (callbackDeposit c)
          ++ [CBack (fst (ControlledCallback__init__ widget attr f w))]).
Proof.
  intros Ho. unfold ControlledCallback__init__, alloc, deposit_of. simpl.
  rewrite Ho. simpl. by rewrite lookup_insert_eq.
Qed.

Lemma ControlledCallback__init__dict widget attr f w items :
  objs w !! widget = Some (DictObj items) ->
  objs (snd (ControlledCallback__init__ widget attr f w)) = objs w.
Proof.
  intros Ho. unfold ControlledCallback__init__, alloc. simpl. by rewrite Ho.
Qed.

Lemma FunctionCallback__init__deposit master f w c d :
  objs w !! master = Some (Comp c) -> callbackDeposit c = Some d ->
  deposit_of (snd (FunctionCallback__init__ master f w)) master
  = Some (d ++ [CFunc (fst (FunctionCallback__init__ master f w))]).
Proof.
  intros Ho Hd. unfold FunctionCallback__init__, alloc, deposit_of. simpl.
  rewrite Ho, Hd. simpl. by rewrite lookup_insert_eq.
Qed.

Lemma FunctionCallback__init__no_deposit master f w c :
  objs w !! master = Some (Comp c) -> callbackDeposit c = None ->
  objs (snd (FunctionCallback__init__ master f w)) = objs w.
Proof.
  intros Ho Hd. unfold FunctionCallback__init__, alloc. simpl.
  by rewrite Ho, Hd.
Qed.

Lemma connectControl_deposit master value f c fr fvcb w0 comp0 reg0 :
  split_dot value = None -> nonempty value = true ->
  objs w0 !! master = Some (Comp comp0) ->
  controlled_attributes comp0 = Some reg0 ->
  exists w,
    connectControl master value f (Some c) (Some fr) None None fvcb w0
    = inr ((Some fr, Some (next_id w0),
            match f with [] => None | _ => Some (S (next_id w0)) end), w)
    /\ deposit_of w master
       = Some (default [] (callbackDeposit comp0)
               ++ CBack (next_id w0)
                  :: match f with
                     | [] => []
                     | _ => [CFunc (S (next_id w0))]
                     end).
Proof.
  intros Hdot Hne Ho Hreg.
  unfold connectControl. rewrite Hne.
  unfold ControlledCallback__init__, alloc. simpl.
  rewrite Ho. simpl.
  unfold connect_control.
  erewrite connect_control_simple;
    [|exact Hdot|simpl; apply lookup_insert_eq|exact Hreg].
  simpl. destruct f as [|u us].
  - eexists. split; [reflexivity|]. unfold deposit_of. simpl.
    by rewrite lookup_insert_eq.
  - unfold FunctionCallback__init__, alloc. simpl.
    rewrite lookup_insert_eq. simpl.
    eexists. split; [reflexivity|]. unfold deposit_of. simpl.
    rewrite lookup_insert_eq. simpl. by rewrite <- app_assoc.
Qed.

(** C6, as the code has it: a [ControlledCallback] built for a master that
    is not a [dict] appends itself to the master's [callbackDeposit],
    creating the list first when it is missing, and built for a [dict] it
    deposits nothing; a [FunctionCallback] appends itself only when the list
    already exists; hence the call-backs that [connectControl] itself
    creates, the value call-back first, are both in the deposit. *)
Theorem callback_deposit :
  (forall widget attr f w c,
     objs w !! widget = Some (Comp c) ->
     deposit_of (snd (ControlledCallback__init__ widget attr f w)) widget
     = Some (default [] (callbackDeposit c)
             ++ [CBack (fst (ControlledCallback__init__ widget attr f w))]))
  /\ (forall widget attr f w items,
        objs w !! widget = Some (DictObj items) ->
        objs (snd (ControlledCallback__init__ widget attr f w)) = objs w)
  /\ (forall master f w c d,
        objs w !! master = Some (Comp c) -> callbackDeposit c = Some d ->
        deposit_of (snd (FunctionCallback__init__ master f w)) master
        = Some (d ++ [CFunc (fst (FunctionCallback__init__ master f w))]))
  /\ (forall master f w c,
        objs w !! master = Some (Comp c) -> callbackDeposit c = None ->
        objs (snd (FunctionCallback__init__ master f w)) = objs w)
  /\ (forall master value f c fr fvcb w0 comp0 reg0,
        split_dot value = None -> nonempty value = true ->
        objs w0 !! master = Some (Comp comp0) ->
        controlled_attributes comp0 = Some reg0 ->
        exists w b g d,
          connectControl master value f (Some c) (Some fr) None None fvcb w0
          = inr ((Some fr, Some b, g), w)
          /\ (g = None <-> f = [])
          /\ deposit_of w master = Some d
          /\ CBack b ∈ d
          /\ (forall g', g = Some g' -> CFunc g' ∈ d)).
Proof.
  split; [|split; [|split; [|split]]].
  - apply ControlledCallback__init__deposit.
  - apply ControlledCallback__init__dict.
  - apply FunctionCallback__init__deposit.
  - apply FunctionCallback__init__no_deposit.
  - intros master value f c fr fvcb w0 comp0 reg0 Hdot Hne Ho Hreg.
    destruct (connectControl_deposit master value f c fr fvcb w0 comp0 reg0
                Hdot Hne Ho Hreg) as (w & Hrun & Hdep).
    eexists w, _, _, _. split; [exact Hrun|]. split; [by destruct f|].
    split; [exact Hdep|]. split.
    + apply elem_of_app. right. left.
    + intros g' Hg. apply elem_of_app. right. right.
      destruct f; [done|]. injection Hg as <-. left.
Qed.

(** A component that has no [callbackDeposit] yet, and a [dict] master. *)
Definition fresh_world : World :=
  mkWorld {[0%nat := Comp sample_component;
            1%nat := DictObj {["x" := Val (PInt 1)]}]} ∅ ∅ ∅ ∅ 2 [].

Definition deposited_world : World :=
  snd (ControlledCallback__init__ 0 "y" None fresh_world).

Lemma callback_deposit_witness :
  deposit_of (snd (ControlledCallback__init__ 0 "x" None fresh_world)) 0
  = Some [CBack 2]
  /\ objs (snd (ControlledCallback__init__ 1 "x" None fresh_world))
     = objs fresh_world
  /\ deposit_of (snd (FunctionCallback__init__ 0 [100%nat] deposited_world)) 0
     = Some [CBack 2; CFunc 3]
  /\ objs (snd (FunctionCallback__init__ 0 [100%nat] fresh_world))
     = objs fresh_world
  /\ (exists w b g d,
        connectControl 0 "x" [100%nat] (Some 1%nat) (Some 2%nat) None None None
          unbound_world
        = inr ((Some 2%nat, Some b, g), w)
        /\ (g = None <-> [100%nat] = [])
        /\ deposit_of w 0 = Some d
        /\ CBack b ∈ d
        /\ (forall g', g = Some g' -> CFunc g' ∈ d)).
Proof.
  destruct callback_deposit as (Hcb & Hdict & Hfc & Hnone & Hconn).
  split; [|split; [|split; [|split]]].
  - apply (Hcb 0%nat "x" None fresh_world sample_component). reflexivity.
  - apply (Hdict 1%nat "x" None fresh_world {["x" := Val (PInt 1)]}).
    reflexivity.
  - apply (Hfc 0%nat [100%nat] deposited_world
             (mkComponent {["x" := Val (PInt 1)]} (Some ∅) (Some [CBack 2]))
             [CBack 2]); reflexivity.
  - apply (Hnone 0%nat [100%nat] fresh_world sample_component); reflexivity.
  - apply (Hconn 0%nat "x" [100%nat] 1%nat 2%nat None unbound_world
             sample_component ∅); reflexivity.
Defined.

(** The last part of the claim as stated fails for [checkBox] on a master
    that has no deposit yet: the [FunctionCallback] is built before
    [connectControl] creates the [ValueCallback], finds no list, and stays
    out of the deposit that the [ValueCallback] then creates. *)
Lemma checkBox_deposit_counterexample :
  deposit_of fresh_world 0 = None
  /\ exists w,
       checkBox 0 "x" [100%nat] (Val (PInt 1)) fresh_world
       = inr ((Some 3%nat, Some 5%nat, Some 4%nat), w)
       /\ deposit_of w 0 = Some [CBack 5]
       /\ CFunc 4 ∉ [CBack 5].
Proof.
  split; [reflexivity|]. eexists. split; [vm_compute; reflexivity|].
  split; [reflexivity|].
  intros H. apply list_elem_of_singleton in H. discriminate H.
Qed.

(** *** The two ways in which a bound control changes *)

(** The user operates the control of a binding with a function call-back:
    the value call-back assigns the attribute, then the function call-back
    calls its functions, which find the attribute assigned. *)
Lemma user_edit_with_cfunc h n w o value c fr b g cb fc comp ctl x arg v' :
  Bound w o value c fr b (Some g) ->
  cbacks w !! b = Some cb -> funcs w !! g = Some fc ->
  objs w !! o = Some (Comp comp) -> controls w !! c = Some ctl ->
  cb_disabled cb = 0 -> fc_disabled fc = 0 ->
  is_None arg = false -> convert h (func cb) arg = inr v' ->
  user_edit h (S (S n)) c x arg w
  = Some (call_users h (fc_func fc)
            (store_attr o comp value v'
               (log (ESet b v')
                  (with_controls (insert c (mkControl x (slots ctl))) w)))).
Proof.
  intros HB Hcb Hfc Ho Hctl Hd Hfd Hx Hconv.
  pose proof HB as [_ _ _ _ (ctl' & Hctl' & Hslots) _].
  rewrite Hctl in Hctl'. injection Hctl' as <-.
  unfold user_edit. rewrite Hctl, Hslots. cbn [call_all].
  rewrite (back_call h n _ o value c fr b (Some g) cb comp arg v');
    [|rewrite <- Hslots; by apply Bound_set_shown|done..].
  change (call h (S (S n)) (CFunc g) arg ?w')
    with (FunctionCallback__call__ h g w').
  unfold FunctionCallback__call__.
  change (funcs (store_attr o comp value v' (log (ESet b v') (with_controls
            (insert c (mkControl x [CBack b; CFunc g])) w))))
    with (funcs w).
  rewrite Hfc, Hfd. rewrite decide_True by done.
  by destruct (call_users _ _ _).
Qed.

(** The attribute of such a binding is assigned: the call front acts on the
    control with both call-backs disabled, so no function is called. *)
Lemma setattr_with_cfunc h n w o value c fr b g front comp ctl v :
  Bound w o value c fr b (Some g) ->
  fronts w !! fr = Some front -> objs w !! o = Some (Comp comp) ->
  controls w !! c = Some ctl -> cf_disabled front = 0 ->
  setattr h (S (S n)) o value v w
  = Some (front_outcome fr (kind front) c ctl v (store_attr o comp value v w)).
Proof.
  intros HB Hfr Ho Hctl Hd.
  pose proof HB as [Hdot (comp' & reg & Ho' & Hreg & Hregv) _ _ _ _].
  rewrite Ho in Ho'. injection Ho' as <-.
  rewrite (setattr_registry h _ o value v w comp reg Hdot Ho Hreg).
  unfold registered. rewrite Ho, Hreg, Hregv.
  change (default [] (Some [CFront fr])) with [CFront fr]. cbn [call_all].
  rewrite (front_call_with_cfunc h n _ o value c fr b g front ctl v
             (Bound_store_attr value v comp w o value c fr b (Some g) HB Ho)
             Hfr Hctl Hd).
  by destruct (front_outcome _ _ _ _ _ _).
Qed.

(** The check box that [auto_commit] creates for the setting [auto_commit];
    the function [100] of its function call-back is [checkbox_toggled]. *)
Definition auto_commit_master : World :=
  mkWorld {[0%nat := Comp (mkComponent {["auto_commit" := Val (PBool false)]}
                             (Some ∅) (Some []))]} ∅ ∅ ∅ ∅ 1 [].

Definition auto_commit_checkbox : World :=
  mkWorld
    {[0%nat := Comp (mkComponent {["auto_commit" := Val (PBool false)]}
                       (Some {["auto_commit" := [CFront 2]]})
                       (Some [CFunc 3; CBack 4]))]}
    {[4%nat := mkCallback 0 "auto_commit" None 0 (Some 2%nat)]}
    {[3%nat := mkFunctionCallback 0 [100%nat] 0]}
    {[2%nat := mkFront 1 0 (Some [CBack 4; CFunc 3]) KCheckBox]}
    {[1%nat := mkControl (Val (PInt Unchecked)) [CBack 4; CFunc 3]]} 5 [].

Lemma checkBox_auto_commit_master :
  checkBox 0 "auto_commit" [100%nat] (Val (PInt Unchecked)) auto_commit_master
  = inr ((Some 2%nat, Some 4%nat, Some 3%nat), auto_commit_checkbox).
Proof. vm_compute. reflexivity. Qed.

Lemma auto_commit_checkbox_Bound :
  Bound auto_commit_checkbox 0 "auto_commit" 1 2 4 (Some 3%nat).
Proof.
  constructor.
  - reflexivity.
  - eexists _, _. split; [reflexivity|]. split; reflexivity.
  - eexists. split; [reflexivity|]. repeat split; done.
  - eexists. split; [reflexivity|]. repeat split; done.
  - eexists. split; reflexivity.
  - intros g' [= <-]. eexists. split; [reflexivity | done].
Qed.

(** The call front of a check box raises [IndexError] on the value [5];
    both call-backs are enabled again afterwards. *)
Example front_action_raises :
  exists w',
    call sample_host 2 (CFront 2) (Val (PInt 5)) auto_commit_checkbox
    = Some (Raised IndexError w')
    /\ disabled_of w' (CBack 4) = Some 0
    /\ disabled_of w' (CFunc 3) = Some 0
    /\ shown_of w' 1 = Some (Val (PInt Unchecked)).
Proof.
  eexists. split; [vm_compute; reflexivity|]. repeat split; reflexivity.
Qed.

End BindingFacts.

(** ** The check box of [auto_commit]

    [auto_commit] hands [checkbox_toggled] to [checkBox] as [callback], so the
    handler is the function of the check box's [FunctionCallback]. *)

Module CheckBoxFacts.

(** The handler [checkbox_toggled] and the two ways of reaching the check
    box.  When the handler runs with [getattr(master, value)] true, the
    button is disabled and shows [auto_label], and a set dirty flag makes
    it run the original commit and clear the flag; with the attribute false
    the button is enabled, shows [label], and no commit runs; in each case
    the optional callback runs last.  The handler runs when the box is
    toggled through the control: the value call-back assigns the attribute
    and the function call-back then calls the handler.  It does not run
    when the box follows an assignment to the attribute: the call front
    then acts with both call-backs disabled. *)
Theorem checkbox_toggled_spec :
  (forall (s : Commit.Setup) (w : Commit.World) (v : Commit.Value),
     Commit.attrs w !! Commit.value s = Some v ->
     Commit.btn_text (state_of (Commit.checkbox_toggled s w))
     = (if Commit.truthy v then Commit.auto_label s else Commit.label s)
     /\ Commit.btn_enabled (state_of (Commit.checkbox_toggled s w))
        = negb (Commit.truthy v)
     /\ (Commit.truthy v = true -> Commit.is_dirty s w = true ->
         forall w',
           Commit.run_commit s
             (Commit.with_cursor S (Commit.with_btn (Commit.auto_label s) false w))
           = Normal w' ->
           Commit.checkbox_toggled s w
           = Commit.run_callback s
               (Commit.with_cursor Nat.pred (Commit.set_dirty s false w'))
           /\ Commit.is_dirty s
                (Commit.with_cursor Nat.pred (Commit.set_dirty s false w'))
              = false)
     /\ (Commit.truthy v = true -> Commit.is_dirty s w = false ->
         Commit.checkbox_toggled s w
         = Commit.run_callback s (Commit.with_btn (Commit.auto_label s) false w))
     /\ (Commit.truthy v = false ->
         Commit.checkbox_toggled s w
         = Commit.run_callback s (Commit.with_btn (Commit.label s) true w)))
  /\ (forall h n w o value c fr b g cb fc comp ctl x arg v',
        BindingFacts.Bound w o value c fr b (Some g) ->
        Binding.cbacks w !! b = Some cb -> Binding.funcs w !! g = Some fc ->
        Binding.objs w !! o = Some (Binding.Comp comp) ->
        Binding.controls w !! c = Some ctl ->
        Binding.cb_disabled cb = 0 -> Binding.fc_disabled fc = 0 ->
        Binding.is_None arg = false ->
        Binding.convert h (Binding.func cb) arg = inr v' ->
        Binding.user_edit h (S (S n)) c x arg w
        = Some (Binding.call_users h (Binding.fc_func fc)
                  (Binding.store_attr o comp value v'
                     (Binding.log (Binding.ESet b v')
                        (Binding.with_controls
                           (insert c (Binding.mkControl x (Binding.slots ctl)))
                           w)))))
  /\ (forall h n w o value c fr b g front comp ctl v,
        BindingFacts.Bound w o value c fr b (Some g) ->
        Binding.fronts w !! fr = Some front ->
        Binding.objs w !! o = Some (Binding.Comp comp) ->
        Binding.controls w !! c = Some ctl ->
        Binding.cf_disabled front = 0 ->
        Binding.setattr h (S (S n)) o value v w
        = Some (BindingFacts.front_outcome fr (Binding.kind front) c ctl v
                  (Binding.store_attr o comp value v w))).
Proof.
  split; [|split].
  - apply CommitFacts.checkbox_toggled_cases.
  - apply BindingFacts.user_edit_with_cfunc.
  - apply BindingFacts.setattr_with_cfunc.
Qed.

Lemma checkbox_toggled_spec_witness :
  (Commit.btn_text (state_of (Commit.checkbox_toggled
       CommitFacts.sample_callback_setup (CommitFacts.sample_dirty true)))
   = "Send Automatically"
   /\ Commit.btn_enabled (state_of (Commit.checkbox_toggled
        CommitFacts.sample_callback_setup (CommitFacts.sample_dirty true)))
      = false
   /\ Commit.trace (state_of (Commit.checkbox_toggled
        CommitFacts.sample_callback_setup (CommitFacts.sample_dirty true)))
      = [Commit.EWork 1; Commit.EWork 3; Commit.EWork 2; Commit.EWork 9]
   /\ Commit.dirty (Commit.data (state_of (Commit.checkbox_toggled
        CommitFacts.sample_callback_setup (CommitFacts.sample_dirty true))))
      = false)
  /\ Commit.checkbox_toggled CommitFacts.sample_callback_setup
       (CommitFacts.sample_master true)
     = Commit.run_callback CommitFacts.sample_callback_setup
         (Commit.with_btn "Send Automatically" false
            (CommitFacts.sample_master true))
  /\ Commit.checkbox_toggled CommitFacts.sample_callback_setup
       (CommitFacts.sample_dirty false)
     = Commit.run_callback CommitFacts.sample_callback_setup
         (Commit.with_btn "Send" true (CommitFacts.sample_dirty false))
  /\ (exists w',
        Binding.user_edit Binding.sample_host 2 1
          (Binding.Val (PInt Binding.Checked)) (Binding.Val (PBool true))
          BindingFacts.auto_commit_checkbox
        = Some (Normal w')
        /\ Binding.getattr w' 0 "auto_commit" = Some (Binding.Val (PBool true))
        /\ Binding.trace w'
           = [Binding.ESet 4 (Binding.Val (PBool true)); Binding.EUser 100 None])
  /\ (exists w',
        Binding.setattr Binding.sample_host 2 0 "auto_commit"
          (Binding.Val (PBool true)) BindingFacts.auto_commit_checkbox
        = Some (Normal w')
        /\ Binding.trace w'
           = [Binding.EAction 2 (Binding.Val (PBool true))]).
Proof.
  destruct checkbox_toggled_spec as (Hhandler & Huser & Hassign).
  pose proof (Hhandler CommitFacts.sample_callback_setup
                (CommitFacts.sample_dirty true)
                (Commit.VPrim (PBool true)) eq_refl) as (Ht & He & Hc & _).
  pose proof (Hhandler CommitFacts.sample_callback_setup
                (CommitFacts.sample_master true)
                (Commit.VPrim (PBool true)) eq_refl) as (_ & _ & _ & Hclean & _).
  pose proof (Hhandler CommitFacts.sample_callback_setup
                (CommitFacts.sample_dirty false)
                (Commit.VPrim (PBool false)) eq_refl) as (_ & _ & _ & _ & Hoff).
  split; [|split; [|split; [|split]]].
  - split; [exact Ht|]. split; [exact He|].
    destruct (Hc eq_refl eq_refl _ eq_refl) as [-> _]. split; reflexivity.
  - apply Hclean; reflexivity.
  - apply Hoff; reflexivity.
  - eexists. split; [|split].
    + apply (Huser Binding.sample_host 0%nat BindingFacts.auto_commit_checkbox
               0%nat "auto_commit" 1%nat 2%nat 4%nat 3%nat
               (Binding.mkCallback 0 "auto_commit" None 0 (Some 2%nat))
               (Binding.mkFunctionCallback 0 [100%nat] 0)
               (Binding.mkComponent
                  {["auto_commit" := Binding.Val (PBool false)]}
                  (Some {["auto_commit" := [Binding.CFront 2]]})
                  (Some [Binding.CFunc 3; Binding.CBack 4]))
               (Binding.mkControl (Binding.Val (PInt Binding.Unchecked))
                  [Binding.CBack 4; Binding.CFunc 3])
               (Binding.Val (PInt Binding.Checked)) (Binding.Val (PBool true))
               (Binding.Val (PBool true)));
        try reflexivity. apply BindingFacts.auto_commit_checkbox_Bound.
    + reflexivity.
    + reflexivity.
  - eexists. split.
    + apply (Hassign Binding.sample_host 0%nat BindingFacts.auto_commit_checkbox
               0%nat "auto_commit" 1%nat 2%nat 4%nat 3%nat
               (Binding.mkFront 1 0
                  (Some [Binding.CBack 4; Binding.CFunc 3]) Binding.KCheckBox)
               (Binding.mkComponent
                  {["auto_commit" := Binding.Val (PBool false)]}
                  (Some {["auto_commit" := [Binding.CFront 2]]})
                  (Some [Binding.CFunc 3; Binding.CBack 4]))
               (Binding.mkControl (Binding.Val (PInt Binding.Unchecked))
                  [Binding.CBack 4; Binding.CFunc 3])
               (Binding.Val (PBool true)));
        try reflexivity. apply BindingFacts.auto_commit_checkbox_Bound.
    + reflexivity.
Defined.

(** C5: the check box of [auto_commit] is toggled by an assignment to the
    master's attribute.  The box goes from unchecked to checked, and the
    trace holds the call front's action only: the function [100], which is
    [checkbox_toggled], is not called, so the button keeps its label and a
    pending commit does not run, where the claim and the docstring of
    [auto_commit] have the handler run whenever the box is toggled. *)
Theorem assignment_skips_checkbox_toggled :
  Binding.checkBox 0 "auto_commit" [100%nat]
    (Binding.Val (PInt Binding.Unchecked)) BindingFacts.auto_commit_master
  = inr ((Some 2%nat, Some 4%nat, Some 3%nat), BindingFacts.auto_commit_checkbox)
  /\ Binding.shown_of BindingFacts.auto_commit_checkbox 1
     = Some (Binding.Val (PInt Binding.Unchecked))
  /\ exists w',
       Binding.setattr Binding.sample_host 2 0 "auto_commit"
         (Binding.Val (PBool true)) BindingFacts.auto_commit_checkbox
       = Some (Normal w')
       /\ Binding.shown_of w' 1 = Some (Binding.Val (PInt Binding.Checked))
       /\ Binding.getattr w' 0 "auto_commit" = Some (Binding.Val (PBool true))
       /\ Binding.trace w' = [Binding.EAction 2 (Binding.Val (PBool true))].
Proof.
  split; [vm_compute; reflexivity|]. split; [reflexivity|].
  eexists. split; [vm_compute; reflexivity|]. repeat split; reflexivity.
Qed.

End CheckBoxFacts.

Module TextFacts.
Import Text.

(** *** Slices and [rfind] *)

Lemma string_app_empty_r (a : string) : a +:+ EmptyString = a.
Proof.
  induction a as [|ch a IH]; [done|].
  change (String ch (a +:+ EmptyString) = String ch a). by rewrite IH.
Qed.

Lemma string_app_cons ch (a b : string) :
  String ch a +:+ b = String ch (a +:+ b).
Proof. done. Qed.

Lemma take_str_length k s :
  String.length (take_str k s) = Nat.min k (String.length s).
Proof.
  revert s. induction k as [|k IH]; intros [|c r]; simpl; try done.
  by rewrite IH.
Qed.

Lemma take_str_prefix k s : exists t, s = take_str k s +:+ t.
Proof.
  revert s. induction k as [|k IH]; intros s.
  - exists s. by destruct s.
  - destruct s as [|c r]; [by exists EmptyString|].
    destruct (IH r) as [t Ht]. exists t. simpl.
    rewrite string_app_cons. by rewrite <- Ht.
Qed.

Lemma take_str_app k a b :
  (k <= String.length a)%nat -> take_str k (a +:+ b) = take_str k a.
Proof.
  revert a. induction k as [|k IH]; intros a Hk.
  - by destruct a, b.
  - destruct a as [|c a]; simpl in Hk; [lia|].
    rewrite string_app_cons. simpl. rewrite IH; [done | lia].
Qed.

Lemma take_str_all k s : (String.length s <= k)%nat -> take_str k s = s.
Proof.
  revert s. induction k as [|k IH]; intros [|c r] Hk; simpl in *;
    try done; try lia.
  rewrite IH; [done | lia].
Qed.

Lemma take_str_exact a b : take_str (String.length a) (a +:+ b) = a.
Proof.
  rewrite take_str_app by lia. by apply take_str_all.
Qed.

Lemma slice_to_prefix s k : exists t, s = slice_to s k +:+ t.
Proof. unfold slice_to. destruct (k <? 0); apply take_str_prefix. Qed.

Lemma prefix_app sep s :
  String.prefix sep s = true -> exists t, s = sep +:+ t.
Proof.
  revert s. induction sep as [|a sep IH]; intros s H.
  - by exists s.
  - destruct s as [|b s]; simpl in H; [done|].
    destruct (ascii_dec a b) as [->|]; [|done].
    destruct (IH s H) as [t ->]. by exists t.
Qed.

(** An occurrence found by [rfind] lies inside the string. *)
Lemma rfind_last_Some s sep i :
  rfind_last s sep = Some i ->
  exists pre post, s = pre +:+ sep +:+ post /\ String.length pre = i.
Proof.
  revert i. induction s as [|c r IH]; intros i; cbn [rfind_last].
  - destruct (String.prefix sep EmptyString) eqn:E; [|done].
    intros [= <-]. apply prefix_app in E as [t Ht].
    exists EmptyString, t. split; [exact Ht | done].
  - destruct (rfind_last r sep) as [j|].
    + intros [= <-]. destruct (IH j eq_refl) as (pre & post & -> & Hlen).
      exists (String c pre), post. simpl. by rewrite Hlen.
    + destruct (String.prefix sep (String c r)) eqn:E; [|done].
      intros [= <-]. apply prefix_app in E as [t Ht].
      exists EmptyString, t. split; [exact Ht | done].
Qed.

(** *** [clip_string] *)

(** The result of [clip_string] never exceeds [limit] characters, as long
    as [limit] leaves room for the ellipsis. *)
Theorem clip_string_length (s : string) (limit : Z) (sep : option string) :
  3 <= limit ->
  Z.of_nat (String.length (clip_string s limit sep)) <= limit.
Proof.
  intros Hlimit. unfold clip_string.
  destruct (Z.ltb_spec (Z.of_nat (String.length s)) limit) as [Hs|Hs]; [lia|].
  assert (slice_to s (limit - 3) = take_str (Z.to_nat (limit - 3)) s) as ->.
  { unfold slice_to. destruct (Z.ltb_spec (limit - 3) 0); [lia | done]. }
  set (s' := take_str (Z.to_nat (limit - 3)) s).
  assert (String.length s' = Z.to_nat (limit - 3)) as Hlen.
  { unfold s'. rewrite take_str_length. lia. }
  destruct sep as [sep|]; [|lia].
  unfold rfind. destruct (rfind_last s' sep) as [i|] eqn:E; [|simpl; lia].
  destruct (Z.eqb_spec (Z.of_nat i) (-1)) as [|_]; [lia|].
  apply rfind_last_Some in E as (pre & post & Hs' & Hi).
  unfold slice_to.
  destruct (Z.ltb_spec (Z.of_nat i + Z.of_nat (String.length sep)) 0); [lia|].
  rewrite string_length_app, take_str_length. simpl.
  apply (f_equal String.length) in Hs'.
  rewrite !string_length_app in Hs'. lia.
Qed.

Lemma clip_string_length_witness :
  Z.of_nat (String.length
              (clip_string "petal length, petal width, sepal length" 20
                 (Some ", "))) <= 20.
Proof. apply clip_string_length. lia. Defined.

Lemma prefix_of_app sep t : String.prefix sep (sep +:+ t) = true.
Proof.
  induction sep as [|a sep IH]; [by destruct t|].
  rewrite string_app_cons. simpl. by destruct (ascii_dec a a).
Qed.

(** [rfind] misses only a separator that does not occur. *)
Lemma rfind_last_None s sep :
  rfind_last s sep = None -> forall pre post, s <> pre +:+ sep +:+ post.
Proof.
  induction s as [|c r IH]; cbn [rfind_last].
  - destruct (String.prefix sep EmptyString) eqn:E; [done|].
    intros _ pre post H. destruct pre as [|a pre]; [|done].
    change (EmptyString +:+ sep +:+ post) with (sep +:+ post) in H.
    by rewrite H, prefix_of_app in E.
  - destruct (rfind_last r sep) as [j|]; [done|].
    destruct (String.prefix sep (String c r)) eqn:E; [done|].
    intros _ pre post H. destruct pre as [|a pre].
    + change (EmptyString +:+ sep +:+ post) with (sep +:+ post) in H.
      by rewrite H, prefix_of_app in E.
    + rewrite string_app_cons in H. injection H as _ H.
      by apply (IH eq_refl pre post).
Qed.

(** The occurrence that [rfind] finds is the last one. *)
Lemma rfind_last_max s sep i :
  rfind_last s sep = Some i ->
  forall pre post, s = pre +:+ sep +:+ post -> (String.length pre <= i)%nat.
Proof.
  revert i. induction s as [|c r IH]; intros i; cbn [rfind_last].
  - intros _ pre post H. destruct pre as [|a pre]; [simpl; lia|done].
  - destruct (rfind_last r sep) as [j|] eqn:Ej.
    + intros [= <-] pre post H. destruct pre as [|a pre]; [simpl; lia|].
      rewrite string_app_cons in H. injection H as _ H.
      simpl. apply le_n_S. by apply (IH j eq_refl pre post).
    + intros _ pre post H. destruct pre as [|a pre]; [simpl; lia|].
      rewrite string_app_cons in H. injection H as _ H.
      by destruct (rfind_last_None r sep Ej pre post).
Qed.

(** [clip_string] returns a string shorter than [limit] as it is.  Any
    other string is cut to [s[:limit - 3]]: without a separator, or with a
    separator that does not occur in the cut string, that is the result,
    with no ellipsis; with a separator that occurs, the result is the cut
    string up to the end of the last occurrence, followed by the
    ellipsis. *)
Theorem clip_string_shape (s : string) (limit : Z) (sep : option string) :
  (Z.of_nat (String.length s) < limit -> clip_string s limit sep = s)
  /\ (limit <= Z.of_nat (String.length s) ->
      let cut := slice_to s (limit - 3) in
      (exists t, s = cut +:+ t)
      /\ (sep = None -> clip_string s limit sep = cut)
      /\ (forall sp, sep = Some sp ->
            (forall q r, cut <> q +:+ sp +:+ r) ->
            clip_string s limit sep = cut)
      /\ (forall sp q r, sep = Some sp -> cut = q +:+ sp +:+ r ->
            exists q' r',
              cut = q' +:+ sp +:+ r'
              /\ (String.length q <= String.length q')%nat
              /\ clip_string s limit sep = q' +:+ sp +:+ "...")).
Proof.
  split.
  { intros Hs. unfold clip_string.
    by destruct (Z.ltb_spec (Z.of_nat (String.length s)) limit); [|lia]. }
  intros Hs. cbv zeta. unfold clip_string.
  destruct (Z.ltb_spec (Z.of_nat (String.length s)) limit) as [|_]; [lia|].
  set (cut := slice_to s (limit - 3)).
  split; [apply slice_to_prefix|]. split; [by intros ->|]. split.
  - intros sp -> Hnone. unfold rfind.
    destruct (rfind_last cut sp) as [i|] eqn:E; [|done].
    apply rfind_last_Some in E as (pre & post & Hcut & _).
    by destruct (Hnone pre post).
  - intros sp q r -> Hcut. unfold rfind.
    destruct (rfind_last cut sp) as [i|] eqn:E;
      [|by destruct (rfind_last_None cut sp E q r)].
    pose proof (rfind_last_max cut sp i E q r Hcut) as Hmax.
    apply rfind_last_Some in E as (pre & post & Hpre & Hi).
    destruct (Z.eqb_spec (Z.of_nat i) (-1)) as [|_]; [lia|].
    exists pre, post. split; [done|]. split; [lia|].
    rewrite <- string_app_assoc. f_equal.
    unfold slice_to.
    destruct (Z.ltb_spec (Z.of_nat i + Z.of_nat (String.length sp)) 0);
      [lia|].
    rewrite Hpre, <- string_app_assoc.
    replace (Z.to_nat (Z.of_nat i + Z.of_nat (String.length sp)))
      with (String.length (pre +:+ sp))
      by (rewrite string_length_app; lia).
    apply take_str_exact.
Qed.

Lemma clip_string_shape_witness :
  clip_string "abcdefghij" 8 None = "abcde"
  /\ exists q' r',
       "petal length, pet" = q' +:+ ", " +:+ r'
       /\ (12 <= String.length q')%nat
       /\ clip_string "petal length, petal width, sepal length" 20 (Some ", ")
          = q' +:+ ", " +:+ "...".
Proof.
  split.
  - destruct (proj2 (clip_string_shape "abcdefghij" 8 None))
      as (_ & Hnone & _); [simpl; lia|].
    exact (Hnone eq_refl).
  - destruct (proj2 (clip_string_shape
                       "petal length, petal width, sepal length" 20
                       (Some ", "))) as (_ & _ & _ & Hfound); [simpl; lia|].
    exact (Hfound ", " "petal length" "pet" eq_refl eq_refl).
Defined.

(** *** [clipped_list] *)

Lemma join_cons sep x rest :
  rest <> [] -> join sep (x :: rest) = x +:+ sep +:+ join sep rest.
Proof. by destruct rest. Qed.

Lemma join_app sep a b :
  a <> [] -> b <> [] ->
  join sep (a ++ b) = join sep a +:+ sep +:+ join sep b.
Proof.
  intros Ha Hb. induction a as [|x a IH]; [done|].
  destruct a as [|y a].
  - simpl app. by rewrite join_cons.
  - change ((x :: y :: a) ++ b) with (x :: (y :: a) ++ b).
    rewrite join_cons by done. rewrite IH by done.
    rewrite (join_cons sep x (y :: a)) by done.
    by rewrite !string_app_assoc.
Qed.

Lemma join_length sep items :
  Forall (fun x => x <> EmptyString) items -> items <> [] ->
  (List.length items + String.length sep * (List.length items - 1)
   <= String.length (join sep items))%nat.
Proof.
  induction 1 as [|x rest Hx Hrest IH]; [done|]. intros _.
  assert (1 <= String.length x)%nat as Hlen
    by (destruct x; [done | simpl; lia]).
  destruct rest as [|y rest].
  - simpl. lia.
  - rewrite join_cons by done. rewrite !string_length_app.
    specialize (IH ltac:(done)). simpl List.length in *. nia.
Qed.

(** For a limit of the form [3 k + 1], such as the default 1000, and items
    that are not empty, looking at the first [(limit + 2) // 3] items only
    gives the same text as joining them all. *)
Theorem clipped_list_less_lookups (items : list string) (limit total_min : Z)
    (total : string) :
  4 <= limit -> limit mod 3 = 1 ->
  Forall (fun x => x <> EmptyString) items ->
  clipped_list items limit true total_min total
  = clipped_list items limit false total_min total.
Proof.
  intros Hlimit Hmod Hitems. unfold clipped_list.
  assert (0 <= (limit + 2) / 3 /\ limit = 3 * ((limit + 2) / 3) - 2)
    as [Hpos Hk] by (Z.div_mod_to_equations; lia).
  destruct (Z.ltb_spec ((limit + 2) / 3) 0) as [Hneg|_]; [lia|].
  set (k := Z.to_nat ((limit + 2) / 3)).
  replace ((limit + 2) / 3) with (Z.of_nat k) in Hk by (unfold k; lia).
  assert (clip_string (join ", " (take k items)) limit (Some ", ")
          = clip_string (join ", " items) limit (Some ", ")) as ->; [|done].
  destruct (decide (List.length items <= k)%nat) as [Hshort|Hlong].
  { by rewrite take_ge. }
  assert (take k items <> []) as Htake.
  { intros E. apply (f_equal List.length) in E.
    rewrite length_take in E. simpl in E. lia. }
  assert (drop k items <> []) as Hdrop.
  { intros E. apply (f_equal List.length) in E.
    rewrite length_drop in E. simpl in E. lia. }
  rewrite <- (take_drop k items) at 2.
  rewrite join_app by done.
  set (jk := join ", " (take k items)).
  set (jd := ", " +:+ join ", " (drop k items)).
  assert (Z.of_nat (String.length jk) >= limit) as Hjk.
  { pose proof (join_length ", " (take k items)
                  (Forall_take _ k _ Hitems) Htake) as Hlen.
    rewrite length_take in Hlen. simpl String.length in Hlen.
    fold jk in Hlen. lia. }
  unfold clip_string. rewrite string_length_app.
  destruct (Z.ltb_spec (Z.of_nat (String.length jk)) limit); [lia|].
  destruct (Z.ltb_spec
              (Z.of_nat (String.length jk + String.length jd)) limit); [lia|].
  assert (slice_to (jk +:+ jd) (limit - 3) = slice_to jk (limit - 3)) as ->;
    [|done].
  unfold slice_to. destruct (Z.ltb_spec (limit - 3) 0); [lia|].
  apply take_str_app. lia.
Qed.

Lemma clipped_list_less_lookups_witness :
  clipped_list ["age"; "sex"; "cp"; "chol"] 10 true 10 EmptyString
  = clipped_list ["age"; "sex"; "cp"; "chol"] 10 false 10 EmptyString.
Proof.
  apply clipped_list_less_lookups; [lia | reflexivity |].
  repeat constructor; discriminate.
Defined.

(** For other limits the two differ: with the limit 9, three one-letter
    items make 7 characters, which is below the limit, so the clipped text
    shows no ellipsis although two items are missing. *)
Example clipped_list_less_lookups_differs :
  clipped_list ["a"; "b"; "c"; "d"; "e"] 9 true 10 EmptyString = Ok "a, b, c"
  /\ clipped_list ["a"; "b"; "c"; "d"; "e"] 9 false 10 EmptyString
     = Ok "a, b, ...".
Proof. split; reflexivity. Qed.

(** *** [str.format] on plain text and on named fields *)

Fixpoint brace_free (a : string) : bool :=
  match a with
  | EmptyString => true
  | String c r =>
      negb (Ascii.eqb c "{"%char) && negb (Ascii.eqb c "}"%char)
      && brace_free r
  end.

(** A field name without a closing brace and without the characters that
    start a conversion, a specification, an attribute or an index. *)
Fixpoint plain_name (a : string) : bool :=
  match a with
  | EmptyString => true
  | String c r =>
      negb (Ascii.eqb c "}"%char) && negb (is_special c) && plain_name r
  end.

Lemma prepend_prepend a b r : prepend a (prepend b r) = prepend (a +:+ b) r.
Proof. destruct r; simpl; [|done|done]. by rewrite string_app_assoc. Qed.

Lemma prepend_empty r : prepend EmptyString r = r.
Proof. by destruct r. Qed.

Lemma format_go_lit args kwargs num a rest :
  brace_free a = true ->
  format_go args kwargs num None (a +:+ rest)
  = prepend a (format_go args kwargs num None rest).
Proof.
  induction a as [|c a IH]; intros Ha.
  - by rewrite prepend_empty.
  - simpl in Ha. apply andb_prop in Ha as [Hc Ha].
    apply andb_prop in Hc as [Hopen Hclose].
    rewrite string_app_cons. cbn [format_go].
    rewrite (negb_true_iff _) in Hopen. rewrite (negb_true_iff _) in Hclose.
    rewrite Hopen, Hclose, (IH Ha), prepend_prepend. done.
Qed.

Lemma format_go_name args kwargs num acc name rest :
  plain_name name = true ->
  format_go args kwargs num (Some acc) (name +:+ "}" +:+ rest)
  = match lookup_field args kwargs num (acc +:+ name) with
    | inl e => Raise e
    | inr (text, num') => prepend text (format_go args kwargs num' None rest)
    end.
Proof.
  revert acc. induction name as [|c name IH]; intros acc Hname.
  - rewrite string_app_empty_r. done.
  - simpl in Hname. apply andb_prop in Hname as [Hc Hname].
    apply andb_prop in Hc as [Hclose Hspecial].
    rewrite (negb_true_iff _) in Hclose. rewrite (negb_true_iff _) in Hspecial.
    rewrite string_app_cons. cbn [format_go].
    rewrite Hclose, Hspecial, (IH _ Hname), string_app_assoc. done.
Qed.

Lemma format_go_field args kwargs num name rest :
  plain_name name = true ->
  format_go args kwargs num None ("{" +:+ name +:+ "}" +:+ rest)
  = match lookup_field args kwargs num name with
    | inl e => Raise e
    | inr (text, num') => prepend text (format_go args kwargs num' None rest)
    end.
Proof.
  intros Hname.
  change ("{" +:+ name +:+ "}" +:+ rest)
    with (String "{" (name +:+ "}" +:+ rest)).
  pose proof (format_go_name args kwargs num EmptyString name rest Hname)
    as Hgo.
  change (EmptyString +:+ name) with name in Hgo. rewrite <- Hgo.
  destruct name as [|c name]; [done|].
  rewrite string_app_cons. cbn [format_go].
  simpl in Hname. apply andb_prop in Hname as [Hc _].
  apply andb_prop in Hc as [_ Hspecial].
  rewrite (negb_true_iff _) in Hspecial.
  unfold is_special in Hspecial. simpl in Hspecial.
  apply orb_false_elim in Hspecial as [Hopen _].
  change (Ascii.eqb "{" "{") with true. cbv iota. by rewrite Hopen.
Qed.

(** *** [plural] *)

(** A format string made of plain text and the two fields that [plural]
    fills. *)
Inductive Piece :=
| Lit (a : string)
| Number
| Suffix.

Definition piece_source (p : Piece) : string :=
  match p with
  | Lit a => a
  | Number => "{number}"
  | Suffix => "{s}"
  end.

Definition template (ps : list Piece) : string :=
  foldr (fun p acc => piece_source p +:+ acc) EmptyString ps.

Definition piece_ok (p : Piece) : Prop :=
  match p with
  | Lit a => brace_free a = true
  | _ => True
  end.

Definition fill (number : string) (suffix : string) (ps : list Piece)
  : string :=
  foldr (fun p acc =>
           match p with
           | Lit a => a
           | Number => number
           | Suffix => suffix
           end +:+ acc) EmptyString ps.

Lemma lookup_number number suffix num :
  lookup_field [] [("number", number); ("s", suffix)] num "number"
  = inr (number, num).
Proof. reflexivity. Qed.

Lemma lookup_suffix number suffix num :
  lookup_field [] [("number", number); ("s", suffix)] num "s"
  = inr (suffix, num).
Proof. reflexivity. Qed.

Lemma format_template number suffix num ps :
  Forall piece_ok ps ->
  format_go [] [("number", number); ("s", suffix)] num None (template ps)
  = Ok (fill number suffix ps).
Proof.
  induction 1 as [|p ps Hp Hps IH]; [done|].
  simpl template. simpl fill. destruct p as [a| |].
  - rewrite format_go_lit by done. by rewrite IH.
  - change (piece_source Number +:+ template ps)
      with ("{" +:+ "number" +:+ "}" +:+ template ps).
    rewrite format_go_field by done. by rewrite lookup_number, IH.
  - change (piece_source Suffix +:+ template ps) with ("{" +:+ "s" +:+ "}" +:+ template ps).
    rewrite format_go_field by done. by rewrite lookup_suffix, IH.
Qed.

(** [plural] puts the number at every [{number}] and, at every [{s}], the
    suffix unless [number % 100] is 1: the singular is used for 1, and also
    for 101, 201 and -99, while 11 takes the suffix. *)
Theorem plural_fills_template (ps : list Piece) (number : Z)
    (suffix : string) :
  Forall piece_ok ps ->
  plural (template ps) number suffix
  = Ok (fill (pretty number)
          (if number mod 100 =? 1 then EmptyString else suffix) ps).
Proof.
  intros Hps. unfold plural, format. rewrite format_template by done.
  by destruct (number mod 100 =? 1).
Qed.

Lemma plural_fills_template_witness :
  plural "I saw {number} fox{s} in the forest" 101 "es"
  = Ok "I saw 101 fox in the forest".
Proof.
  apply (plural_fills_template
           [Lit "I saw "; Number; Lit " fox"; Suffix; Lit " in the forest"]
           101 "es").
  repeat constructor.
Defined.

(** *** [plural_w] *)

Fixpoint no_letters (s : string) : bool :=
  match s with
  | EmptyString => true
  | String c r =>
      negb (Commit.is_upper c) && negb (Commit.is_lower c) && no_letters r
  end.

Lemma lower_no_letters s : no_letters s = true -> lower s = s.
Proof.
  induction s as [|c r IH]; [done|]. simpl. intros H.
  apply andb_prop in H as [Hc Hr]. apply andb_prop in Hc as [Hup _].
  rewrite (negb_true_iff _) in Hup. by rewrite Hup, IH.
Qed.

Lemma capitalize_no_letters s : no_letters s = true -> capitalize s = s.
Proof.
  destruct s as [|c r]; [done|]. simpl. intros H.
  apply andb_prop in H as [Hc Hr]. apply andb_prop in Hc as [_ Hlow].
  rewrite (negb_true_iff _) in Hlow. by rewrite Hlow, lower_no_letters.
Qed.

Lemma pretty_N_go_no_letters x s :
  no_letters s = true -> no_letters (pretty_N_go x s) = true.
Proof.
  revert s. induction (N.lt_wf_0 x) as [x _ IH]; intros s Hs.
  destruct (decide (x = 0)%N) as [->|Hx]; [by rewrite pretty_N_go_0|].
  rewrite pretty_N_go_step by lia.
  apply IH; [apply N.div_lt; lia|].
  simpl. rewrite Hs, andb_true_r.
  unfold pretty_N_char. by repeat case_match.
Qed.

Lemma pretty_Z_no_letters z : 0 <= z -> no_letters (pretty z) = true.
Proof.
  intros Hz. destruct z as [|p|p]; [done| |lia].
  change (pretty (Z.pos p)) with (pretty (N.pos p)).
  unfold pretty, pretty_N. case_decide; [done|].
  by apply pretty_N_go_no_letters.
Qed.

(** From 10 on [plural_w] writes the numeral, capitalized or not, and
    agrees with [plural] on every format string whose replacement fields
    are interpreted here, that is, carry no conversion, format
    specification, attribute or index (with one of these the number is
    formatted as an [int] by [plural] and as a [str] by [plural_w]); below
    -10 it raises [IndexError] before it formats, whatever the format
    string; and since the table of words has no entry for eight, the
    numbers 8 and 9 are written as nine and ten. *)
Theorem plural_w_numbers (s : string) (number : Z) (suffix : string)
    (capitalize_ : bool) :
  (10 <= number -> plural s number suffix <> Unsupported ->
   plural_w s number suffix capitalize_ = plural s number suffix)
  /\ (number < -10 -> plural_w s number suffix capitalize_ = Raise Py.IndexErr)
  /\ (forall ps, Forall piece_ok ps ->
        plural_w (template ps) 8 suffix false = Ok (fill "nine" suffix ps)
        /\ plural_w (template ps) 9 suffix false = Ok (fill "ten" suffix ps)).
Proof.
  split; [|split].
  - intros Hn _. unfold plural_w, number_str, plural.
    change (Z.of_nat (List.length numbers)) with 10.
    destruct (Z.ltb_spec number 10); [lia|].
    destruct capitalize_; [|done].
    rewrite capitalize_no_letters; [done|].
    apply pretty_Z_no_letters. lia.
  - intros Hn. unfold plural_w, number_str, tuple_item.
    change (Z.of_nat (List.length numbers)) with 10.
    destruct (Z.ltb_spec number 10); [|lia].
    destruct (Z.ltb_spec number 0); [|lia].
    by destruct (Z.ltb_spec (number + 10) 0); [|lia].
  - intros ps Hps. split.
    + unfold plural_w.
      change (number_str 8) with (inr "nine" : Py.Err + string).
      cbv iota. unfold format. by rewrite format_template.
    + unfold plural_w.
      change (number_str 9) with (inr "ten" : Py.Err + string).
      cbv iota. unfold format. by rewrite format_template.
Qed.

Lemma plural_w_numbers_witness :
  plural_w "{number} row{s}" 12 "s" true = plural "{number} row{s}" 12 "s"
  /\ plural_w "{number} row{s}" (-11) "s" true = Raise Py.IndexErr
  /\ plural_w "{number} row{s}" 8 "s" false = Ok "nine rows".
Proof.
  pose proof (plural_w_numbers "{number} row{s}" 12 "s" true) as (H1 & _).
  pose proof (plural_w_numbers "{number} row{s}" (-11) "s" true)
    as (_ & H2 & _).
  pose proof (plural_w_numbers "{number} row{s}" 8 "s" false)
    as (_ & _ & H3).
  split; [apply H1; [lia|discriminate]|]. split; [apply H2; lia|].
  apply (H3 [Number; Lit " row"; Suffix]). repeat constructor.
Defined.

(** *** [render_items] *)

Lemma join_empty_cons x rest :
  join EmptyString (x :: rest) = x +:+ join EmptyString rest.
Proof. destruct rest; [by rewrite string_app_empty_r | done]. Qed.

Lemma join_empty_app a b :
  join EmptyString (a ++ b) = join EmptyString a +:+ join EmptyString b.
Proof.
  induction a as [|x a IH]; [done|].
  change ((x :: a) ++ b) with (x :: (a ++ b)).
  by rewrite !join_empty_cons, IH, string_app_assoc.
Qed.

Lemma render_items_app a b :
  render_items (a ++ b)
  = "<ul>"
    +:+ join EmptyString (item_line <$> filter (fun kv => reported kv = true) a)
    +:+ join EmptyString (item_line <$> filter (fun kv => reported kv = true) b)
    +:+ "</ul>".
Proof.
  unfold render_items.
  by rewrite filter_app, fmap_app, join_empty_app, !string_app_assoc.
Qed.

(** [render_items] leaves out exactly the pairs whose value is [None] or
    [False]: dropping a pair from the sequence changes the rendered list if
    and only if its value is something else, be it 0 or the empty string. *)
Theorem render_items_skips (a b : list (Prim * Prim)) (k v : Prim) :
  render_items (a ++ (k, v) :: b) = render_items (a ++ b)
  <-> v = PNone \/ v = PBool false.
Proof.
  rewrite !render_items_app. split.
  - intros H. destruct (reported (k, v)) eqn:E.
    + exfalso. rewrite filter_cons_True in H by done.
      rewrite fmap_cons, join_empty_cons in H.
      apply (f_equal String.length) in H.
      rewrite !string_length_app in H.
      unfold item_line in H at 2. rewrite !string_length_app in H.
      simpl String.length in H. lia.
    + destruct v as [|[]| |]; try discriminate; auto.
  - intros Hv. rewrite filter_cons_False; [done|].
    destruct Hv as [-> | ->]; by simpl.
Qed.

(** *** The report methods append *)

Definition call_text (c : Call) : string :=
  match c with
  | CallName n =>
      if decide (n = EmptyString) then EmptyString
      else Report.get_html_subsection n
  | CallItems n items =>
      match n with
      | Some (String c n') =>
          Report.get_html_subsection (String c n') +:+ render_items items
      | _ => render_items items
      end
  | CallParagraph n (Some text) =>
      (if decide (n = EmptyString) then EmptyString
       else Report.get_html_subsection n) +:+ "<p>" +:+ text +:+ "</p>"
  | CallParagraph text None => "<p>" +:+ text +:+ "</p>"
  | CallCaption text => "<p class='caption'>" +:+ text +:+ "</p>"
  | CallRaw n (Some html) =>
      (if decide (n = EmptyString) then EmptyString
       else Report.get_html_subsection n) +:+ html
  | CallRaw html None => html
  end.

Lemma run_call_appends c r :
  Report.report_html (run_call c r) = Report.report_html r +:+ call_text c
  /\ Report.name (run_call c r) = Report.name r.
Proof.
  destruct c as [n|n items|n text|text|n html]; simpl.
  - unfold Report.report_name. case_decide; simpl;
      by rewrite ?string_app_empty_r.
  - unfold report_items, Report.report_name.
    destruct n as [[|c n]|]; simpl; by rewrite ?string_app_assoc.
  - unfold Report.report_paragraph, Report.report_name.
    destruct text as [text|]; simpl.
    + case_decide; simpl; by rewrite ?string_app_assoc.
    + by rewrite ?string_app_assoc.
  - done.
  - unfold Report.report_raw, Report.report_name.
    destruct html as [html|]; simpl; [|done].
    case_decide; simpl; by rewrite ?string_app_assoc.
Qed.

Lemma send_report_of_appends calls r :
  Report.report_html (send_report_of calls r)
  = Report.report_html r +:+ join EmptyString (call_text <$> calls)
  /\ Report.name (send_report_of calls r) = Report.name r.
Proof.
  revert r. induction calls as [|c calls IH]; intros r.
  - simpl. by rewrite string_app_empty_r.
  - simpl send_report_of. destruct (IH (run_call c r)) as [-> ->].
    destruct (run_call_appends c r) as [-> ->].
    by rewrite fmap_cons, join_empty_cons, string_app_assoc.
Qed.

Lemma string_app_inv_head (a x y : string) : a +:+ x = a +:+ y -> x = y.
Proof.
  induction a as [|c a IH]; [done|]. rewrite !string_app_cons.
  intros [= H]. by apply IH.
Qed.

Lemma string_app_same_length (a b x y : string) :
  String.length a = String.length b -> a +:+ x = b +:+ y -> a = b.
Proof.
  revert b. induction a as [|c a IH]; intros [|d b] Hlen; try done.
  simpl in Hlen. rewrite !string_app_cons. intros [= -> H].
  f_equal. apply IH; [lia | done].
Qed.

Lemma string_app_inv_tail (a b t : string) : a +:+ t = b +:+ t -> a = b.
Proof.
  intros H. apply (string_app_same_length a b t t); [|done].
  apply (f_equal String.length) in H. rewrite !string_length_app in H. lia.
Qed.

(** A [send_report] made of calls to [report_name], [report_items],
    [report_paragraph], [report_caption] and [report_raw] only appends to
    [report_html], a text fixed by the arguments of the calls.  So
    [create_report_html] builds the same section whatever [report_html]
    held before; a second call gives what a single call gives at the clock
    reading of the second, and it leaves the report as the first call made
    it exactly when the two clock readings are the same: two calls differ
    in the time stamp only. *)
Theorem create_report_html_fresh (calls : list Call) (d1 d2 : string)
    (r : Report.Report) :
  let create := Report.create_report_html (send_report_of calls) in
  Report.report_html (send_report_of calls r)
  = Report.report_html r +:+ join EmptyString (call_text <$> calls)
  /\ (forall h, create d1 (Report.set_html h r) = create d1 r)
  /\ create d2 (create d1 r) = create d2 r
  /\ (create d2 (create d1 r) = create d1 r <-> d1 = d2).
Proof.
  assert (forall d r', Report.create_report_html (send_report_of calls) d r'
            = Report.mkReport (Report.name r')
                (Report.section_open
                 +:+ Report.get_html_section d (Report.name r')
                 +:+ Report.content_open
                 +:+ join EmptyString (call_text <$> calls)
                 +:+ Report.section_close)) as Hcreate.
  { intros d r'. unfold Report.create_report_html, Report.iadd_html,
      Report.set_html. simpl.
    destruct (send_report_of_appends calls (Report.before_send d r'))
      as [-> ->].
    simpl. by rewrite !string_app_assoc. }
  cbv zeta.
  split; [apply send_report_of_appends|]. split; [|split].
  - intros h. by rewrite !Hcreate.
  - by rewrite !Hcreate.
  - rewrite !Hcreate. cbn [Report.name]. split; [|by intros ->].
    intros H. apply (f_equal Report.report_html) in H.
    cbn [Report.report_html] in H.
    apply (string_app_inv_head Report.section_open) in H.
    unfold Report.get_html_section in H.
    rewrite !string_app_assoc in H.
    apply (string_app_inv_head "<h1>") in H.
    apply (string_app_inv_head (Report.name r)) in H.
    apply (string_app_inv_head " <span class='timestamp'>") in H.
    symmetry. by apply string_app_inv_tail in H.
Qed.

End TextFacts.

Module DisabledStateFacts.
Import CheckBoxWithDisabledState.

(** The box shows its true state when enabled and [disabledState]
    otherwise. *)
Definition consistent (c : CheckBox) : Prop :=
  checkState c = if isEnabled c then trueState c else disabledState c.

Definition is_switch (op : Op) : Prop :=
  match op with SetEnabled _ => True | _ => False end.

(** Every click of the run that reaches the enabled box finds it
    two-state. *)
Fixpoint two_state_clicks (c : CheckBox) (ops : list Op) : Prop :=
  match ops with
  | [] => True
  | op :: rest =>
      (op = Click -> isEnabled c = true -> tristate c = false)
      /\ two_state_clicks (step c op) rest
  end.

Lemma step_consistent c op :
  consistent c ->
  (op = Click -> isEnabled c = true -> tristate c = false) ->
  consistent (step c op) /\ disabledState (step c op) = disabledState c.
Proof.
  unfold consistent. intros Hc Hclick. destruct op as [st|v|b|]; simpl.
  - done.
  - done.
  - unfold setEnabled. destruct (Bool.eqb b (isEnabled c)); done.
  - unfold click, nextCheckState.
    destruct (isEnabled c) eqn:E; simpl; [|by rewrite E].
    rewrite (Hclick eq_refl eq_refl). split; [|done].
    rewrite E. by destruct (checkState c =? Binding.Unchecked).
Qed.

Lemma step_switch c op :
  is_switch op -> trueState (step c op) = trueState c.
Proof.
  destruct op as [st|v|b|]; try done. intros _. simpl. unfold setEnabled.
  by destruct (Bool.eqb b (isEnabled c)).
Qed.

(** Whatever is done to a box that shows the right state, by
    [setCheckState], [setChecked], [setEnabled] or by clicks that find the
    box two-state, it keeps showing its true state while enabled and
    [disabledState] while disabled; and enabling or disabling it never
    changes the true state, so that a state set before the box was disabled
    is shown again once it is enabled. *)
Theorem disabled_state_shown (c : CheckBox) (ops : list Op) :
  consistent c -> two_state_clicks c ops ->
  checkState (foldl step c ops)
  = (if isEnabled (foldl step c ops) then trueState (foldl step c ops)
     else disabledState c)
  /\ (Forall is_switch ops -> trueState (foldl step c ops) = trueState c).
Proof.
  revert c. induction ops as [|op ops IH]; intros c Hc Hclicks; [done|].
  simpl. destruct Hclicks as [Hclick Hrest].
  destruct (step_consistent c op Hc Hclick) as [Hc' Hd].
  destruct (IH _ Hc' Hrest) as [Hshown Htrue]. rewrite Hd in Hshown.
  split; [done|]. intros Hops. inversion Hops as [|? ? Hop Hrest']; subst.
  rewrite (Htrue Hrest'). by apply step_switch.
Qed.

Lemma disabled_state_shown_witness :
  checkState (foldl step (__init__ true Binding.Unchecked)
                [Click; SetEnabled false])
  = Binding.Unchecked
  /\ checkState (foldl step (setCheckState Binding.PartiallyChecked
                               (__init__ true Binding.Checked))
                   [SetEnabled false; SetEnabled true])
     = Binding.PartiallyChecked.
Proof.
  split.
  - apply (disabled_state_shown (__init__ true Binding.Unchecked)
             [Click; SetEnabled false]); [reflexivity|].
    simpl. repeat split; done.
  - pose proof (disabled_state_shown
                  (setCheckState Binding.PartiallyChecked
                     (__init__ true Binding.Checked))
                  [SetEnabled false; SetEnabled true] eq_refl) as H.
    destruct H as [H1 H2]; [simpl; repeat split; done|].
    rewrite H1. apply H2. repeat constructor.
Defined.

(** A click on a tri-state box is outside the rule: a box that was once
    partially checked goes from unchecked to partially checked on a click,
    while [clicked(True)] stores [Checked] as its true state. *)
Lemma tristate_click_stores_checked :
  let c := foldl step (__init__ true Binding.Checked)
             [SetCheckState Binding.PartiallyChecked;
              SetCheckState Binding.Unchecked; Click] in
  checkState c = Binding.PartiallyChecked /\ trueState c = Binding.Checked.
Proof. split; reflexivity. Qed.

End DisabledStateFacts.

Module LineEditFacts.
Import LineEditWFocusOut.

Definition is_cback (c : Call) : bool :=
  match c with Cback _ => true | _ => false end.
Definition is_callback (c : Call) : bool :=
  match c with Callback => true | _ => false end.
Definition is_edit (ev : Event) : bool :=
  match ev with TextEdited _ => true | _ => false end.

Definition count {A} (p : A -> bool) (l : list A) : nat :=
  List.length (List.filter p l).

Lemma count_app {A} (p : A -> bool) l1 l2 :
  count p (l1 ++ l2) = (count p l1 + count p l2)%nat.
Proof. unfold count. by rewrite List.filter_app, length_app. Qed.

Definition pending_edit (e : LineEdit) : nat := if changed e then 1%nat else 0%nat.

Lemma lineedit_step_count (p : Call -> bool) e ev :
  (p = is_cback \/ p = is_callback) ->
  (count p (calls (step e ev)) + pending_edit (step e ev)
   <= count p (calls e) + pending_edit e + count is_edit [ev])%nat.
Proof.
  intros Hp. unfold pending_edit.
  destruct e as [txt [] [] [] [] cs]; destruct ev as [t| |t| |];
    cbn -[count]; rewrite ?count_app; destruct Hp as [-> | ->];
    unfold count; simpl; lia.
Qed.

Lemma lineedit_run_count (p : Call -> bool) evs e :
  (p = is_cback \/ p = is_callback) ->
  (count p (calls (foldl step e evs)) + pending_edit (foldl step e evs)
   <= count p (calls e) + pending_edit e + count is_edit evs)%nat.
Proof.
  intros Hp. revert e. induction evs as [|ev evs IH]; intros e.
  - simpl. unfold count at 3. simpl. lia.
  - simpl foldl. specialize (IH (step e ev)).
    pose proof (lineedit_step_count p e ev Hp) as Hstep.
    change (ev :: evs) with ([ev] ++ evs). rewrite count_app. lia.
Qed.

(** The texts that wait for delivery or were delivered come from the
    user. *)
Definition typed (evs : list Event) (e : LineEdit) : Prop :=
  (changed e = true -> TextEdited (text e) ∈ evs)
  /\ forall t, Cback t ∈ calls e -> TextEdited t ∈ evs.

Ltac split_membership :=
  repeat match goal with
         | H : _ ∈ _ ++ _ |- _ => apply elem_of_app in H as [H|H]
         | H : _ ∈ [_] |- _ => apply list_elem_of_singleton in H
         | H : Cback _ = Cback _ |- _ => injection H as ->
         | H : Cback _ = _ |- _ => discriminate H
         end.

Lemma step_typed evs e ev : typed evs e -> typed (evs ++ [ev]) (step e ev).
Proof.
  intros [Hpend Hcalls].
  destruct e as [txt ch cb cl fi cs]; simpl in *.
  destruct ev as [t| |t| |]; destruct ch, cb, cl, fi; cbn;
    (split; [try done; intros _; apply elem_of_app; right;
             by apply list_elem_of_singleton|]);
    intros t' Ht'; simpl in Ht'; split_membership; apply elem_of_app; left;
    auto.
Qed.

Lemma run_typed evs0 evs e :
  typed evs0 e -> typed (evs0 ++ evs) (foldl step e evs).
Proof.
  revert evs0 e. induction evs as [|ev evs IH]; intros evs0 e He.
  - by rewrite app_nil_r.
  - simpl foldl. change (ev :: evs) with ([ev] ++ evs).
    rewrite app_assoc. apply IH. by apply step_typed.
Qed.

(** Starting with no edit pending_edit, the line edit calls [cback] and
    [callback] at most once for each time the user edits the text, however
    often return is pressed or the focus leaves; and [cback] only ever
    receives a text that the user typed.  In particular a text set by
    [setText] alone is never called back. *)
Theorem callbacks_once_per_edit (e : LineEdit) (evs : list Event) :
  changed e = false -> calls e = [] ->
  (count is_cback (calls (foldl step e evs)) <= count is_edit evs)%nat
  /\ (count is_callback (calls (foldl step e evs)) <= count is_edit evs)%nat
  /\ forall t, Cback t ∈ calls (foldl step e evs) -> TextEdited t ∈ evs.
Proof.
  intros Hch Hcalls.
  pose proof (lineedit_run_count is_cback evs e (or_introl eq_refl)) as H1.
  pose proof (lineedit_run_count is_callback evs e (or_intror eq_refl)) as H2.
  unfold pending_edit in H1, H2. rewrite Hch, Hcalls in H1, H2.
  unfold count at 2 in H1. unfold count at 2 in H2. simpl in H1, H2.
  split; [lia|]. split; [lia|].
  assert (typed [] e) as Ht.
  { split; [by rewrite Hch|]. rewrite Hcalls. intros t Ht.
    by apply elem_of_nil in Ht. }
  apply (run_typed [] evs e Ht).
Qed.

Definition new_edit : LineEdit := mkLineEdit EmptyString false true true false [].

Lemma callbacks_once_per_edit_witness :
  (count is_cback
     (calls (foldl step new_edit
               [SetText "0.5"; FocusIn; TextEdited "0.7"; ReturnPressed;
                FocusOut])) <= 1)%nat.
Proof.
  apply (callbacks_once_per_edit new_edit
           [SetText "0.5"; FocusIn; TextEdited "0.7"; ReturnPressed; FocusOut]);
    reflexivity.
Defined.

End LineEditFacts.

Module NotificationFacts.
Import DelayedNotification.

Lemma prim_eq_refl a : Py.prim_eq a a = true.
Proof.
  destruct a as [|b|z|s]; simpl; [done|by destruct b|apply Z.eqb_refl|].
  apply String.eqb_refl.
Qed.

Lemma tuple_eq_refl a : tuple_eq a a = true.
Proof. induction a as [|x a IH]; [done|]. simpl. by rewrite prim_eq_refl. Qed.

Lemma value_eq_refl a : value_eq a a = true.
Proof. destruct a; [apply tuple_eq_refl | done]. Qed.

(** No two successive entries are equal. *)
Fixpoint adjacent_differ (l : list (option (list Prim))) : Prop :=
  match l with
  | a :: rest =>
      match rest with
      | b :: _ => value_eq a b = false /\ adjacent_differ rest
      | [] => True
      end
  | [] => True
  end.

Lemma adjacent_differ_snoc pre x y :
  adjacent_differ (pre ++ [x]) -> value_eq x y = false ->
  adjacent_differ ((pre ++ [x]) ++ [y]).
Proof.
  intros Hpre Hxy. induction pre as [|a pre IH]; [done|].
  destruct pre as [|b pre]; simpl in *; [tauto|].
  destruct Hpre as [Hab Hrest]. split; [done|]. by apply IH.
Qed.

Definition is_changed (ev : Event) : bool :=
  match ev with Changed _ => true | _ => false end.

Definition pending_notification (n : Notifier) : nat :=
  if _did_notify n && value_eq (_last_notified n) (_last_value n)
  then 0%nat else 1%nat.

(** What holds of a notifier at any time. *)
Definition inv (n : Notifier) : Prop :=
  (_did_notify n = false -> emitted n = [])
  /\ (_did_notify n = true ->
      exists pre, emitted n = pre ++ [_last_notified n])
  /\ adjacent_differ (emitted n).

Lemma notify_immediately_inv n : inv n -> inv (notify_immediately n).
Proof.
  intros (Hnone & Hsome & Hadj). unfold notify_immediately.
  destruct (_did_notify n) eqn:Hdid; simpl.
  - destruct (value_eq (_last_notified n) (_last_value n)) eqn:Heq.
    + split; [done|]. split; [intros _; by apply Hsome | done].
    + destruct (Hsome eq_refl) as [pre Hpre].
      split; [done|]. split; [intros _; eauto|]. simpl.
      rewrite Hpre in *. by apply adjacent_differ_snoc.
  - split; [done|]. split; [intros _; simpl; eauto|]. simpl.
    by rewrite (Hnone eq_refl).
Qed.

Lemma notifier_step_inv n ev : inv n -> inv (step n ev).
Proof.
  intros Hn. destruct ev as [args| |]; simpl.
  - exact Hn.
  - unfold timer_timeout. destruct (timer_active n); [|done].
    by apply notify_immediately_inv.
  - by apply notify_immediately_inv.
Qed.

Lemma notify_immediately_count n :
  (List.length (emitted (notify_immediately n))
   + pending_notification (notify_immediately n)
   = List.length (emitted n) + pending_notification n)%nat.
Proof.
  unfold notify_immediately, pending_notification.
  destruct (_did_notify n && value_eq (_last_notified n) (_last_value n))
    eqn:E; simpl.
  - by rewrite E.
  - rewrite value_eq_refl, length_app. simpl. lia.
Qed.

Lemma notifier_step_count n ev :
  (List.length (emitted (step n ev)) + pending_notification (step n ev)
   <= List.length (emitted n) + pending_notification n
      + (if is_changed ev then 1 else 0))%nat.
Proof.
  destruct ev as [args| |]; simpl.
  - unfold pending_notification. simpl.
    destruct (_did_notify n && value_eq (_last_notified n) (Some args));
      destruct (_did_notify n && value_eq (_last_notified n) (_last_value n));
      lia.
  - unfold timer_timeout. destruct (timer_active n); [|lia].
    rewrite notify_immediately_count. lia.
  - rewrite notify_immediately_count. lia.
Qed.

Lemma notifier_run_inv evs n :
  inv n ->
  inv (foldl step n evs)
  /\ (List.length (emitted (foldl step n evs)) + pending_notification (foldl step n evs)
      <= List.length (emitted n) + pending_notification n
         + List.length (List.filter is_changed evs))%nat.
Proof.
  revert n. induction evs as [|ev evs IH]; intros n Hn.
  - simpl. split; [done | lia].
  - simpl foldl. destruct (IH (step n ev) (notifier_step_inv n ev Hn)) as [Hinv Hcount].
    split; [done|]. pose proof (notifier_step_count n ev) as Hstep.
    simpl List.filter. destruct (is_changed ev); simpl List.length; lia.
Qed.

(** Whatever calls of [changed] and [notify_immediately] and whatever
    timeouts follow the construction, no two successive notifications are
    made for equal values, and there are at most as many notifications as
    calls of [changed], plus one. *)
Theorem notifications_differ (evs : list Event) :
  adjacent_differ (emitted (foldl step __init__ evs))
  /\ (List.length (emitted (foldl step __init__ evs))
      <= 1 + List.length (List.filter is_changed evs))%nat.
Proof.
  assert (inv __init__) as Hinit.
  { split; [done|]. split; [done|]. done. }
  destruct (notifier_run_inv evs __init__ Hinit) as [(_ & _ & Hadj) Hcount].
  split; [done|]. unfold pending_notification in Hcount at 2. simpl in Hcount. lia.
Qed.

End NotificationFacts.

Module SpinBoxFacts.
Import SpinBoxMixin.

Definition idle (s : SpinBox) : Prop :=
  mouseHeld s = false /\ textEditing s = false.

(** What the user does between the start and the end of an edit: the value
    changes, keys are pressed. *)
Definition during_edit (ev : Event) : Prop :=
  match ev with
  | ValueChanged _ | KeyPress => True
  | _ => False
  end.

(** The value after the events [evs], as Qt holds it. *)
Definition last_value (v : Z) (evs : list Event) : Z :=
  foldl (fun v ev => match ev with ValueChanged v' => v' | _ => v end) v evs.

(** The spin box is in the middle of an edit that started at the value
    [v0]. *)
Definition editing (v0 : Z) (s : SpinBox) : Prop :=
  (mouseHeld s = true \/ textEditing s = true)
  /\ (if textEditing s then preEditvalue s else preDragValue s) = v0.

Lemma during_edit_step v0 s ev :
  editing v0 s -> during_edit ev ->
  editing v0 (step s ev)
  /\ committed (step s ev) = committed s
  /\ value (step s ev)
     = match ev with ValueChanged v' => v' | _ => value s end.
Proof.
  intros [Hflags Hv0] Hev. unfold editing in *.
  destruct s as [v [] [] pd pe cm]; destruct ev as [| | |v'|];
    simpl in *; try done; by destruct Hflags.
Qed.

Lemma during_edit_run v0 evs s :
  editing v0 s -> Forall during_edit evs ->
  editing v0 (foldl step s evs)
  /\ committed (foldl step s evs) = committed s
  /\ value (foldl step s evs) = last_value (value s) evs.
Proof.
  intros Hs Hevs. revert s Hs.
  induction Hevs as [|ev evs Hev _ IH]; intros s Hs; [done|].
  simpl. destruct (during_edit_step v0 s ev Hs Hev) as (Hs' & Hc & Hv).
  destruct (IH _ Hs') as (H1 & H2 & H3).
  split; [done|]. split; [congruence|]. rewrite H3, Hv. done.
Qed.

Lemma __onEditingFinished_editing v0 s :
  editing v0 s ->
  idle (__onEditingFinished s)
  /\ value (__onEditingFinished s) = value s
  /\ committed (__onEditingFinished s)
     = committed s ++ (if v0 =? value s then [] else [value s]).
Proof.
  intros [Hflags Hv0]. unfold __onEditingFinished, idle.
  destruct s as [v [] [] pd pe cm]; simpl in *;
    try (by destruct Hflags); subst v0;
    match goal with
    | |- context [?a =? ?b] => destruct (a =? b)
    end; simpl; by rewrite ?app_nil_r.
Qed.

(** An edit of an idle spin box starts with a key or a mouse press and ends
    when editing finishes or the mouse button is released.  However the
    value changes in between, nothing is committed before the end; at the
    end the final value is committed once if it differs from the value at
    the start, and not at all if it is the same; the spin box is idle
    again. *)
Theorem edit_commits_once (s : SpinBox) (start finish : Event)
    (evs : list Event) :
  idle s ->
  start = KeyPress \/ start = MouseButtonPress ->
  finish = EditingFinished \/ finish = MouseButtonRelease ->
  Forall during_edit evs ->
  let s' := foldl step s (start :: evs ++ [finish]) in
  idle s'
  /\ committed (foldl step s (start :: evs)) = committed s
  /\ value s' = last_value (value s) evs
  /\ committed s'
     = committed s ++ (if value s =? value s' then [] else [value s']).
Proof.
  intros [Hm Ht] Hstart Hfinish Hevs.
  assert (editing (value s) (step s start)
          /\ committed (step s start) = committed s
          /\ value (step s start) = value s) as (Hed & Hc & Hv).
  { unfold editing. destruct Hstart as [-> | ->]; simpl.
    - rewrite Hm, Ht. simpl. auto.
    - rewrite Ht. auto. }
  destruct (during_edit_run _ evs _ Hed Hevs) as (Hed' & Hc' & Hv').
  simpl. rewrite foldl_app. simpl.
  assert (step (foldl step (step s start) evs) finish
          = __onEditingFinished (foldl step (step s start) evs)) as ->
    by (by destruct Hfinish as [-> | ->]).
  destruct (__onEditingFinished_editing _ _ Hed') as (Hidle & Hval & Hcom).
  split; [done|]. split; [congruence|]. split; [congruence|].
  rewrite Hcom, Hval, Hc', Hc. done.
Qed.

Definition idle_spin : SpinBox := mkSpinBox 5 false false 0 0 [].

Lemma edit_commits_once_witness :
  committed (foldl step idle_spin
               [KeyPress; ValueChanged 7; KeyPress; ValueChanged 8;
                EditingFinished])
  = [8].
Proof.
  pose proof (edit_commits_once idle_spin KeyPress EditingFinished
                [ValueChanged 7; KeyPress; ValueChanged 8]
                (conj eq_refl eq_refl) (or_introl eq_refl)
                (or_introl eq_refl)) as H.
  apply H. repeat constructor.
Defined.

End SpinBoxFacts.

Module GetterFacts.
Import Binding BindingFacts Getter.

Lemma getter_registered w o name comp reg f fr rest :
  objs w !! o = Some (Comp comp) -> controlled_attributes comp = Some reg ->
  reg !! name = Some (CFront f :: rest) -> fronts w !! f = Some fr ->
  ControlGetter__getattr__ o name w = inr (GotControl (control fr)).
Proof.
  intros Ho Hreg Hname Hf. unfold ControlGetter__getattr__.
  by rewrite Ho, Hreg, Hname, Hf.
Qed.

(** [connectControl] makes the control reachable through the getter:
    [master.controls.<value>] is the control of the call front it was
    given.  And the first call front connected for a name stays the one
    that the getter answers with, whatever is connected for the name
    later. *)
Theorem controls_after_connectControl :
  (forall master value f c fr fvcb w0 comp0 reg0 front0 ctl0,
     split_dot value = None -> nonempty value = true ->
     objs w0 !! master = Some (Comp comp0) ->
     controlled_attributes comp0 = Some reg0 -> reg0 !! value = None ->
     fronts w0 !! fr = Some front0 -> control front0 = c ->
     cf_opposite front0 = None -> 0 <= cf_disabled front0 ->
     controls w0 !! c = Some ctl0 -> slots ctl0 = [] ->
     exists triple w,
       connectControl master value f (Some c) (Some fr) None None fvcb w0
       = inr (triple, w)
       /\ ControlGetter__getattr__ master value w = inr (GotControl c))
  /\ (forall o name fn w w' c,
        split_dot name = None ->
        ControlGetter__getattr__ o name w = inr (GotControl c) ->
        connect_control o name fn w = Normal w' ->
        ControlGetter__getattr__ o name w' = inr (GotControl c)).
Proof.
  split.
  - intros master value f c fr fvcb w0 comp0 reg0 front0 ctl0
      Hdot Hne Ho Hreg Hregv Hfr Hc Hop Hfd Hctl Hslots.
    destruct (connectControl_Bound master value f c fr fvcb w0 comp0 reg0
                front0 ctl0 Hdot Hne Ho Hreg Hregv Hfr Hc Hop Hfd Hctl Hslots)
      as (w & Hrun & HB & _ & _).
    eexists _, w. split; [exact Hrun|].
    destruct HB as [_ (comp & reg & Hcomp & Hcreg & Hv) _
                      (front & Hfront & Hcontrol & _) _ _].
    rewrite (getter_registered w master value comp reg fr front []); congruence.
  - intros o name fn w w' c Hdot Hget Hconnect.
    unfold ControlGetter__getattr__ in Hget.
    destruct (objs w !! o) as [[comp|items]|] eqn:Ho; try done.
    destruct (controlled_attributes comp) as [reg|] eqn:Hreg; [|done].
    unfold connect_control in Hconnect.
    rewrite (connect_control_simple _ o name fn w comp reg Hdot Ho Hreg)
      in Hconnect.
    injection Hconnect as <-.
    destruct (reg !! name) as [[|[f| | |] rest]|] eqn:Hname; try done.
    + destruct (fronts w !! f) as [fr|] eqn:Hf; [|done].
      injection Hget as <-.
      eapply (getter_registered _ o name); simpl.
      * apply lookup_insert_eq.
      * done.
      * rewrite lookup_insert_eq. reflexivity.
      * done.
    + unfold controls_of in Hget.
      destruct (attrs comp !! name) as [[p|sub]|]; try done.
      destruct (objs w !! sub) as [[c'|items]|]; try done.
      destruct (attrs c' !! "controls"); [done|].
      by destruct (controlled_attributes c').
Qed.

(** A slider bound to the attribute [x] of a fresh component. *)
Lemma controls_after_connectControl_witness :
  exists triple w,
    connectControl 0 "x" [] (Some 1%nat) (Some 2%nat) None None None
      unbound_world
    = inr (triple, w)
    /\ ControlGetter__getattr__ 0 "x" w = inr (GotControl 1).
Proof.
  destruct controls_after_connectControl as [H _].
  eapply (H 0%nat "x" [] 1%nat 2%nat None unbound_world);
    try reflexivity; vm_compute; congruence.
Defined.

(** What the getter does with names it cannot serve: a name that is
    neither connected nor the attribute of a sub-component raises the
    [AttributeError] that names it, also when the attribute exists but holds
    a plain value; and when the first callable connected for the name is a
    plain function, which has no [control], the lookup fails as well. *)
Theorem controls_unknown_name (w : World) (o : nat) (name : string)
    (comp : Component) (reg : gmap string (list Callable)) :
  objs w !! o = Some (Comp comp) -> controlled_attributes comp = Some reg ->
  (reg !! name = None -> attrs comp !! name = None ->
   ControlGetter__getattr__ o name w
   = inl (AttributeError
            ("'" +:+ name +:+ "' is not an attribute related to a gui "
             +:+ "element or component")))
  /\ (forall p, reg !! name = None -> attrs comp !! name = Some (Val p) ->
      ControlGetter__getattr__ o name w
      = inl (AttributeError
               ("'" +:+ name +:+ "' is not an attribute related to a gui "
                +:+ "element or component")))
  /\ (forall u rest, reg !! name = Some (CUser u :: rest) ->
      exists msg, ControlGetter__getattr__ o name w = inl (AttributeError msg)).
Proof.
  intros Ho Hreg. unfold ControlGetter__getattr__, controls_of.
  rewrite Ho, Hreg. split; [|split].
  - by intros -> ->.
  - by intros p -> ->.
  - intros u rest ->. by eexists.
Qed.

Lemma controls_unknown_name_witness :
  ControlGetter__getattr__ 0 "y" unbound_world
  = inl (AttributeError
           "'y' is not an attribute related to a gui element or component").
Proof.
  eapply (proj1 (controls_unknown_name unbound_world 0 "y" _ _
                   eq_refl eq_refl)); reflexivity.
Defined.

End GetterFacts.

Module ComponentFacts.
Import Binding BindingFacts.

Lemma call_all_app callf cs1 cs2 v w :
  call_all callf (cs1 ++ cs2) v w
  = match call_all callf cs1 v w with
    | Some (Normal w') => call_all callf cs2 v w'
    | other => other
    end.
Proof.
  revert w. induction cs1 as [|c cs1 IH]; intros w; [done|].
  simpl. destruct (callf c v w) as [[w'|e w']|]; [apply IH|done..].
Qed.

(** The edges of [OWComponent.__setattr__].  While the component is being
    constructed, before [controlled_attributes] exists, an assignment only
    stores the value.  When a connected function raises, the exception
    leaves [__setattr__] with the value already stored, the functions
    connected before it called and those after it not called.  And a dotted
    name whose first part is not an attribute raises [AttributeError]
    without storing anything. *)
Theorem setattr_edges (h : Host) :
  (forall fuel o name v w c,
     split_dot name = None -> objs w !! o = Some (Comp c) ->
     controlled_attributes c = None ->
     setattr h fuel o name v w = Some (Normal (store_attr o c name v w)))
  /\ (forall n o name v w c reg us u e rest,
        split_dot name = None -> objs w !! o = Some (Comp c) ->
        controlled_attributes c = Some reg ->
        registered w o name = (CUser <$> us) ++ CUser u :: rest ->
        (forall u', u' ∈ us -> user_raises h u' = None) ->
        user_raises h u = Some e ->
        exists w',
          setattr h (S n) o name v w = Some (Raised e w')
          /\ getattr w' o name = Some v
          /\ trace w'
             = trace w ++ ((fun u => EUser u (Some v)) <$> (us ++ [u])))
  /\ (forall fuel o name head rest v w c,
        split_dot name = Some (head, rest) ->
        objs w !! o = Some (Comp c) -> attrs c !! head = None ->
        exists msg,
          setattr h fuel o name v w = Some (Raised (AttributeError msg) w)).
Proof.
  split; [|split].
  - intros fuel o name v w c Hdot Ho Hnone.
    unfold setattr, OWComponent__setattr__.
    by rewrite (setattr_simple _ _ _ _ _ _ c Hdot Ho), Hnone.
  - intros n o name v w c reg us u e rest Hdot Ho Hreg Hus Hret Hraise.
    rewrite (setattr_registry h _ o name v w c reg Hdot Ho Hreg), Hus.
    rewrite call_all_app, (call_all_users h n us v _ Hret).
    cbn [call_all]. simpl call. unfold user_call. rewrite Hraise.
    eexists. split; [reflexivity|]. split.
    + change (getattr (log_all [EUser u (Some v)]
                (log_all ((fun u => EUser u (Some v)) <$> us)
                   (store_attr o c name v w))) o name = Some v).
      rewrite !getattr_log_all. apply getattr_store_attr.
    + simpl. rewrite trace_log_all. simpl.
      by rewrite fmap_app, app_assoc.
  - intros fuel o name head rest v w c Hdot Ho Hhead.
    pose proof (split_dot_length _ _ _ Hdot) as Hlen.
    unfold setattr, OWComponent__setattr__. rewrite Hlen. simpl.
    rewrite Ho, Hdot, Hhead. by eexists.
Qed.

(** A component with three functions connected for [x], the second of
    which raises. *)
Definition raising_host : Host :=
  mkHost (fun _ _ => inl TypeError) (fun _ _ => None)
         (fun u => if decide (u = 11%nat) then Some (UserError 1) else None).

Definition three_callbacks_world : World :=
  mkWorld
    {[0%nat := Comp (mkComponent ∅
                       (Some {["x" := [CUser 10; CUser 11; CUser 12]]})
                       None)]}
    ∅ ∅ ∅ ∅ 1 [].

Lemma setattr_edges_witness :
  exists w',
    setattr raising_host 1 0 "x" (Val (PInt 4)) three_callbacks_world
    = Some (Raised (UserError 1) w')
    /\ getattr w' 0 "x" = Some (Val (PInt 4))
    /\ trace w' = [EUser 10 (Some (Val (PInt 4)));
                   EUser 11 (Some (Val (PInt 4)))].
Proof.
  destruct (setattr_edges raising_host) as (_ & H & _).
  apply (H 0%nat 0%nat "x" (Val (PInt 4)) three_callbacks_world _ _
           [10%nat] 11%nat (UserError 1) [CUser 12]
           eq_refl eq_refl eq_refl eq_refl).
  - intros u' Hu'. apply list_elem_of_singleton in Hu' as ->. reflexivity.
  - reflexivity.
Defined.

Lemma call_users_returns h us w :
  (forall u, u ∈ us -> user_raises h u = None) ->
  call_users h us w = Normal (log_all ((fun u => EUser u None) <$> us) w).
Proof.
  revert w. induction us as [|u us IH]; intros w Hret; [done|].
  simpl. unfold user_call. rewrite (Hret u) by left. simpl.
  rewrite IH; [done|]. intros u' Hu'. apply Hret. by right.
Qed.

(** A [FunctionCallback] that is not disabled calls its function, or the
    functions of its list in their order, whatever value the signal
    carries, [None] included, and passes none of it on; a function that
    raises ends the call there. *)
Theorem function_callback_calls (h : Host) (n : nat) (g : nat)
    (fc : FunctionCallback) (v : Value) (w : World) :
  funcs w !! g = Some fc -> fc_disabled fc = 0 ->
  ((forall u, u ∈ fc_func fc -> user_raises h u = None) ->
   call h (S n) (CFunc g) v w
   = Some (Normal (log_all ((fun u => EUser u None) <$> fc_func fc) w)))
  /\ (forall us u e rest, fc_func fc = us ++ u :: rest ->
        (forall u', u' ∈ us -> user_raises h u' = None) ->
        user_raises h u = Some e ->
        call h (S n) (CFunc g) v w
        = Some (Raised e
                  (log_all ((fun u => EUser u None) <$> (us ++ [u])) w))).
Proof.
  intros Hg Hd. simpl. unfold FunctionCallback__call__.
  rewrite Hg, decide_True by done. split.
  - intros Hret. by rewrite call_users_returns.
  - intros us u e rest -> Hret Hraise. f_equal.
    clear Hg Hd. revert w. induction us as [|u0 us IH]; intros w.
    + simpl. unfold user_call. by rewrite Hraise.
    + simpl. unfold user_call at 1. rewrite (Hret u0) by left. simpl.
      rewrite IH; [done|]. intros u' Hu'. apply Hret. by right.
Qed.

Lemma function_callback_calls_witness :
  call sample_host 1 (CFunc 4) VNone bound_world_cfunc
  = Some (Normal (log_all [EUser 100 None] bound_world_cfunc)).
Proof.
  apply (proj1 (function_callback_calls sample_host 0 4 _ VNone
                  bound_world_cfunc eq_refl eq_refl)).
  intros u _. reflexivity.
Defined.

(** A [dict] as master.  [connectControl] with a call front raises
    [AttributeError], since a [dict] has no [connect_control]; without a
    call front it returns a value call-back that has no opposite, and that
    call-back raises [RuntimeError] whenever it is given a value, before it
    assigns: no binding made by [connectControl] ever stores into a [dict]
    master. *)
Theorem connectControl_dict_master (master : nat) (items : gmap string Value)
    (value : string) (signal : option nat) (w : World) :
  objs w !! master = Some (DictObj items) -> nonempty value = true ->
  (forall f fr fvcb,
     exists msg w',
       connectControl master value f signal (Some fr) None None fvcb w
       = inl (AttributeError msg, w'))
  /\ exists w',
       connectControl master value [] signal None None None None w
       = inr ((None, Some (next_id w), None), w')
       /\ forall h n v, is_None v = false ->
            call h (S n) (CBack (next_id w)) v w'
            = Some (Raised (RuntimeError "generator didn't yield") w')
            /\ objs w' !! master = Some (DictObj items).
Proof.
  intros Ho Hne. split.
  - intros f fr fvcb. unfold connectControl. rewrite Hne.
    unfold ControlledCallback__init__, alloc. simpl. rewrite Ho. simpl.
    unfold connect_control.
    destruct (String.length value); simpl;
      unfold signal_connect; destruct signal; simpl; rewrite Ho;
      by eexists _, _.
  - unfold connectControl. rewrite Hne.
    unfold ControlledCallback__init__, alloc. simpl. rewrite Ho. simpl.
    eexists. split; [reflexivity|].
    intros h n v Hv. simpl. unfold ValueCallback__call__, acyclic_setattr.
    rewrite Hv. unfold signal_connect. destruct signal; simpl;
      rewrite lookup_alter_eq, lookup_insert_eq; simpl; done.
Qed.

Definition dict_world : World :=
  mkWorld {[0%nat := DictObj {["x" := Val (PInt 1)]}]} ∅ ∅ ∅
    {[1%nat := mkControl (Val (PInt 1)) []]} 2 [].

Lemma connectControl_dict_master_witness :
  exists w',
    connectControl 0 "x" [] (Some 1%nat) None None None None dict_world
    = inr ((None, Some 2%nat, None), w')
    /\ call sample_host 1 (CBack 2) (Val (PInt 5)) w'
       = Some (Raised (RuntimeError "generator didn't yield") w').
Proof.
  destruct (connectControl_dict_master 0 {["x" := Val (PInt 1)]} "x"
              (Some 1%nat) dict_world eq_refl eq_refl)
    as (_ & w' & Hrun & Hcall).
  exists w'. split; [exact Hrun|].
  apply (Hcall sample_host 0%nat (Val (PInt 5)) eq_refl).
Defined.

End ComponentFacts.

Module DisablerFacts.
Import Disable DisableFacts.

#[local] Instance Entry_dec : EqDecision Entry.
Proof. solve_decision. Defined.

Definition is_visible (w : World) (i : nat) : option bool :=
  visible <$> widgets w !! i.

Definition is_plain (e : Entry) : Prop := exists i, e = Plain i.

Lemma is_Some_setVisible i j b w :
  is_Some (widgets (setVisible i b w) !! j) <-> is_Some (widgets w !! j).
Proof.
  unfold setVisible. simpl. destruct (decide (i = j)) as [->|Hne].
  - rewrite lookup_alter_eq. by rewrite fmap_is_Some.
  - by rewrite lookup_alter_ne.
Qed.

Lemma is_enabled_setVisible i j b w :
  is_enabled (setVisible i b w) j = is_enabled w j.
Proof.
  unfold is_enabled, setVisible. simpl. destruct (decide (i = j)) as [->|Hne].
  - rewrite lookup_alter_eq. by destruct (widgets w !! j).
  - by rewrite lookup_alter_ne.
Qed.

(** Over plain widgets a hider shows or hides every widget of the list and
    leaves every enabled flag as it is. *)
Lemma loop_plain_hider recurse entries disabled w :
  Forall is_plain entries ->
  exists w',
    loop recurse HIDER entries disabled w = Some (Normal w')
    /\ (forall i, Plain i ∈ entries -> is_Some (widgets w !! i) ->
          is_visible w' i = Some (negb disabled))
    /\ (forall i, is_enabled w' i = is_enabled w i)
    /\ (forall i, Plain i ∉ entries -> widgets w' !! i = widgets w !! i).
Proof.
  intros Hall. revert w.
  induction Hall as [|e rest [i ->] _ IH]; intros w.
  - exists w. split; [done|]. split; [|done].
    intros i Hi. by apply elem_of_nil in Hi.
  - simpl. unfold apply_type. rewrite decide_False by done.
    rewrite decide_True by done.
    destruct (IH (setVisible i (negb disabled) w))
      as (w' & Hrun & Hin & Hen & Hout).
    exists w'. split; [done|]. split; [|split].
    + intros j Hj Hsome.
      destruct (decide (Plain j ∈ rest)) as [Hr|Hr].
      * apply Hin; [done|]. by apply is_Some_setVisible.
      * apply elem_of_cons in Hj as [[= ->]|Hj]; [|done].
        unfold is_visible. rewrite (Hout _ Hr).
        unfold setVisible. simpl. rewrite lookup_alter_eq.
        destruct Hsome as [x ->]. done.
    + intros j. rewrite Hen. apply is_enabled_setVisible.
    + intros j Hj. apply not_elem_of_cons in Hj as [Hne Hr].
      rewrite (Hout _ Hr). unfold setVisible. simpl.
      apply lookup_alter_ne. congruence.
Qed.

(** A disabler whose check box lists plain widgets only.  Let [on] be the
    truth of the controlling value, or false when the state of the check
    box must be propagated and the box is itself disabled.  A [DISABLER]
    leaves every listed widget enabled exactly when [on] holds; a [HIDER]
    leaves it visible exactly when [on] holds and changes no enabled flag;
    no other widget changes.  The controlling value is the argument of the
    call if there is one and the master's attribute otherwise. *)
Theorem Disabler_plain_widgets (fuel : nat) (d : Disabler)
    (value : option Prim) (v : Prim) (w : World) (cb : Widget) :
  widgets w !! widget d = Some cb ->
  Forall is_plain (disables cb) ->
  value = Some v \/ (value = None /\ master w !! valueName d = Some v) ->
  type d = DISABLER \/ type d = HIDER ->
  exists w',
    Disabler_call (S fuel) d value w = Some (Normal w')
    /\ (forall i, Plain i ∈ disables cb -> is_Some (widgets w !! i) ->
          (if decide (type d = DISABLER) then is_enabled w' i
           else is_visible w' i)
          = Some ((enabled cb || negb (propagateState d)) && prim_truthy v))
    /\ (type d = HIDER -> forall i, is_enabled w' i = is_enabled w i)
    /\ (forall i, Plain i ∉ disables cb -> widgets w' !! i = widgets w !! i).
Proof.
  intros Hcb Hplain Hvalue Htype. simpl. rewrite Hcb.
  set (on := (enabled cb || negb (propagateState d)) && prim_truthy v).
  assert (exists w',
            loop (fun d' w' => Disabler_call fuel d' None w') (type d)
              (disables cb) (negb on) w = Some (Normal w')
            /\ (forall i, Plain i ∈ disables cb -> is_Some (widgets w !! i) ->
                  (if decide (type d = DISABLER) then is_enabled w' i
                   else is_visible w' i) = Some on)
            /\ (type d = HIDER -> forall i, is_enabled w' i = is_enabled w i)
            /\ (forall i, Plain i ∉ disables cb ->
                  widgets w' !! i = widgets w !! i))
    as (w' & Hrun & Hin & Hen & Hout).
  { destruct Htype as [Ht|Ht]; rewrite Ht.
    - destruct (loop_plain (fun d' w' => Disabler_call fuel d' None w')
                  (disables cb) (negb on) w Hplain) as (w' & Hrun & Hin & Hout).
      exists w'. rewrite negb_involutive in Hin.
      split; [done|]. split; [|split; [|done]].
      + intros i Hi Hsome. rewrite decide_True by done. by apply Hin.
      + intros Habs. by rewrite Habs in Ht.
    - destruct (loop_plain_hider (fun d' w' => Disabler_call fuel d' None w')
                  (disables cb) (negb on) w Hplain)
        as (w' & Hrun & Hin & Hen & Hout).
      exists w'. rewrite negb_involutive in Hin.
      split; [done|]. split; [|done].
      intros i Hi Hsome. rewrite decide_False by done. by apply Hin. }
  exists w'. split; [|done]. rewrite <- Hrun. unfold on.
  destruct (enabled cb || negb (propagateState d)); simpl.
  - destruct Hvalue as [-> | [-> ->]]; done.
  - done.
Qed.

(** The check box [4] of [disabler_world], which lists the widget [3]. *)
Lemma Disabler_plain_widgets_witness :
  exists w',
    Disabler_call 1 outer_disabler None (disabler_world true) = Some (Normal w')
    /\ is_enabled w' 3 = Some false.
Proof.
  destruct (Disabler_plain_widgets 0 outer_disabler None (PBool false)
              (disabler_world true) _ eq_refl)
    as (w' & Hrun & Hin & _).
  - repeat constructor. by exists 3%nat.
  - right. split; reflexivity.
  - left. reflexivity.
  - exists w'. split; [exact Hrun|].
    apply (Hin 3%nat); [by left | by eexists].
Defined.

End DisablerFacts.

Module CommitSafety.
Import Commit CommitFacts.

Lemma run_body_dirty super b w :
  (forall w', dirty (data (state_of (super w'))) = dirty (data w')) ->
  dirty (data (state_of (run_body super b w))) = dirty (data w).
Proof.
  intros Hs. revert w. induction b as [|a b IH]; intros w; simpl; [done|].
  destruct a as [tag|e| |n v]; simpl; try done.
  - by rewrite IH.
  - specialize (Hs w). destruct (super w) as [w'|e w']; simpl in *; [|done].
    by rewrite IH.
  - by rewrite IH.
Qed.

Lemma Deferred_call_dirty name chain w :
  dirty (data (state_of (Deferred_call name chain w))) = dirty (data w).
Proof.
  revert w. induction chain as [|func supers IH]; intros w; simpl; [done|].
  rewrite state_of_try_finally.
  change (attrs (add_depth 1 w)) with (attrs w).
  change (dirty (data (add_depth (-1) ?x))) with (dirty (data x)).
  destruct (attrs w !! name) as [[p|c|s|s|b]|]; simpl; try done.
  - by rewrite run_body_dirty.
  - rewrite run_body_dirty; [done|].
    intros w'. case_decide; [done | apply IH].
Qed.

Lemma run_commit_is_dirty s w :
  is_dirty s (state_of (run_commit s w)) = is_dirty s w.
Proof.
  unfold is_dirty, decorated, run_commit.
  destruct (commit s) as [n chain|n chain|n body].
  - apply Deferred_call_dirty.
  - by apply (run_method_frame closure_dirty).
  - by apply (run_body_frame closure_dirty).
Qed.

Lemma run_commit_cursor s w : cursor (state_of (run_commit s w)) = cursor w.
Proof. by apply (run_commit_frame cursor). Qed.

(** [do_commit] puts the wait cursor up and takes it down again whether the
    commit returns or raises; the dirty flag is cleared when the commit
    returns and is left as it was when the commit raises, so that a commit
    which failed is still pending. *)
Theorem do_commit_exception_safe (s : Setup) (w : World) :
  cursor (state_of (do_commit s w)) = cursor w
  /\ is_dirty s (state_of (do_commit s w))
     = (if returns (do_commit s w) then false else is_dirty s w).
Proof.
  unfold do_commit.
  pose proof (run_commit_cursor s (with_cursor S w)) as Hcur.
  pose proof (run_commit_is_dirty s (with_cursor S w)) as Hdirty.
  destruct (run_commit s (with_cursor S w)) as [w'|e w']; simpl in *.
  - split.
    + unfold set_dirty. destruct (decorated s); simpl; by rewrite Hcur.
    + unfold is_dirty, set_dirty. by destruct (decorated s).
  - split; [by rewrite Hcur|].
    unfold is_dirty in *. by destruct (decorated s).
Qed.

(** *** [auto_commit] does not commit while it sets up *)

Definition is_warning (e : Event) : Prop := exists msg, e = EWarn msg.

Lemma publish_frame {A} (f : World -> A) p s w :
  (forall e w, f (log e w) = f w) ->
  (forall g w, f (with_attrs g w) = f w) ->
  (forall g w, f (with_data g w) = f w) ->
  f (state_of (publish p s w)) = f w.
Proof.
  intros Hlog Hattrs Hdata.
  unfold publish, master_setattr, DeferrerProperty__set__.
  destruct (decorated s); simpl; [by rewrite Hdata|].
  destruct (is_function (commit s));
    [|destruct (decorated_supertype _ _)]; simpl; try done;
    repeat (destruct (is_decorated_attr _); simpl);
    by rewrite ?Hattrs, ?Hlog.
Qed.

Lemma publish_trace p s w :
  exists warn,
    trace (state_of (publish p s w)) = trace w ++ warn
    /\ Forall is_warning warn.
Proof.
  unfold publish, master_setattr, DeferrerProperty__set__.
  destruct (decorated s); simpl.
  { exists []. by rewrite app_nil_r. }
  destruct (is_function (commit s)); simpl.
  { exists []. rewrite app_nil_r.
    by repeat (destruct (is_decorated_attr _); simpl). }
  destruct (decorated_supertype _ _); simpl.
  { exists []. by rewrite app_nil_r. }
  eexists [_]. split; [|repeat constructor; by eexists].
  by repeat (destruct (is_decorated_attr _); simpl).
Qed.

Lemma publish_is_dirty p s w :
  is_dirty s (state_of (publish p s w)) = is_dirty s w.
Proof.
  unfold is_dirty, publish, master_setattr, DeferrerProperty__set__.
  destruct (decorated s); simpl; [done|].
  destruct (is_function (commit s));
    [|destruct (decorated_supertype _ _)]; simpl; try done;
    by repeat (destruct (is_decorated_attr _); simpl).
Qed.

(** Setting up [auto_commit] for a master that has the setting runs no
    commit, even when the dirty flag of the decorated method was set
    before: the flag is cleared first.  Without a callback, all that the
    trace gains is the warning about an undecorated commit; the button is
    disabled with the automatic label when the setting is on and enabled
    with the plain label when it is off; and the dirty flag is clear
    afterwards. *)
Theorem auto_commit_setup (p : Params) (w : World) (v : Value) :
  attrs w !! p_value p = Some v -> p_callback p = None ->
  let w' := state_of (auto_commit p w) in
  let s := setup_of p w in
  (exists warn, trace w' = trace w ++ warn /\ Forall is_warning warn)
  /\ btn_text w' = (if truthy v then auto_label s else label s)
  /\ btn_enabled w' = negb (truthy v)
  /\ is_dirty s w' = false.
Proof.
  intros Hv Hcb. cbv zeta. unfold auto_commit. cbv zeta.
  set (s := setup_of p w).
  set (w3 := with_btn (label s) true
               (set_dirty s false (snd (resolve_commit_name p w)))).
  assert (attrs w3 !! value s = Some v) as Hv3.
  { unfold w3, set_dirty, resolve_commit_name.
    destruct (decorated s), (is_function (p_commit p)); simpl; exact Hv. }
  assert (is_dirty s w3 = false) as Hd3.
  { unfold w3, is_dirty, set_dirty. by destruct (decorated s). }
  assert (trace w3 = trace w) as Ht3.
  { unfold w3, set_dirty, resolve_commit_name.
    by destruct (decorated s), (is_function (p_commit p)). }
  assert (checkbox_toggled s w3
          = Normal (with_btn (if truthy v then auto_label s else label s)
                      (negb (truthy v)) w3)) as Htoggled.
  { unfold checkbox_toggled. rewrite Hv3. unfold run_callback.
    replace (callback s) with (@None Body) by (symmetry; exact Hcb).
    destruct (truthy v); [|done].
    change (is_dirty s (with_btn (auto_label s) false w3))
      with (is_dirty s w3).
    by rewrite Hd3. }
  rewrite Htoggled. simpl.
  set (w4 := with_btn _ _ w3).
  split; [|split; [|split]].
  - destruct (publish_trace p s w4) as (warn & Htrace & Hwarn).
    exists warn. split; [|done]. rewrite Htrace.
    change (trace w4) with (trace w3). by rewrite Ht3.
  - by rewrite (publish_frame btn_text).
  - by rewrite (publish_frame btn_enabled).
  - rewrite publish_is_dirty. unfold w4.
    change (is_dirty s (with_btn ?t ?e w3)) with (is_dirty s w3). exact Hd3.
Qed.

Lemma auto_commit_setup_witness :
  btn_text (state_of (auto_commit (sample_params sample_decorated)
                        (sample_dirty true)))
  = "Send Automatically"
  /\ trace (state_of (auto_commit (sample_params sample_decorated)
                        (sample_dirty true))) = [].
Proof.
  destruct (auto_commit_setup (sample_params sample_decorated)
              (sample_dirty true) (VPrim (PBool true)) eq_refl eq_refl)
    as (_ & Htext & _).
  split; [exact Htext | reflexivity].
Defined.

(** *** Overriding a decorated commit *)

Definition plain_action (a : Action) : Prop :=
  match a with Work _ | Super => True | _ => False end.

(** What a chain of functions logs when the first one is called: its own
    work, and at each [super()] call what the rest of the chain logs. *)
Fixpoint events_of (chain : list Body) : list Event :=
  match chain with
  | [] => []
  | func :: supers =>
      flat_map (fun a => match a with
                         | Work tag => [EWork tag]
                         | Super => events_of supers
                         | _ => []
                         end) func
  end.

(** Every function works and calls the inherited method only, and only
    where there is one to inherit. *)
Fixpoint well_formed (chain : list Body) : Prop :=
  match chain with
  | [] => True
  | func :: supers =>
      Forall plain_action func
      /\ (Super ∈ func -> supers <> [])
      /\ well_formed supers
  end.

Definition ready (name : string) (d : Z) (w : World) : Prop :=
  attrs w !! name = None /\ depth w = d.

Lemma run_body_plain name d super evs func w :
  Forall plain_action func ->
  (Super ∈ func ->
   forall w1, ready name d w1 ->
     exists w2, super w1 = Normal w2 /\ ready name d w2
                /\ trace w2 = trace w1 ++ evs) ->
  ready name d w ->
  exists w',
    run_body super func w = Normal w' /\ ready name d w'
    /\ trace w'
       = trace w ++ flat_map (fun a => match a with
                                       | Work tag => [EWork tag]
                                       | Super => evs
                                       | _ => []
                                       end) func.
Proof.
  intros Hplain. revert w.
  induction Hplain as [|a func Ha _ IH]; intros w Hsuper Hw.
  - exists w. simpl. by rewrite app_nil_r.
  - assert (Super ∈ func ->
            forall w1, ready name d w1 ->
              exists w2, super w1 = Normal w2 /\ ready name d w2
                         /\ trace w2 = trace w1 ++ evs) as Hsuper'
      by (intros Hin; apply Hsuper; by right).
    destruct a as [tag|e| |n v]; try done; simpl.
    + destruct (IH (log (EWork tag) w) Hsuper' Hw) as (w' & Hrun & Hw' & Ht).
      exists w'. split; [done|]. split; [done|].
      rewrite Ht. simpl. by rewrite <- app_assoc.
    + destruct (Hsuper ltac:(left) w Hw) as (w2 & Hrun2 & Hw2 & Ht2).
      rewrite Hrun2. simpl.
      destruct (IH w2 Hsuper' Hw2) as (w' & Hrun & Hw' & Ht).
      exists w'. split; [done|]. split; [done|].
      rewrite Ht, Ht2. by rewrite <- app_assoc.
Qed.

(** Within [commit.now()] an overriding commit may call
    [super().commit()]: [Deferred.call] runs the function of the instance's
    class, each [super()] call runs the function it overrides at once, and
    the guard that rejects a direct call of the deferred method does not
    fire; the call returns with [commit_depth] as before. *)
Theorem deferred_super_chain (name : string) (chain : list Body)
    (w : World) :
  chain <> [] -> well_formed chain ->
  attrs w !! name = None -> 0 <= depth w ->
  exists w',
    Deferred_call name chain w = Normal w'
    /\ trace w' = trace w ++ events_of chain
    /\ depth w' = depth w
    /\ attrs w' !! name = None.
Proof.
  revert w. induction chain as [|func supers IH]; intros w Hne Hwf Hattr Hd;
    [done|].
  destruct Hwf as (Hplain & Hsup & Hwf).
  rewrite (Deferred_call_unfold name func supers w Hattr).
  destruct (run_body_plain name (depth w + 1) (Deferred__call__ name supers)
              (events_of supers) func (add_depth 1 w) Hplain)
    as (w1 & Hrun & [Hattr1 Hdepth1] & Htrace1).
  - intros Hin w1 [Hattr1 Hdepth1]. unfold Deferred__call__.
    rewrite decide_False by lia.
    destruct (IH w1 (Hsup Hin) Hwf Hattr1 ltac:(lia))
      as (w2 & Hrun2 & Ht2 & Hd2 & Ha2).
    exists w2. split; [done|]. split; [|done]. split; [done|]. congruence.
  - split; [done|]. apply depth_add_depth.
  - rewrite Hrun. simpl. eexists. split; [reflexivity|].
    split; [exact Htrace1|]. split; [|exact Hattr1].
    rewrite depth_add_depth, Hdepth1. lia.
Qed.

Lemma deferred_super_chain_witness :
  exists w',
    Deferred_call "commit" sample_chain (sample_world 0) = Normal w'
    /\ trace w' = [EWork 1; EWork 3; EWork 2].
Proof.
  destruct (deferred_super_chain "commit" sample_chain (sample_world 0))
    as (w' & Hrun & Htrace & _).
  - done.
  - simpl. split; [repeat constructor|]. split; [done|].
    split; [repeat constructor|]. split; [|done].
    intros H. apply list_elem_of_singleton in H. discriminate.
  - reflexivity.
  - vm_compute. discriminate.
  - exists w'. split; [exact Hrun | exact Htrace].
Defined.

End CommitSafety.

Module SelectorFacts.
Import Selectors.

(** [items.index(x)] is the first position that holds an item equal to
    [x]. *)
Lemma index_Some {A} (eqb : A -> A -> bool) x items i :
  Py.index eqb x items = Some i ->
  exists item,
    items !! i = Some item /\ eqb item x = true
    /\ forall j item', (j < i)%nat -> items !! j = Some item' ->
         eqb item' x = false.
Proof.
  revert i. induction items as [|y rest IH]; intros i; simpl; [done|].
  destruct (eqb y x) eqn:E.
  - intros [= <-]. exists y. split; [done|]. split; [done|]. lia.
  - destruct (Py.index eqb x rest) as [k|]; [|done]. intros [= <-].
    destruct (IH k eq_refl) as (item & Hitem & Heq & Hfirst).
    exists item. split; [done|]. split; [done|].
    intros [|j] item' Hj; simpl; [by intros [= <-]|].
    apply Hfirst. lia.
Qed.

Lemma string_eqb_eq a b : String.eqb a b = true -> a = b.
Proof. apply String.eqb_eq. Qed.

(** A combo box that sends the selected text.  When the call front finds
    the item for the attribute's string value and the user activates that
    same item, the call-back hands back the value that was set, with one
    exception: a value equal to [emptyString] comes back as the empty
    string. *)
Theorem combo_round_trip (items : list string) (emptyString : option string)
    (s : string) (i : Z) :
  CallFrontComboBox_action items emptyString (PStr s) = SetCurrentIndex i ->
  exists text,
    0 <= i /\ items !! Z.to_nat i = Some text
    /\ ValueCallbackCombo_value emptyString text
       = (if decide (emptyString = Some s) then EmptyString else s).
Proof.
  unfold CallFrontComboBox_action, action_str, ValueCallbackCombo_value.
  destruct (String.eqb s EmptyString) eqn:Hs.
  - apply string_eqb_eq in Hs as ->.
    destruct emptyString as [e|]; [|done].
    destruct (Py.index String.eqb e items) as [k|] eqn:Hk; [|done].
    intros [= <-]. apply index_Some in Hk as (text & Htext & Heq & _).
    apply string_eqb_eq in Heq as ->.
    exists e. rewrite Nat2Z.id. split; [lia|]. split; [done|].
    rewrite decide_True by done. by case_decide.
  - destruct (Py.index String.eqb s items) as [k|] eqn:Hk; [|done].
    intros [= <-]. apply index_Some in Hk as (text & Htext & Heq & _).
    apply string_eqb_eq in Heq as ->.
    exists s. rewrite Nat2Z.id. split; [lia|]. split; [done|].
    destruct emptyString as [e|]; [|done].
    destruct (decide (e = s)) as [->|Hne].
    + by rewrite !decide_True.
    + by rewrite !decide_False by congruence.
Qed.

Lemma combo_round_trip_witness :
  exists text,
    0 <= 1 /\ ["(None)"; "age"; "sex"] !! Z.to_nat 1 = Some text
    /\ ValueCallbackCombo_value (Some "(None)") text = "age".
Proof.
  apply (combo_round_trip ["(None)"; "age"; "sex"] (Some "(None)") "age" 1).
  reflexivity.
Defined.

Lemma index_check_only i buttons :
  (i < List.length buttons)%nat ->
  Py.index Bool.eqb true (check_only i buttons) = Some i.
Proof.
  unfold check_only. revert i.
  induction buttons as [|b rest IH]; intros i Hi; simpl in *; [lia|].
  destruct i as [|i]; [done|]. simpl.
  rewrite (imap_ext _ (fun j (_ : bool) => Nat.eqb j i)) by done.
  by rewrite IH by lia.
Qed.

(** Radio buttons.  The call front checks the button whose index is the
    value, and button 0 for a value below 0 or past the last button; what
    the call-back then reads from the group is the index of that button.
    A group without buttons makes the call front raise [IndexError]. *)
Theorem radio_round_trip (value : Z) (buttons : list bool) :
  (buttons <> [] ->
   exists buttons',
     CallFrontRadioButtons_action value buttons = inr buttons'
     /\ CallBackRadioButton_value buttons'
        = inr (if (value <? 0) || (Z.of_nat (List.length buttons) <=? value)
               then 0 else value))
  /\ (buttons = [] ->
      CallFrontRadioButtons_action value buttons = inl Py.IndexErr).
Proof.
  split.
  - intros Hne. unfold CallFrontRadioButtons_action.
    set (v := if (value <? 0) || (Z.of_nat (List.length buttons) <=? value)
              then 0 else value).
    assert (0 <= v < Z.of_nat (List.length buttons)) as Hv.
    { unfold v. destruct buttons as [|b rest]; [done|]. simpl List.length.
      destruct (Z.ltb_spec value 0); simpl; [lia|].
      destruct (Z.leb_spec (Z.of_nat (S (List.length rest))) value); lia. }
    destruct (lookup_lt_is_Some_2 buttons (Z.to_nat v) ltac:(lia)) as [b Hb].
    rewrite Hb. eexists. split; [reflexivity|].
    unfold CallBackRadioButton_value.
    rewrite index_check_only by lia. f_equal. lia.
  - intros ->. unfold CallFrontRadioButtons_action. simpl.
    by destruct ((value <? 0) || (0 <=? value)).
Qed.

Lemma radio_round_trip_witness :
  exists buttons',
    CallFrontRadioButtons_action 7 [true; false; false] = inr buttons'
    /\ CallBackRadioButton_value buttons' = inr 0.
Proof.
  apply (proj1 (radio_round_trip 7 [true; false; false])). discriminate.
Defined.

(** A labelled slider.  The call front moves the slider to the first
    position of [lookup] that holds a value equal to the attribute's, and
    the call-back reads from that position a value equal to it; a value
    that [lookup] does not hold makes the call front raise [ValueError]. *)
Theorem labeled_slider_round_trip (lookup : list Prim) (value : Prim) :
  value <> PNone ->
  (forall i, CallFrontLabeledSlider_action lookup value = inr (Some i) ->
     exists v, CallBackLabeledSlider_value lookup i = inr v
               /\ Py.prim_eq v value = true)
  /\ ((forall v, v ∈ lookup -> Py.prim_eq v value = false) ->
      CallFrontLabeledSlider_action lookup value = inl Py.ValueErr).
Proof.
  intros Hvalue. unfold CallFrontLabeledSlider_action. split.
  - intros i Hi.
    assert (exists k, Py.index Py.prim_eq value lookup = Some k
                      /\ i = Z.of_nat k) as (k & Hk & ->).
    { destruct value; try done;
        destruct (Py.index Py.prim_eq _ lookup) as [k|]; try done;
        injection Hi as <-; eauto. }
    apply index_Some in Hk as (v & Hv & Heq & _).
    exists v. split; [|done]. unfold CallBackLabeledSlider_value.
    cbv zeta. rewrite !(proj2 (Z.ltb_ge (Z.of_nat k) 0)) by lia.
    by rewrite Nat2Z.id, Hv.
  - intros Hnone.
    assert (Py.index Py.prim_eq value lookup = None) as ->.
    { induction lookup as [|v rest IH]; [done|]. simpl.
      rewrite (Hnone v) by left. rewrite IH; [done|].
      intros v' Hv'. apply Hnone. by right. }
    by destruct value.
Qed.

Lemma labeled_slider_round_trip_witness :
  exists v,
    CallBackLabeledSlider_value [PStr "low"; PStr "mid"; PStr "high"] 1
    = inr v
    /\ Py.prim_eq v (PStr "mid") = true.
Proof.
  apply (proj1 (labeled_slider_round_trip
                  [PStr "low"; PStr "mid"; PStr "high"] (PStr "mid")
                  ltac:(discriminate)) 1).
  reflexivity.
Defined.

End SelectorFacts.

Module DeferredAttrsFacts.
Import Commit CommitFacts DeferredAttrs.

(** [commit.deferred] and [commit.now] can be taken before [auto_commit]
    has run, for instance as the callback of a control: what is taken then
    is a function that raises [TypeError] if it is called at once, and
    that, once [auto_commit] has set up the decorated commit, does what
    [conditional_commit] and [do_commit] do.  Taken after [auto_commit],
    the attributes are these two functions themselves. *)
Theorem deferred_attributes (p : Params) (w0 w1 : World) (k : Key) :
  field k (data w0) = None ->
  decorated (setup_of p w0) = true ->
  auto_commit p w0 = Normal w1 ->
  let s := setup_of p w0 in
  let taken_before := Deferred__getattribute__ k w0 in
  let run := match k with
             | KNow => do_commit s
             | KDeferred => conditional_commit s
             end in
  call_attribute taken_before w0 = Raised TypeError w0
  /\ call_attribute taken_before w1 = run w1
  /\ call_attribute (Deferred__getattribute__ k w1) w1 = run w1.
Proof.
  intros Hfield Hdec Hrun. cbv zeta.
  apply auto_commit_inv in Hrun as (w4 & _ & Hpub).
  destruct (publish_decorated _ _ _ _ Hdec Hpub) as [Hnow Hdef].
  unfold Deferred__getattribute__. rewrite Hfield. simpl.
  rewrite Hfield. split; [done|].
  destruct k; simpl in *.
  - rewrite Hnow. done.
  - rewrite Hdef. done.
Qed.

Lemma deferred_attributes_witness :
  call_attribute (Deferred__getattribute__ KDeferred (sample_master false))
    (state_of (auto_commit (sample_params sample_decorated)
                 (sample_master false)))
  = conditional_commit sample_setup
      (state_of (auto_commit (sample_params sample_decorated)
                   (sample_master false))).
Proof.
  apply (deferred_attributes (sample_params sample_decorated)
           (sample_master false) _ KDeferred eq_refl eq_refl eq_refl).
Defined.

(** Assigning [commit.now] or [commit.deferred], as a test does to put a
    mock in their place.  A later lookup returns the assigned value, and
    deleting the attribute, or assigning [None], empties it again.  What
    was taken from the attribute while it was empty calls the value that
    is there at the time of the call, so it follows the assignment; what
    was taken from it while it held [u] keeps calling [u] after the
    assignment. *)
Theorem deferred_attribute_assigned (k : Key) (v : Value) (w0 w : World) :
  v <> VPrim PNone ->
  let w' := Deferred__setattr__ k v w in
  Deferred__getattribute__ k w' = Stored v
  /\ Deferred__getattribute__ k (Deferred__delattr__ k w') = Thunk k
  /\ Deferred__getattribute__ k (Deferred__setattr__ k (VPrim PNone) w')
     = Thunk k
  /\ (field k (data w0) = None ->
      call_attribute (Deferred__getattribute__ k w0) w' = call_value v w')
  /\ (forall u, field k (data w0) = Some u ->
      call_attribute (Deferred__getattribute__ k w0) w' = call_value u w').
Proof.
  intros Hv. cbv zeta.
  assert (Hset : field k (data (Deferred__setattr__ k v w)) = Some v).
  { unfold Deferred__setattr__.
    destruct k; simpl; by destruct v as [[| | |]| | | |]. }
  unfold Deferred__getattribute__. rewrite Hset.
  split; [done|]. split; [by destruct k|]. split; [by destruct k|]. split.
  - intros ->. cbn [call_attribute]. by rewrite Hset.
  - by intros u ->.
Qed.

Lemma deferred_attribute_assigned_witness :
  Deferred__getattribute__ KNow
    (Deferred__setattr__ KNow (VUser [Work 1]) (sample_master true))
  = Stored (VUser [Work 1]).
Proof.
  apply (deferred_attribute_assigned KNow (VUser [Work 1])
           (sample_master true) (sample_master true)).
  discriminate.
Defined.

End DeferredAttrsFacts.

Module DisablerEdges.
Import Disable DisableFacts DisablerFacts CheckBoxDisabler.

Lemma apply_type_master ty i disabled w :
  master (apply_type ty i disabled w) = master w.
Proof. unfold apply_type. by repeat case_decide. Qed.

(** Over plain widgets the loop never touches the master. *)
Lemma loop_plain_master recurse ty entries disabled w w' :
  Forall is_plain entries ->
  loop recurse ty entries disabled w = Some (Normal w') ->
  master w' = master w.
Proof.
  intros Hall. revert w.
  induction Hall as [|e rest [i ->] _ IH]; intros w; simpl.
  - by intros [= ->].
  - intros Hrun. rewrite (IH _ Hrun). apply apply_type_master.
Qed.

(** How a disabler reads its controlling value.  While the check box is
    enabled, or its state is not propagated, the master's attribute is
    read when the call has no argument, and a missing attribute raises
    [AttributeError] before any widget is touched.  When the check box is
    disabled and its state is propagated, the value is never looked at:
    every call gives the outcome of the argument [False], so the plain
    widgets that the box lists end up disabled even when the attribute is
    missing. *)
Theorem Disabler_value_lookup (fuel : nat) (d : Disabler) (w : World)
    (cb : Widget) :
  widgets w !! widget d = Some cb ->
  (enabled cb || negb (propagateState d) = true ->
   (forall v, master w !! valueName d = Some v ->
      Disabler_call (S fuel) d None w = Disabler_call (S fuel) d (Some v) w)
   /\ (master w !! valueName d = None ->
       Disabler_call (S fuel) d None w
       = Some (Raised (AttributeError (valueName d)) w)))
  /\ (enabled cb || negb (propagateState d) = false ->
      (forall value,
         Disabler_call (S fuel) d value w
         = Disabler_call (S fuel) d (Some (PBool false)) w)
      /\ (Forall is_plain (disables cb) -> type d = DISABLER ->
          exists w',
            Disabler_call (S fuel) d None w = Some (Normal w')
            /\ forall i, Plain i ∈ disables cb -> is_Some (widgets w !! i) ->
                 is_enabled w' i = Some false)).
Proof.
  intros Hcb. split; intros Hstate.
  - split.
    + intros v Hv. simpl. rewrite Hcb, Hstate. by rewrite Hv.
    + intros Hv. simpl. rewrite Hcb, Hstate. by rewrite Hv.
  - split.
    + intros value. simpl. by rewrite Hcb, Hstate.
    + intros Hplain Hty. simpl. rewrite Hcb, Hstate, Hty.
      destruct (loop_plain (fun d' w' => Disabler_call fuel d' None w')
                  (disables cb) true w Hplain) as (w' & Hrun & Hin & _).
      exists w'. split; [done|]. intros i Hi Hsome. by apply Hin.
Qed.

(** The check box [4] of [disabler_world], disabled and with nothing
    stored in the master. *)
Definition orphan_world : World :=
  mkWorld (<[4%nat := mkWidget false true [Plain 3] (Some outer_disabler)]>
             (widgets (disabler_world true)))
          ∅.

Lemma Disabler_value_lookup_witness :
  exists w',
    Disabler_call 1 outer_disabler None orphan_world = Some (Normal w')
    /\ is_enabled w' 3 = Some false.
Proof.
  destruct (Disabler_value_lookup 0 outer_disabler orphan_world _ eq_refl)
    as [_ Hoff].
  destruct (Hoff eq_refl) as [_ Hplain].
  destruct Hplain as (w' & Hrun & Hin).
  - repeat constructor. by exists 3%nat.
  - reflexivity.
  - exists w'. split; [exact Hrun|].
    apply (Hin 3%nat); [by left | by eexists].
Defined.

(** [checkBox] ends with [cbox.makeConsistent(value)], which hands the
    name of the attribute to the disabler as the controlling value.  A
    name is a non-empty string, hence true: when the new check box is
    enabled, every plain widget passed in [disables] is left enabled,
    whatever the attribute holds and even if it is [False].  The widgets
    follow the attribute only from the next call of [makeConsistent]
    without an argument, or the next [toggled] signal. *)
Theorem checkBox_disables_enabled (fuel : nat) (cbox : nat) (value : string)
    (a : DisablesArg) (w : World) (cb : Widget) :
  widgets w !! cbox = Some cb ->
  enabled cb = true ->
  value <> EmptyString ->
  Forall is_plain (disables_list a) ->
  Plain cbox ∉ disables_list a ->
  exists w1,
    checkBox_disables (S fuel) cbox value a w = Some (Normal w1)
    /\ (forall i, Plain i ∈ disables_list a -> is_Some (widgets w !! i) ->
          is_enabled w1 i = Some true)
    /\ (forall v, master w !! value = Some v ->
        exists w2,
          Disabler_call (S fuel) (new_disabler cbox value) None w1
          = Some (Normal w2)
          /\ forall i, Plain i ∈ disables_list a ->
               is_Some (widgets w !! i) ->
               is_enabled w2 i = Some (prim_truthy v)).
Proof.
  intros Hcb Hen Hname Hplain Hself.
  unfold checkBox_disables.
  set (d := new_disabler cbox value).
  set (cb' := mkWidget (enabled cb) (visible cb) (disables_list a) (Some d)).
  set (w0 := mkWorld (alter (fun x => mkWidget (enabled x) (visible x)
                                        (disables_list a) (Some d))
                        cbox (widgets w)) (master w)).
  assert (Hcb0 : widgets w0 !! cbox = Some cb').
  { unfold w0. simpl. rewrite lookup_alter_eq, Hcb. done. }
  assert (Hsome0 : forall i, is_Some (widgets w !! i) ->
                             is_Some (widgets w0 !! i)).
  { intros i Hi. unfold w0. simpl.
    destruct (decide (cbox = i)) as [->|Hne].
    - rewrite lookup_alter_eq. by apply fmap_is_Some.
    - by rewrite lookup_alter_ne. }
  assert (Htrue : prim_truthy (PStr value) = true).
  { simpl. destruct (String.eqb_spec value EmptyString); [done|done]. }
  destruct (loop_plain (fun d' w' => Disabler_call fuel d' None w')
              (disables_list a) false w0 Hplain) as (w1 & Hrun & Hin & Hout).
  exists w1. split; [|split].
  - cbn [Disabler_call]. change (widget d) with cbox. rewrite Hcb0.
    change (enabled cb') with (enabled cb). rewrite Hen.
    cbn [orb]. rewrite Htrue. exact Hrun.
  - intros i Hi Hsome. apply Hin; [done|]. by apply Hsome0.
  - intros v Hv.
    assert (Hcb1 : widgets w1 !! cbox = Some cb').
    { by rewrite (Hout _ Hself). }
    assert (Hm : master w1 = master w).
    { by rewrite (loop_plain_master _ _ _ _ _ _ Hplain Hrun). }
    destruct (loop_plain (fun d' w' => Disabler_call fuel d' None w')
                (disables_list a) (negb (prim_truthy v)) w1 Hplain)
      as (w2 & Hrun2 & Hin2 & _).
    exists w2. split.
    + cbn [Disabler_call]. change (widget d) with cbox. rewrite Hcb1.
      change (enabled cb') with (enabled cb). rewrite Hen.
      cbn [orb]. change (valueName d) with value. rewrite Hm, Hv.
      exact Hrun2.
    + intros i Hi Hsome. rewrite (Hin2 i Hi).
      * by rewrite negb_involutive.
      * assert (He : is_enabled w1 i = Some true)
          by (apply Hin; [done|by apply Hsome0]).
        unfold is_enabled in He.
        destruct (widgets w1 !! i); [by eexists|done].
Qed.

(** A check box [0] that is to disable the widgets [1] and [2], for an
    attribute that holds [False]. *)
Definition unchecked_world : World :=
  mkWorld (<[0%nat := mkWidget true true [] None]>
           (<[1%nat := mkWidget true true [] None]>
           (<[2%nat := mkWidget true true [] None]> ∅)))
          {["flag" := PBool false]}.

Lemma checkBox_disables_enabled_witness :
  exists w1,
    checkBox_disables 1 0 "flag" (Listed [Plain 1; Plain 2]) unchecked_world
    = Some (Normal w1)
    /\ is_enabled w1 1 = Some true.
Proof.
  destruct (checkBox_disables_enabled 0 0 "flag" (Listed [Plain 1; Plain 2])
              unchecked_world _ eq_refl eq_refl)
    as (w1 & Hrun & Hin & _).
  - discriminate.
  - repeat constructor; by eexists.
  - intros Hin. apply elem_of_cons in Hin as [Heq|Hin]; [discriminate|].
    apply elem_of_cons in Hin as [Heq|Hin]; [discriminate|].
    by apply elem_of_nil in Hin.
  - exists w1. split; [exact Hrun|].
    apply (Hin 1%nat); [by left | by eexists].
Defined.

End DisablerEdges.

Module CheckBoxFrontFacts.
Import Binding.

(** [CallFrontCheckBox] reads the attribute as an index into
    [[Qt.Unchecked, Qt.Checked, Qt.PartiallyChecked]], not as a check
    state: [0] and [-3] show the box unchecked, [1] and [-2] checked, [2]
    and [-1] partially checked, so the attribute [2], which is
    [Qt.Checked], shows a partially checked box and the attribute [1],
    [Qt.PartiallyChecked], a checked one.  Any other integer raises
    [IndexError]; [True] and [False] show checked and unchecked, and [None]
    leaves the box as it is. *)
Theorem check_box_front_values (z : Z) (b : bool) :
  (action_of KCheckBox (Val (PInt z)) = ASet (Val (PInt Unchecked))
   <-> z = 0 \/ z = -3)
  /\ (action_of KCheckBox (Val (PInt z)) = ASet (Val (PInt Checked))
      <-> z = 1 \/ z = -2)
  /\ (action_of KCheckBox (Val (PInt z)) = ASet (Val (PInt PartiallyChecked))
      <-> z = 2 \/ z = -1)
  /\ (action_of KCheckBox (Val (PInt z)) = ARaise IndexError
      <-> z < -3 \/ 2 < z)
  /\ action_of KCheckBox (Val (PBool b))
     = action_of KCheckBox (Val (PInt (if b then 1 else 0)))
  /\ action_of KCheckBox (Val PNone) = ASkip.
Proof.
  assert (Hcases : z < -3 \/ z = -3 \/ z = -2 \/ z = -1 \/ z = 0 \/ z = 1
                   \/ z = 2 \/ 2 < z) by lia.
  unfold action_of, check_state, Unchecked, Checked, PartiallyChecked.
  destruct Hcases as [H|[->|[->|[->|[->|[->|[->|H]]]]]]].
  2-7: repeat split; try (intros; discriminate); try (intros; lia);
       try (by destruct b); try (by left); try (by right).
  - destruct (Z.ltb_spec z 0); [|lia].
    rewrite !(proj2 (Z.eqb_neq _ _)) by lia.
    repeat split; try (intros; discriminate); try (intros; lia);
      try (by destruct b); by left.
  - destruct (Z.ltb_spec z 0); [lia|].
    rewrite !(proj2 (Z.eqb_neq _ _)) by lia.
    repeat split; try (intros; discriminate); try (intros; lia);
      try (by destruct b); by right.
Qed.

End CheckBoxFrontFacts.

Module ComboBoxFacts.
Import Selectors SelectorFacts ComboBox.

Lemma clamp_spec (n c : Z) :
  (if c >? n - 1 then 0 else c) = (if c <? n then c else 0).
Proof. destruct (Z.gtb_spec c (n - 1)), (Z.ltb_spec c n); lia. Qed.

(** The item that [comboBox] selects first, for a combo box of strings
    without a model.  An attribute holding [None] raises [TypeError];
    otherwise the index handed to [setCurrentIndex] is below the number of
    items, or [0] for an empty box.  For a value other than the empty
    string it is the index that [CallFrontComboBox] sets whenever the
    attribute is assigned that value again; and where the call front would
    only warn, for a text that is no item or an index past the end,
    [comboBox] selects item [0] without a warning. *)
Theorem comboBox_initial_index (items : list string)
    (emptyString : option string) (v : Prim) :
  (comboBox_index items v = inl TypeError <-> v = PNone)
  /\ forall i, comboBox_index items v = inr i ->
       (i < Z.of_nat (List.length items) \/ i = 0)
       /\ (v <> PStr EmptyString ->
           match CallFrontComboBox_action items emptyString v with
           | SetCurrentIndex j => j = i
           | Warn => i = 0
           end).
Proof.
  split.
  - split; [by destruct v|by intros ->].
  - intros i. unfold comboBox_index.
    destruct v as [|b|z|s]; [done|..]; cbv beta zeta; rewrite clamp_spec;
      intros [= <-]; cbn [CallFrontComboBox_action].
    + unfold action_int. split; [case_match; lia|intros _].
      by destruct (Z.ltb_spec (if b then 1 else 0) (Z.of_nat (List.length items))).
    + unfold action_int. split; [case_match; lia|intros _].
      by destruct (Z.ltb_spec z (Z.of_nat (List.length items))).
    + split; [case_match; lia|intros Hs].
      unfold action_str.
      destruct (String.eqb_spec s EmptyString) as [->|_]; [done|].
      destruct (Py.index String.eqb s items) as [k|] eqn:Hk.
      * apply index_Some in Hk as (text & Htext & _).
        apply lookup_lt_Some in Htext.
        destruct (Z.ltb_spec (Z.of_nat k) (Z.of_nat (List.length items))); lia.
      * by case_match.
Qed.

Lemma comboBox_initial_index_witness :
  (1 < Z.of_nat (List.length ["age"; "sex"]) \/ 1 = 0)
  /\ (PStr "sex" <> PStr EmptyString ->
      match CallFrontComboBox_action ["age"; "sex"] None (PStr "sex") with
      | SetCurrentIndex j => j = 1
      | Warn => 1 = 0
      end).
Proof.
  apply (proj2 (comboBox_initial_index ["age"; "sex"] None (PStr "sex")) 1).
  reflexivity.
Defined.

End ComboBoxFacts.
